(** * LUW-Shell: dispatch engine, worker pool and script container

    A shallow embedding of the core of the shell:
    - [modules/dispatch.py]: tokenising, alias expansion, variable
      expansion, chain resolution, built-ins, batch mode, [handle_input];
    - [modules/workerthread.py]: the worker loop;
    - [modules/shell_executor.py]: the names the module defines;
    - [modules/commands.py]: [reverse], [upper], [echo], [uniq],
      [_wrap_text];
    - [app.py]: the [.le] container writer and reader, the script loop.

    Python text is modelled by [string]; the character functions below are
    those of Python on 7-bit ASCII text (code points below 128), which is
    all the statements of this file use.  Exceptions are the synchronous
    ones the code raises itself (subclasses of [Exception]).  Memory for
    the data at hand is taken to be there; the sized read of a file is the
    one place where the size asked for comes from the input, and there the
    refusal of the buffer is part of the model ([file_read]). *)

From Stdlib Require Import String Ascii List ZArith NArith Lia Bool Arith.
From Stdlib Require Import DecimalString Decimal.
From Stdlib.Strings Require Import Byte.
Import ListNotations.
Open Scope list_scope.
Open Scope string_scope.

(** ** Python [str] operations *)

Module PyStr.

Definition code (c : ascii) : N := N_of_ascii c.

Definition in_range (lo hi : N) (c : ascii) : bool :=
  (N.leb lo (code c) && N.leb (code c) hi)%bool.

(** [str.isspace] on one ASCII character: TAB..CR, FS..US and the space. *)
Definition isspace (c : ascii) : bool :=
  in_range 9 13 c || in_range 28 32 c.

Definition isupper (c : ascii) : bool := in_range 65 90 c.
Definition islower (c : ascii) : bool := in_range 97 122 c.
Definition isdigit (c : ascii) : bool := in_range 48 57 c.

(** The regular-expression classes [[A-Za-z_]] and [\w]. *)
Definition is_name_start (c : ascii) : bool :=
  isupper c || islower c || Ascii.eqb c "_"%char.
Definition is_word (c : ascii) : bool := is_name_start c || isdigit c.

Definition upper_char (c : ascii) : ascii :=
  if islower c then ascii_of_N (code c - 32) else c.
Definition lower_char (c : ascii) : ascii :=
  if isupper c then ascii_of_N (code c + 32) else c.

Fixpoint map_chars (f : ascii -> ascii) (s : string) : string :=
  match s with
  | EmptyString => EmptyString
  | String c r => String (f c) (map_chars f r)
  end.

Definition upper : string -> string := map_chars upper_char.
Definition lower : string -> string := map_chars lower_char.

(** [s[::-1]] *)
Fixpoint rev_onto (s acc : string) : string :=
  match s with
  | EmptyString => acc
  | String c r => rev_onto r (String c acc)
  end.
Definition reversed (s : string) : string := rev_onto s EmptyString.

Definition is_empty (s : string) : bool :=
  match s with EmptyString => true | _ => false end.

(** [s.startswith(p)] *)
Fixpoint startswith (p s : string) : bool :=
  match p, s with
  | EmptyString, _ => true
  | String a p', String b s' => Ascii.eqb a b && startswith p' s'
  | String _ _, EmptyString => false
  end.

(** [needle in hay] *)
Fixpoint contains (needle hay : string) : bool :=
  startswith needle hay ||
  match hay with
  | EmptyString => false
  | String _ r => contains needle r
  end.

(** [s[n:]] for [n >= 0] *)
Fixpoint drop (n : nat) (s : string) : string :=
  match n, s with
  | O, _ => s
  | S _, EmptyString => EmptyString
  | S k, String _ r => drop k r
  end.

(** [s.lstrip(chars)], [s.rstrip(chars)] and [s.strip(chars)], the set of
    characters given as a predicate. *)
Fixpoint lstrip_by (p : ascii -> bool) (s : string) : string :=
  match s with
  | EmptyString => EmptyString
  | String c r => if p c then lstrip_by p r else s
  end.

Fixpoint rstrip_by (p : ascii -> bool) (s : string) : string :=
  match s with
  | EmptyString => EmptyString
  | String c r =>
      let r' := rstrip_by p r in
      if is_empty r' && p c then EmptyString else String c r'
  end.

Definition strip_by (p : ascii -> bool) (s : string) : string :=
  rstrip_by p (lstrip_by p s).

Definition strip : string -> string := strip_by isspace.

Definition char_in (set : string) (c : ascii) : bool :=
  contains (String c EmptyString) set.

(** [sep.join(l)] *)
Fixpoint join (sep : string) (l : list string) : string :=
  match l with
  | [] => EmptyString
  | [x] => x
  | x :: r => x ++ sep ++ join sep r
  end.

(** [s.split()]: the maximal runs of non-space characters.  [cur] holds the
    run being read, in reverse. *)
Fixpoint split_ws_from (cur : option string) (s : string) : list string :=
  match s with
  | EmptyString =>
      match cur with Some w => [reversed w] | None => [] end
  | String c r =>
      if isspace c then
        match cur with
        | Some w => reversed w :: split_ws_from None r
        | None => split_ws_from None r
        end
      else
        match cur with
        | Some w => split_ws_from (Some (String c w)) r
        | None => split_ws_from (Some (String c EmptyString)) r
        end
  end.
Definition split_ws (s : string) : list string := split_ws_from None s.

(** [s.split(sep)] for a one-character separator: empty fields are kept. *)
Fixpoint split_char_from (sep : ascii) (cur : string) (s : string)
  : list string :=
  match s with
  | EmptyString => [reversed cur]
  | String c r =>
      if Ascii.eqb c sep then reversed cur :: split_char_from sep EmptyString r
      else split_char_from sep (String c cur) r
  end.
Definition split_char (sep : ascii) (s : string) : list string :=
  split_char_from sep EmptyString s.

(** [s.split(sep, 1)] when [sep] occurs in [s]: the text before the first
    separator and the text after it; [None] when there is no separator. *)
Fixpoint split_once (sep : ascii) (s : string) : option (string * string) :=
  match s with
  | EmptyString => None
  | String c r =>
      if Ascii.eqb c sep then Some (EmptyString, r)
      else match split_once sep r with
           | Some (a, b) => Some (String c a, b)
           | None => None
           end
  end.

(** [s.splitlines()] on ASCII text: lines end at LF, VT, FF, CR, CR LF,
    FS, GS and RS; no empty last line is produced. *)
Definition is_linebreak (c : ascii) : bool :=
  in_range 10 13 c || in_range 28 30 c.

Fixpoint splitlines_from (cur : option string) (after_cr : bool) (s : string)
  : list string :=
  match s with
  | EmptyString =>
      match cur with Some w => [reversed w] | None => [] end
  | String c r =>
      if after_cr && Ascii.eqb c "010"%char then splitlines_from cur false r
      else if is_linebreak c then
        match cur with
        | Some w => reversed w :: splitlines_from None (Ascii.eqb c "013"%char) r
        | None => EmptyString :: splitlines_from None (Ascii.eqb c "013"%char) r
        end
      else
        match cur with
        | Some w => splitlines_from (Some (String c w)) false r
        | None => splitlines_from (Some (String c EmptyString)) false r
        end
  end.
Definition splitlines (s : string) : list string :=
  splitlines_from None false s.

(** [str(n)] for a non-negative integer. *)
Definition of_nat (n : nat) : string := NilEmpty.string_of_uint (Nat.to_uint n).

(** [f"{s:15}"]: left-justified in a field of the given width. *)
Fixpoint spaces (n : nat) : string :=
  match n with O => EmptyString | S k => String " "%char (spaces k) end.
Definition ljust (width : nat) (s : string) : string :=
  s ++ spaces (width - String.length s).

(** Code-point order of [str], as [sorted] uses it. *)
Fixpoint leb (a b : string) : bool :=
  match a, b with
  | EmptyString, _ => true
  | String _ _, EmptyString => false
  | String x a', String y b' =>
      if N.ltb (code x) (code y) then true
      else if N.ltb (code y) (code x) then false
      else leb a' b'
  end.

End PyStr.

(** The double-quote character, as a text. *)
Definition DQ : string := String "034"%char EmptyString.

(** ** [shlex.split] (POSIX mode, [whitespace_split], no comment characters)

    The lexer of the standard library reads one character at a time in one
    of four states; [escapedstate] is the state an escape returns to. *)

Module Shlex.

Inductive state : Type :=
| InSpace                     (* ' ' : between tokens *)
| InWord                      (* 'a' : inside a token *)
| InQuote (q : ascii)         (* the opening quote character *)
| InEscape.                   (* '\' : after a backslash *)

(** [escapedstate] is ['a'] or the double quote. *)
Inductive escaped : Type := EscWord | EscQuote (q : ascii).

Definition is_whitespace (c : ascii) : bool :=
  PyStr.char_in (String " "%char (String "009"%char (String "013"%char
                (String "010"%char EmptyString)))) c.
Definition is_quote (c : ascii) : bool :=
  Ascii.eqb c "'"%char || Ascii.eqb c "034"%char.
Definition is_escape (c : ascii) : bool := Ascii.eqb c "\"%char.
Definition is_escapedquote (c : ascii) : bool := Ascii.eqb c "034"%char.

(** What [read_token] returns at a token boundary: the token when it is not
    empty or was quoted. *)
Definition emit (tok : string) (quoted : bool) : list string :=
  if negb (PyStr.is_empty tok) || quoted then [PyStr.reversed tok] else [].

(** The outcome of reading the whole input: the tokens, or the message of
    the [ValueError] the lexer raises at the end of the input. *)
Inductive lexed : Type :=
| Tokens (l : list string)
| LexError (msg : string).

Definition push (t : string) (r : lexed) : lexed :=
  match r with
  | Tokens l => Tokens (t :: l)
  | LexError m => LexError m
  end.

(** [tok] is the current token in reverse. *)
Fixpoint lex (st : state) (esc : escaped) (tok : string) (quoted : bool)
    (s : string) : lexed :=
  match s with
  | EmptyString =>
      match st with
      | InSpace => Tokens []
      | InWord => Tokens (emit tok quoted)
      | InQuote _ => LexError "No closing quotation"
      | InEscape => LexError "No escaped character"
      end
  | String c r =>
      match st with
      | InSpace =>
          if is_whitespace c then lex InSpace esc tok quoted r
          else if is_escape c then lex InEscape EscWord tok quoted r
          else if is_quote c then lex (InQuote c) esc tok quoted r
          else lex InWord esc (String c EmptyString) quoted r
      | InWord =>
          if is_whitespace c then
            if negb (PyStr.is_empty tok) || quoted then
              push (PyStr.reversed tok)
                   (lex InSpace EscWord EmptyString false r)
            else lex InSpace esc tok quoted r
          else if is_quote c then lex (InQuote c) esc tok quoted r
          else if is_escape c then lex InEscape EscWord tok quoted r
          else lex InWord esc (String c tok) quoted r
      | InQuote q =>
          if Ascii.eqb c q then lex InWord esc tok true r
          else if is_escape c && is_escapedquote q
               then lex InEscape (EscQuote q) tok true r
          else lex (InQuote q) esc (String c tok) true r
      | InEscape =>
          match esc with
          | EscQuote q =>
              if negb (is_escape c) && negb (Ascii.eqb c q)
              then lex (InQuote q) esc (String c (String "\"%char tok)) quoted r
              else lex (InQuote q) esc (String c tok) quoted r
          | EscWord => lex InWord esc (String c tok) quoted r
          end
      end
  end.

Definition split (s : string) : lexed :=
  lex InSpace EscWord EmptyString false s.

End Shlex.

(** The idiom of the repository:
    [try: parts = shlex.split(x)  except Exception: parts = x.split()]. *)
Definition tokens (s : string) : list string :=
  match Shlex.split s with
  | Shlex.Tokens l => l
  | Shlex.LexError _ => PyStr.split_ws s
  end.


(** ** Python [dict] with string keys

    A [dict] keeps its keys in insertion order; assigning to a key that is
    present replaces the value in place. *)

Definition dict (V : Type) : Type := list (string * V).

Fixpoint dict_get {V : Type} (d : dict V) (k : string) : option V :=
  match d with
  | [] => None
  | (k', v) :: r => if String.eqb k' k then Some v else dict_get r k
  end.

(** [k in d] *)
Definition dict_has {V : Type} (d : dict V) (k : string) : bool :=
  match dict_get d k with Some _ => true | None => false end.

(** [d[k] = v] *)
Fixpoint dict_set {V : Type} (d : dict V) (k : string) (v : V) : dict V :=
  match d with
  | [] => [(k, v)]
  | (k', v') :: r =>
      if String.eqb k' k then (k', v) :: r else (k', v') :: dict_set r k v
  end.

(** [d.pop(k, None)] *)
Fixpoint dict_pop {V : Type} (d : dict V) (k : string) : dict V :=
  match d with
  | [] => []
  | (k', v') :: r => if String.eqb k' k then r else (k', v') :: dict_pop r k
  end.

(** [d.get(k, default)] with the empty text as default *)
Definition get_str (d : dict string) (k : string) : string :=
  match dict_get d k with Some v => v | None => EmptyString end.

(** [a or b] on strings: the empty string is false. *)
Definition str_or (a b : string) : string :=
  if PyStr.is_empty a then b else a.

(** [x in (a, b, ...)] *)
Definition str_in (x : string) (l : list string) : bool :=
  existsb (String.eqb x) l.

(** ** Variable expansion ([_env_pattern], [_expand_env_in_str]) *)

(** [[A-Za-z_]\w*] at the head of [s]: the name and what follows it. *)
Fixpoint take_word (s : string) : string * string :=
  match s with
  | EmptyString => (EmptyString, EmptyString)
  | String c r =>
      if PyStr.is_word c then
        let (w, rest) := take_word r in (String c w, rest)
      else (EmptyString, s)
  end.

Definition take_name (s : string) : option (string * string) :=
  match s with
  | EmptyString => None
  | String c r =>
      if PyStr.is_name_start c then
        let (w, rest) := take_word r in Some (String c w, rest)
      else None
  end.

(** A match of [_env_pattern] at the head of [s]: the variable name
    (whichever group matched) and the length of the match.  The three
    alternatives are tried in the order of the pattern. *)
Definition match_env_pattern (s : string) : option (string * nat) :=
  match s with
  | String "$"%char r =>
      let alt3 :=
        match take_name r with
        | Some (n, _) => Some (n, 1 + String.length n)
        | None => None
        end in
      let alt2 :=
        match r with
        | String "{"%char r2 =>
            match take_name r2 with
            | Some (n, String "}"%char _) => Some (n, 3 + String.length n)
            | _ => alt3
            end
        | _ => alt3
        end in
      if PyStr.startswith "env:" r then
        match take_name (PyStr.drop 4 r) with
        | Some (n, _) => Some (n, 5 + String.length n)
        | None => alt2
        end
      else alt2
  | _ => None
  end.

(** [_env_pattern.sub(repl, s)]: [skip] counts the characters of the
    current match that are still to be passed over. *)
Fixpoint env_sub (environ : dict string) (skip : nat) (s : string) : string :=
  match s with
  | EmptyString => EmptyString
  | String c r =>
      match skip with
      | S k => env_sub environ k r
      | O =>
          match match_env_pattern s with
          | Some (name, len) =>
              get_str environ name ++ env_sub environ (len - 1) r
          | None => String c (env_sub environ 0 r)
          end
      end
  end.

Definition _expand_env_in_str (environ : dict string) (s : string) : string :=
  if PyStr.is_empty s then s else env_sub environ 0 s.

(** Every value of an argument mapping built by this module is a [str]. *)
Definition _expand_env_in_args (environ : dict string) (args : dict string)
  : dict string :=
  fold_left (fun out kv => dict_set out (fst kv) (_expand_env_in_str environ (snd kv)))
            args [].

(** ** Tokens, flags and positional arguments *)

(** [original_text] is [None] or a string; both [None] and the empty
    string are false. *)
Definition _was_quoted (token : string) (original_text : option string) : bool :=
  match original_text with
  | None => false
  | Some text =>
      if PyStr.is_empty text then false
      else if PyStr.contains (DQ ++ token ++ DQ) text
              || PyStr.contains ("'" ++ token ++ "'") text then true
      else if PyStr.contains ("${" ++ token ++ "}") text then true
      else false
  end.

(** The loop the three helpers share steps over the tokens after the
    command: a token that starts with [--] and has a successor takes two
    positions, any other token takes one. *)
Definition is_flag (t : string) : bool := PyStr.startswith "--" t.

Definition lstrip_dashes (t : string) : string :=
  PyStr.lstrip_by (PyStr.char_in "-") t.

Fixpoint scan_args (rest : list string) (args : dict string)
    (positional : list string) : dict string * list string :=
  match rest with
  | [] => (args, positional)
  | t :: ((v :: rest') as rest1) =>
      if is_flag t then scan_args rest' (dict_set args (lstrip_dashes t) v) positional
      else scan_args rest1 args (positional ++ [t])%list
  | [t] => (args, (positional ++ [t])%list)
  end.

Definition _build_args_from_parts (parts : list string) : dict string :=
  let (args, positional) := scan_args (tl parts) [] [] in
  match positional with
  | [] => args
  | _ => if dict_has args "str" then args
         else dict_set args "str" (PyStr.join " " positional)
  end.

Fixpoint positional_of (rest : list string) : list string :=
  match rest with
  | [] => []
  | t :: ((v :: rest') as rest1) =>
      if is_flag t then positional_of rest' else t :: positional_of rest1
  | [t] => [t]
  end.

Definition _extract_positional (parts : list string) : list string :=
  positional_of (tl parts).

(** The indices in [parts] of the positional tokens; [i] is the index of
    the head of [rest]. *)
Fixpoint pos_indices_from (i : nat) (rest : list string) : list nat :=
  match rest with
  | [] => []
  | t :: ((v :: rest') as rest1) =>
      if is_flag t then pos_indices_from (i + 2) rest'
      else i :: pos_indices_from (i + 1) rest1
  | [t] => [i]
  end.

Fixpoint consumed_from (i : nat) (rest : list string) : nat :=
  match rest with
  | [] => i
  | t :: ((v :: rest') as rest1) =>
      if is_flag t then consumed_from (i + 2) rest'
      else consumed_from (i + 1) rest1
  | [t] => i + 1
  end.

Definition _consumed_length (parts : list string) : nat :=
  consumed_from 1 (tl parts).

Definition BUILTIN_NAMES : list string :=
  ["cd"; "pwd"; "echo"; "print"; "ls"; "env"; "set"; "get"; "help";
   "alias"; "unalias"; "aliases"].

(** ** Exceptions, events and the process state *)

(** An exception: its class name and [str(e)]. *)
Inductive exn : Type := Exn (cls : string) (msg : string).

Definition exn_str (e : exn) : string := let (_, m) := e in m.

(** A call that comes back: with a value or with an exception. *)
Inductive Completion (A : Type) : Type :=
| Returns (a : A)
| Raises (e : exn).
Arguments Returns {A} a.
Arguments Raises {A} e.

(** What the rest of the machine provides: the working directory and the
    file system behind [os], the text of a file ([open(path).read()]) and
    of a URL ([urlopen(url).read(65536).decode()]), the executables
    [shutil.which] finds and the processes [subprocess] runs.
    [run_process] is [_run_stream]: it returns the exit code or the
    exception it caught. *)
Record Platform : Type := mkPlatform {
  OS : Type;
  os_getcwd : OS -> Completion string;
  os_chdir : string -> OS -> Completion unit * OS;
  os_listdir : string -> OS -> Completion (list string);
  read_text : string -> OS -> Completion string;
  url_read : string -> OS -> Completion string;
  expanduser_home : OS -> string;
  shutil_which : string -> OS -> option string;
  run_process : list string -> option nat -> OS -> (option Z * option exn) * OS
}.

(** What the process does to the outside, in order. *)
Inductive Event : Type :=
| EvPrint (s : string)                          (* print(s) *)
| EvLog (s : string)                            (* logger.log(s) *)
| EvSpawn (cmd : list string)                   (* subprocess.Popen(cmd) *)
| EvEnqueue (command : string) (args : dict string)  (* master.add_task *)
| EvResultGet (timeout : option nat)            (* master.result_queue.get *)
| EvTaskDone                                    (* task_queue.task_done() *)
| EvResultPut (worker_id : nat) (result : string). (* result_queue.put *)

(** The outcome of running a piece of the program: it returns, it raises,
    or it waits for ever on an empty channel. *)
Inductive Outcome (A : Type) : Type :=
| Ret (a : A)
| Raise (e : exn)
| Blocked.
Arguments Ret {A} a.
Arguments Raise {A} e.
Arguments Blocked {A}.

Section Shell.

Context (P : Platform).

(** The state of the process seen from one thread.  [result_feed] is what
    the successive reads of the result channel find: a result, or nothing
    within the waiting time. *)
Record World : Type := mkWorld {
  environ : dict string;                 (* os.environ *)
  ALIASES : dict string;                 (* dispatch.ALIASES *)
  DEBUG_SUPPRESSED : bool;               (* logger._DEBUG_SUPPRESSED *)
  os : OS P;
  result_feed : list (option (nat * string));
  out : list Event
}.

Definition with_environ (e : dict string) (w : World) : World :=
  mkWorld e (ALIASES w) (DEBUG_SUPPRESSED w) (os w) (result_feed w) (out w).
Definition with_ALIASES (a : dict string) (w : World) : World :=
  mkWorld (environ w) a (DEBUG_SUPPRESSED w) (os w) (result_feed w) (out w).
Definition with_DEBUG_SUPPRESSED (b : bool) (w : World) : World :=
  mkWorld (environ w) (ALIASES w) b (os w) (result_feed w) (out w).
Definition with_os (o : OS P) (w : World) : World :=
  mkWorld (environ w) (ALIASES w) (DEBUG_SUPPRESSED w) o (result_feed w) (out w).
Definition with_result_feed (f : list (option (nat * string))) (w : World) : World :=
  mkWorld (environ w) (ALIASES w) (DEBUG_SUPPRESSED w) (os w) f (out w).
Definition with_out (o : list Event) (w : World) : World :=
  mkWorld (environ w) (ALIASES w) (DEBUG_SUPPRESSED w) (os w) (result_feed w) o.

Definition M (A : Type) : Type := World -> Outcome A * World.

Definition ret {A : Type} (a : A) : M A := fun w => (Ret a, w).

Definition bind {A B : Type} (m : M A) (k : A -> M B) : M B :=
  fun w =>
    match m w with
    | (Ret a, w') => k a w'
    | (Raise e, w') => (Raise e, w')
    | (Blocked, w') => (Blocked, w')
    end.

Definition raise {A : Type} (e : exn) : M A := fun w => (Raise e, w).

(** [try: m  except Exception as e: handler(e)] *)
Definition try_except {A : Type} (m : M A) (handler : exn -> M A) : M A :=
  fun w =>
    match m w with
    | (Raise e, w') => handler e w'
    | r => r
    end.

Definition gets {A : Type} (f : World -> A) : M A := fun w => (Ret (f w), w).
Definition modify (f : World -> World) : M unit := fun w => (Ret tt, f w).
Definition emit (e : Event) : M unit :=
  modify (fun w => with_out (out w ++ [e]) w).

Definition of_completion {A : Type} (c : Completion A) : M A :=
  match c with
  | Returns a => ret a
  | Raises e => raise e
  end.

(** A command of the registry: the function and its docstring.  The
    function returns a text or raises; it works on the environment
    variables and on the machine, and has no handle on the queues or on
    the tables of [dispatch]. *)
Record Command : Type := mkCommand {
  call : dict string -> dict string -> OS P
         -> Completion string * (dict string * OS P);
  doc : option string
}.

Definition invoke (c : Command) (args : dict string) : M string :=
  fun w =>
    let '(r, (env', os')) := call c args (environ w) (os w) in
    of_completion r (with_os os' (with_environ env' w)).

End Shell.

Arguments ret {P A} a.
Arguments bind {P A B} m k.
Arguments raise {P A} e.
Arguments try_except {P A} m handler.
Arguments gets {P A} f.
Arguments modify {P} f.
Arguments emit {P} e.
Arguments of_completion {P A} c.
Arguments invoke {P} c args.
Arguments environ {P} w.
Arguments ALIASES {P} w.
Arguments DEBUG_SUPPRESSED {P} w.
Arguments os {P} w.
Arguments result_feed {P} w.
Arguments out {P} w.
Arguments with_environ {P} e w.
Arguments with_ALIASES {P} a w.
Arguments with_DEBUG_SUPPRESSED {P} b w.
Arguments with_os {P} o w.
Arguments with_result_feed {P} f w.
Arguments with_out {P} o w.
Arguments call {P} c args env o.
Arguments doc {P} c.

Declare Scope shell_scope.
Delimit Scope shell_scope with shell.
Notation "x <- m ;; k" := (bind m (fun x => k))
  (at level 61, m at next level, right associativity) : shell_scope.
Notation "' pat <- m ;; k" := (bind m (fun x => match x with pat => k end))
  (at level 61, pat pattern, m at next level, right associativity) : shell_scope.
Notation "m ;;; k" := (bind m (fun _ => k))
  (at level 61, right associativity) : shell_scope.
Open Scope shell_scope.

(** ** [sorted] on strings *)

Fixpoint insert_sorted (x : string) (l : list string) : list string :=
  match l with
  | [] => [x]
  | y :: r => if PyStr.leb x y then x :: l else y :: insert_sorted x r
  end.

Definition sorted (l : list string) : list string :=
  fold_right insert_sorted [] l.

(** ** [modules/logger.py], [modules/colors.py], [modules/shell_executor.py] *)

Section Services.

Context {P : Platform}.

Definition logger_log (msg : string) : M P unit := emit (EvLog msg).
Definition print (s : string) : M P unit := emit (EvPrint s).

Definition is_debug_suppressed : M P bool := gets DEBUG_SUPPRESSED.
Definition set_debug_suppressed (v : bool) : M P unit :=
  modify (with_DEBUG_SUPPRESSED v).

(** [for x in l: f(x)] *)
Fixpoint for_each {A : Type} (l : list A) (f : A -> M P unit) : M P unit :=
  match l with
  | [] => ret tt
  | x :: r => f x ;;; for_each r f
  end.

(** [[f(x) for x in l]] *)
Fixpoint map_m {A B : Type} (f : A -> M P B) (l : list A) : M P (list B) :=
  match l with
  | [] => ret []
  | x :: r => y <- f x ;; ys <- map_m f r ;; ret (y :: ys)
  end.

Definition index_error {A : Type} : M P A :=
  raise (Exn "IndexError" "list index out of range").

(** [l[i]] for [i >= 0] *)
Definition py_index {A : Type} (l : list A) (i : nat) : M P A :=
  match nth_error l i with
  | Some a => ret a
  | None => index_error
  end.

(** [l[-1]] *)
Definition py_last {A : Type} (l : list A) : M P A :=
  match l with
  | [] => index_error
  | _ => py_index l (length l - 1)
  end.

(** [str(x)] where [x] is a text or [None]. *)
Definition py_str (x : option string) : string :=
  match x with Some s => s | None => "None" end.

Definition ESC : string := String "027"%char EmptyString.
Definition RESET : string := ESC ++ "[0m".
Definition YELLOW : string := ESC ++ "[33m".
Definition GREY : string := ESC ++ "[90m".
Definition LIGHT_GREEN : string := ESC ++ "[92m".

Definition SPECIAL_CMD_SET : list string := ["!pwsh"; "!cmd"; "!multithread"; "!mt"].
Definition EXIT_SET : list string := ["exit"; "quit"].

Definition color_token (token : string) : string :=
  if str_in token SPECIAL_CMD_SET then YELLOW ++ token ++ RESET
  else if str_in token EXIT_SET then LIGHT_GREEN ++ token ++ RESET
  else if PyStr.startswith "--" token then GREY ++ token ++ RESET
  else token.

Definition colorize (cmd_line : string) : string :=
  match tokens cmd_line with
  | [] => EmptyString
  | parts => PyStr.join " " (map color_token parts)
  end.

(** The names bound in the module [shell_executor]: its imports and its
    functions. *)
Definition shell_executor_names : list string :=
  ["subprocess"; "threading"; "shutil"; "shlex"; "sys";
   "_reader_thread"; "_run_stream"; "run_pwsh_stream"; "run_cmd_stream"].

(** Looking a name up in a module: [AttributeError] when it is not bound. *)
Definition module_getattr (module : string) (names : list string)
    (attr : string) : M P unit :=
  if str_in attr names then ret tt
  else raise (Exn "AttributeError"
                  ("module '" ++ module ++ "' has no attribute '" ++ attr ++ "'")).

Definition _run_stream (cmd_list : list string) (timeout : option nat)
  : M P (option Z * option exn) :=
  emit (EvSpawn cmd_list) ;;;
  fun w => let (r, o) := run_process P cmd_list timeout (os w) in
           (Ret r, with_os o w).

Definition run_pwsh_stream (cmd_str : string) : M P (option Z * option exn) :=
  o <- gets os ;;
  let exe :=
    match shutil_which P "pwsh" o with
    | Some e => if PyStr.is_empty e then shutil_which P "powershell" o else Some e
    | None => shutil_which P "powershell" o
    end in
  match exe with
  | None => ret (None, Some (Exn "RuntimeError" "pwsh/powershell not found"))
  | Some e =>
      if PyStr.is_empty e
      then ret (None, Some (Exn "RuntimeError" "pwsh/powershell not found"))
      else _run_stream [e; "-NoProfile"; "-Command"; cmd_str] (Some 300)
  end.

Definition run_cmd_stream (cmd_str : string) : M P (option Z * option exn) :=
  let parts :=
    match Shlex.split cmd_str with
    | Shlex.Tokens l => l
    | Shlex.LexError _ => [cmd_str]
    end in
  _run_stream parts None.

(** ** Output helpers of [dispatch] *)

Definition _dbg (msg : string) : M P unit :=
  suppressed <- is_debug_suppressed ;;
  if suppressed then ret tt else logger_log msg.

Definition _print_with_label (text : option string) (label : string)
    (result_tag : bool) : M P unit :=
  let prefix := "[Worker " ++ label ++ "]" in
  match text with
  | None => ret tt
  | Some s =>
      suppressed <- is_debug_suppressed ;;
      if suppressed then print s
      else if result_tag then
        logger_log (prefix ++ " Ergebnis:") ;;; logger_log s
      else
        for_each (PyStr.splitlines s) (fun line => logger_log (prefix ++ " " ++ line))
  end.

End Services.

(** ** Built-ins ([_run_builtin]) *)

Definition BUILTIN_DOCS : dict string :=
  [("help", "help [command] - Show available commands or details for a command.");
   ("alias", "alias name='expansion' - Define a session alias.");
   ("unalias", "unalias name - Remove an alias.");
   ("aliases", "aliases - List currently defined aliases.");
   ("cd", "cd <path> - Change directory (supports --mkdir/--create/--p).");
   ("pwd", "pwd - Print current directory.");
   ("echo", "echo <text> - Print text (expands $env:VAR).");
   ("print", "print <text> - Same as echo.");
   ("ls", "ls [path] - List directory.");
   ("env", "env - List environment variables.");
   ("set", "set VAR=VALUE - Set environment variable.");
   ("get", "get VAR - Get environment variable.");
   ("lupdate", "lupdate - Update the shell")].

Definition LF : string := String "010"%char EmptyString.

(** [s[1:-1]] for a text of at least two characters. *)
Fixpoint drop_last (s : string) : string :=
  match s with
  | EmptyString => EmptyString
  | String c EmptyString => EmptyString
  | String c r => String c (drop_last r)
  end.
Definition inner (s : string) : string := drop_last (PyStr.drop 1 s).

Fixpoint last_char (s : string) : option ascii :=
  match s with
  | EmptyString => None
  | String c EmptyString => Some c
  | String _ r => last_char r
  end.
Definition first_char (s : string) : option ascii :=
  match s with EmptyString => None | String c _ => Some c end.

Definition is_quote_char (c : ascii) : bool := PyStr.char_in (DQ ++ "'") c.

(** The text has at least two characters and its first and last characters
    are the same quote character. *)
Definition wrapped_in_quotes (value : string) : bool :=
  Nat.leb 2 (String.length value) &&
  match first_char value, last_char value with
  | Some a, Some b => Ascii.eqb a b && is_quote_char a
  | _, _ => false
  end.

Section Builtins.

Context {P : Platform}.
Variable COMMANDS : dict (Command P).

(** [os.environ[name] = value] *)
Definition environ_setitem (name value : string) : M P unit :=
  let NUL := String "000"%char EmptyString in
  if PyStr.contains NUL name || PyStr.contains NUL value
  then raise (Exn "ValueError" "embedded null byte")
  else if PyStr.is_empty name || PyStr.contains "=" name
  then raise (Exn "ValueError" "illegal environment variable name")
  else modify (fun w => with_environ (dict_set (environ w) name value) w).

Definition strip_var_prefix (name : string) : string :=
  let name := if PyStr.startswith "$env:" name then PyStr.drop 5 name else name in
  if PyStr.startswith "$" name then PyStr.drop 1 name else name.

Definition handled (text : string) : M P (bool * option string) :=
  ret (true, Some text).

Definition builtin_help (args : dict string) : M P (bool * option string) :=
  let topic := PyStr.strip (get_str args "str") in
  if PyStr.is_empty topic then
    cmd_lines <-
      map_m (fun name =>
               summary <-
                 match dict_get COMMANDS name with
                 | Some func =>
                     match doc func with
                     | Some d =>
                         if PyStr.is_empty d then ret EmptyString
                         else py_index (PyStr.splitlines (PyStr.strip d)) 0
                     | None => ret EmptyString
                     end
                 | None => ret EmptyString
                 end ;;
               ret (PyStr.ljust 15 name ++ " - " ++ summary))
            (sorted (map fst COMMANDS)) ;;
    let builtin_lines :=
      map (fun bname => PyStr.ljust 15 bname ++ " - " ++ get_str BUILTIN_DOCS bname)
          (sorted (map fst BUILTIN_DOCS)) in
    handled (PyStr.join LF (cmd_lines ++ [LF ++ "Builtins:"] ++ builtin_lines))
  else
    match dict_get COMMANDS topic with
    | Some func =>
        handled (topic ++ LF ++ match doc func with Some d => d | None => EmptyString end)
    | None =>
        match dict_get BUILTIN_DOCS topic with
        | Some d => handled (topic ++ LF ++ d)
        | None => handled ("No such command: " ++ topic)
        end
    end.

Definition builtin_alias (args : dict string) : M P (bool * option string) :=
  let raw := str_or (get_str args "str") EmptyString in
  if PyStr.is_empty raw then handled "usage: alias name='expansion'"
  else
    try_except
      ('(name, rest) <-
         match PyStr.split_once "=" raw with
         | Some (name, rest) =>      (* "=" in raw *)
             ret (PyStr.strip name,
                  PyStr.strip_by is_quote_char (PyStr.strip rest))
         | None =>
             match Shlex.split raw with
             | Shlex.LexError m => raise (Exn "ValueError" m)
             | Shlex.Tokens parts =>
                 name <- py_index parts 0 ;;
                 ret (name,
                      if Nat.ltb 1 (length parts) then PyStr.join " " (tl parts)
                      else EmptyString)
             end
         end ;;
       if PyStr.is_empty name || PyStr.is_empty rest then handled "invalid alias"
       else
         modify (fun w => with_ALIASES (dict_set (ALIASES w) name rest) w) ;;;
         handled EmptyString)
      (fun e => handled ("alias failed: " ++ exn_str e)).

Definition builtin_unalias (args : dict string) : M P (bool * option string) :=
  let name := PyStr.strip (str_or (get_str args "str") EmptyString) in
  if PyStr.is_empty name then handled "usage: unalias name"
  else
    modify (fun w => with_ALIASES (dict_pop (ALIASES w) name) w) ;;;
    handled EmptyString.

Definition builtin_aliases : M P (bool * option string) :=
  aliases <- gets ALIASES ;;
  match aliases with
  | [] => handled "no aliases"
  | _ => handled (PyStr.join LF (map (fun kv => fst kv ++ " -> " ++ snd kv) aliases))
  end.

Definition builtin_cd (args : dict string) : M P (bool * option string) :=
  o <- gets os ;;
  let path := str_or (get_str args "str") (get_str args "path") in
  let path := if PyStr.is_empty path then expanduser_home P o else path in
  try_except
    (env <- gets environ ;;
     (fun w => let (r, o') := os_chdir P (_expand_env_in_str env path) (os w) in
               of_completion r (with_os o' w)) ;;;
     o' <- gets os ;;
     cwd <- of_completion (os_getcwd P o') ;;
     handled cwd)
    (fun e => handled ("cd failed: " ++ exn_str e)).

Definition builtin_pwd : M P (bool * option string) :=
  try_except
    (o <- gets os ;;
     cwd <- of_completion (os_getcwd P o) ;;
     handled cwd)
    (fun e => handled ("pwd failed: " ++ exn_str e)).

Definition builtin_echo (args : dict string) : M P (bool * option string) :=
  let text := get_str args "str" in
  env <- gets environ ;;
  handled (_expand_env_in_str env text).

Definition builtin_ls (args : dict string) : M P (bool * option string) :=
  let path :=
    str_or (get_str args "str")
           (match dict_get args "path" with Some p => p | None => "." end) in
  try_except
    (env <- gets environ ;;
     o <- gets os ;;
     entries <- of_completion (os_listdir P (_expand_env_in_str env path) o) ;;
     handled (PyStr.join LF (sorted entries)))
    (fun e => handled ("ls failed: " ++ exn_str e)).

Definition builtin_env : M P (bool * option string) :=
  env <- gets environ ;;
  handled (PyStr.join LF (map (fun kv => fst kv ++ "=" ++ snd kv) env)).

Definition builtin_set (args : dict string) : M P (bool * option string) :=
  let raw := PyStr.strip (str_or (get_str args "str") EmptyString) in
  if PyStr.is_empty raw then handled "usage: set VAR=VALUE"
  else
    let assignment :=
      match PyStr.split_once "=" raw with
      | Some (lhs, rhs) =>           (* "=" in raw *)
          Some (PyStr.strip lhs, PyStr.strip rhs)
      | None =>
          let parts := tokens raw in
          if Nat.ltb (length parts) 2 then None
          else Some (hd EmptyString parts, PyStr.join " " (tl parts))
      end in
    match assignment with
    | None => handled "usage: set VAR=VALUE"
    | Some (name, value) =>
        let name := strip_var_prefix name in
        let value := if wrapped_in_quotes value then inner value else value in
        try_except
          (environ_setitem name value ;;; handled EmptyString)
          (fun e => handled ("set failed: " ++ exn_str e))
    end.

Definition builtin_get (args : dict string) : M P (bool * option string) :=
  let k := get_str args "str" in
  if PyStr.is_empty k then handled EmptyString
  else
    env <- gets environ ;;
    handled (get_str env (strip_var_prefix k)).

Definition _run_builtin (command : string) (args : dict string)
  : M P (bool * option string) :=
  if String.eqb command "help" then builtin_help args
  else if String.eqb command "alias" then builtin_alias args
  else if String.eqb command "unalias" then builtin_unalias args
  else if String.eqb command "aliases" then builtin_aliases
  else if String.eqb command "cd" then builtin_cd args
  else if String.eqb command "pwd" then builtin_pwd
  else if str_in command ["echo"; "print"] then builtin_echo args
  else if String.eqb command "ls" then builtin_ls args
  else if String.eqb command "env" then builtin_env
  else if String.eqb command "set" then builtin_set args
  else if String.eqb command "get" then builtin_get args
  else ret (false, None).

End Builtins.

(** ** Alias expansion ([_expand_aliases_line]) *)

(** One turn of the loop body: [None] is [break]. *)
Definition alias_step (aliases : dict string) (new_line : string) : option string :=
  match tokens new_line with
  | [] => None
  | first :: remainder =>
      match dict_get aliases first with
      | Some expansion =>
          match remainder with
          | [] => Some expansion
          | _ => Some (expansion ++ " " ++ PyStr.join " " remainder)
          end
      | None => None
      end
  end.

(** [while depth < max_depth], with [n = max_depth - depth] turns left. *)
Fixpoint alias_loop (aliases : dict string) (n : nat) (new_line : string) : string :=
  match n with
  | O => new_line
  | S k =>
      match alias_step aliases new_line with
      | Some l => alias_loop aliases k l
      | None => new_line
      end
  end.

Definition max_depth : nat := 5.

Definition _expand_aliases_line (aliases : dict string) (line : string) : string :=
  if PyStr.is_empty line || PyStr.is_empty (PyStr.strip line) then line
  else alias_loop aliases max_depth line.

(** The value of [depth] when the loop of [_expand_aliases_line] ends. *)
Fixpoint alias_loop_depth (aliases : dict string) (n : nat) (new_line : string) : nat :=
  match n with
  | O => O
  | S k =>
      match alias_step aliases new_line with
      | Some l => S (alias_loop_depth aliases k l)
      | None => O
      end
  end.

Definition alias_depth (aliases : dict string) (line : string) : nat :=
  if PyStr.is_empty line || PyStr.is_empty (PyStr.strip line) then 0
  else alias_loop_depth aliases max_depth line.

(** ** Chain resolution *)

(** [takewhile]: the run of tokens at the head of [l] that satisfy [known]. *)
Fixpoint take_chain (known : string -> bool) (l : list string) : list string :=
  match l with
  | [] => []
  | t :: r => if known t then t :: take_chain known r else []
  end.

(** The scan [for p_idx in range(len(positional))]: the first position that
    starts a run, and the run. *)
Fixpoint find_chain (known : string -> bool) (p_idx : nat) (l : list string)
  : option (nat * list string) :=
  match l with
  | [] => None
  | t :: r =>
      if known t then
        match take_chain known l with
        | [] => find_chain known (S p_idx) r
        | tmp_chain => Some (p_idx, tmp_chain)
        end
      else find_chain known (S p_idx) r
  end.

(** [for idx in range(start, len(parts)): if parts[idx] == x: ... break];
    [i] is the index of the head of [l]. *)
Fixpoint index_from (x : string) (i : nat) (l : list string) (start : nat)
  : option nat :=
  match l with
  | [] => None
  | t :: r =>
      if Nat.leb start i && String.eqb t x then Some i
      else index_from x (S i) r start
  end.

Definition str_of_Z (z : Z) : string := NilEmpty.string_of_int (Z.to_int z).

Section Dispatch.

Context {P : Platform}.
Variable COMMANDS : dict (Command P).

Definition recognized (original_text : option string) (t : string) : bool :=
  (dict_has COMMANDS t || str_in t BUILTIN_NAMES)
  && negb (_was_quoted t original_text).

(** Running one element of a chain.  [None] stands for the early
    [return False, None]; otherwise the value the element produced. *)
Definition run_chain_element (name : string) (args : dict string)
  : M P (option (option string)) :=
  if str_in name BUILTIN_NAMES then
    '(handled, out) <- _run_builtin COMMANDS name args ;;
    if negb handled then ret None else ret (Some out)
  else
    match dict_get COMMANDS name with
    | None => ret None
    | Some func => v <- invoke func args ;; ret (Some (Some v))
    end.

(** [for cmd_name in reversed(chain[:-1])], each turn in its own [try]. *)
Fixpoint apply_chain (names : list string) (value : option string)
  : M P (option (option string)) :=
  match names with
  | [] => ret (Some value)
  | cmd_name :: rest =>
      r <- try_except
             (run_chain_element cmd_name [("str", py_str value)])
             (fun _ => ret None) ;;
      match r with
      | None => ret None
      | Some value' => apply_chain rest value'
      end
  end.

Definition not_applicable : M P (bool * option string) := ret (false, None).

Definition _evaluate_composed_chain_if_any (command : string)
    (parts : list string) (original_text : option string)
  : M P (bool * option string) :=
  let positional := _extract_positional parts in
  match positional with
  | [] => not_applicable
  | _ =>
  let pos_indices := pos_indices_from 1 (tl parts) in
  match pos_indices with
  | [] => not_applicable
  | _ =>
  match find_chain (recognized original_text) 0 positional with
  | None => not_applicable
  | Some (found_pos_idx, chain) =>
      innermost <- py_last chain ;;
      first_pos <- py_index pos_indices found_pos_idx ;;
      let start_idx := index_from innermost 0 parts first_pos in
      let parts_for_inner :=
        match start_idx with
        | None => innermost :: skipn (found_pos_idx + length chain) positional
        | Some i => skipn i parts
        end in
      r <- try_except
             (inn_cmd <- py_index parts_for_inner 0 ;;
              run_chain_element inn_cmd (_build_args_from_parts parts_for_inner))
             (fun _ => ret None) ;;
      match r with
      | None => not_applicable
      | Some value =>
      r <- apply_chain (List.rev (removelast chain)) value ;;
      match r with
      | None => not_applicable
      | Some value =>
          start_pos <- py_index pos_indices found_pos_idx ;;
          let consumed := _consumed_length parts_for_inner in
          let end_idx :=
            match start_idx with
            | Some s => s + consumed - 1
            | None => start_pos + consumed - 1
            end in
          last_chain_pos_in_parts <-
            (if Nat.ltb (found_pos_idx + length chain - 1) (length pos_indices)
             then py_index pos_indices (found_pos_idx + length chain - 1)
             else ret start_pos) ;;
          let end_pos := Nat.max end_idx last_chain_pos_in_parts in
          let new_parts :=
            (firstn start_pos parts ++ [py_str value] ++ skipn (end_pos + 1) parts)%list in
          try_except
            (let outer_args := _build_args_from_parts new_parts in
             if str_in command BUILTIN_NAMES then
               '(handled, out) <- _run_builtin COMMANDS command outer_args ;;
               if negb handled then not_applicable
               else ret (true, Some (py_str out))
             else
               match dict_get COMMANDS command with
               | None => not_applicable
               | Some outer_func =>
                   final <- invoke outer_func outer_args ;;
                   ret (true, Some final)
               end)
            (fun _ => not_applicable)
      end
      end
  end
  end
  end.

Definition _evaluate_inner_chain_if_any (parts : list string)
    (original_text : option string) : M P (bool * option string) :=
  let positional := _extract_positional parts in
  match positional with
  | [] => not_applicable
  | _ =>
  let chain := take_chain (recognized original_text) positional in
  let idx := length chain in
  match chain with
  | [] => not_applicable
  | _ =>
      innermost <- py_last chain ;;
      let start_idx := index_from innermost 0 parts 1 in
      let parts_for_inner :=
        match start_idx with
        | None => innermost :: skipn idx positional
        | Some i => skipn i parts
        end in
      r <- try_except
             (inn_cmd <- py_index parts_for_inner 0 ;;
              run_chain_element inn_cmd (_build_args_from_parts parts_for_inner))
             (fun _ => ret None) ;;
      match r with
      | None => not_applicable
      | Some value =>
      r <- apply_chain (List.rev (removelast chain)) value ;;
      match r with
      | None => not_applicable
      | Some value => ret (true, Some (py_str value))
      end
      end
  end
  end.

(** ** The queues of [Master] *)

Definition add_task (command : string) (args : dict string) : M P unit :=
  emit (EvEnqueue command args).

(** [result_queue.get()] and [result_queue.get(timeout=t)]: with a waiting
    time the read raises [queue.Empty] when nothing arrives in time,
    without one it waits. *)
Definition result_queue_get (timeout : option nat) : M P (nat * string) :=
  emit (EvResultGet timeout) ;;;
  fun w =>
    match result_feed w with
    | Some r :: rest => (Ret r, with_result_feed rest w)
    | arrivals =>
        (match timeout with
         | Some _ => Raise (Exn "Empty" EmptyString)
         | None => Blocked
         end, with_result_feed (tl arrivals) w)
    end.

Definition is_class (cls : string) (e : exn) : bool :=
  let (c, _) := e in String.eqb c cls.

(** ** [handle_input] *)

Definition shell_result_text (rc : option Z) : string :=
  match rc with Some z => str_of_Z z | None => "None" end.

(** [try: _dbg(f"Enqueue: {colorize(text)}")
     except Exception: _dbg(f"Enqueue: {text}")] *)
Definition dbg_enqueue (text : string) : M P unit :=
  try_except (_dbg ("Enqueue: " ++ colorize text))
             (fun _ => _dbg ("Enqueue: " ++ text)).

(** The last block of the single-command path: one read of the result
    channel without a waiting time, the result shown; any exception is
    reported. *)
Definition await_result : M P unit :=
  try_except
    ('(worker_id, result) <-
       try_except (result_queue_get None)
                  (fun e => if is_class "TypeError" e
                            then result_queue_get (Some 5) else raise e) ;;
     suppressed <- is_debug_suppressed ;;
     if suppressed then print result
     else
       logger_log ("[Worker " ++ PyStr.of_nat worker_id ++ "] Ergebnis:") ;;;
       logger_log result)
    (fun e =>
       logger_log ("Keine Antwort vom Worker erhalten (Timeout). Fehler: "
                   ++ exn_str e)).

(** One subcommand of a batch line; the result is the new [task_count]. *)
Definition batch_subcommand (global_shell : option string) (task_count : nat)
    (sub : string) : M P nat :=
  let sub_parts := tokens sub in
  match sub_parts with
  | [] => ret task_count
  | first :: _ =>
      let '(shell_mode, cmd_parts_start) :=
        match global_shell with
        | Some g => (Some g, 0)
        | None =>
            if str_in first ["!pwsh"; "!cmd"] then (Some first, 1) else (None, 0)
        end in
      match shell_mode with
      | Some mode =>
          let cmd_str := PyStr.strip (PyStr.join " " (skipn cmd_parts_start sub_parts)) in
          if PyStr.is_empty cmd_str then
            _print_with_label (Some ("Keine " ++ mode ++ " Anweisung angegeben."))
                              "shell" false ;;;
            ret task_count
          else
            '(rc, err) <- (if String.eqb mode "!pwsh" then run_pwsh_stream cmd_str
                           else run_cmd_stream cmd_str) ;;
            match err with
            | Some e => _print_with_label (Some ("shell failed: " ++ exn_str e))
                                          "shell" false
            | None => _dbg (mode ++ " exited: " ++ shell_result_text rc)
            end ;;;
            ret task_count
      | None =>
          '(composed_inner_ok, inner_value) <-
            _evaluate_inner_chain_if_any sub_parts (Some sub) ;;
          if composed_inner_ok then
            let outer_cmd := first in
            let inner_value := py_str inner_value in
            let args_to_enqueue := [("str", inner_value)] in
            dbg_enqueue (outer_cmd ++ " " ++ inner_value) ;;;
            add_task outer_cmd args_to_enqueue ;;;
            ret (task_count + 1)
          else
            let args := _build_args_from_parts sub_parts in
            '(handled, out) <- _run_builtin COMMANDS first args ;;
            if handled then
              match out with
              | Some o =>
                  if PyStr.is_empty o then ret tt
                  else _print_with_label (Some o) "sync" false
              | None => ret tt
              end ;;;
              ret task_count
            else
              env <- gets environ ;;
              let args_expanded := _expand_env_in_args env args in
              dbg_enqueue sub ;;;
              add_task first args_expanded ;;;
              ret (task_count + 1)
      end
  end.

(** [for sub in subcmds] *)
Fixpoint batch_loop (global_shell : option string) (subcmds : list string)
    (task_count : nat) : M P nat :=
  match subcmds with
  | [] => ret task_count
  | sub :: rest =>
      n <- batch_subcommand global_shell task_count sub ;;
      batch_loop global_shell rest n
  end.

(** [for _ in range(task_count)] *)
Fixpoint gather_results (n : nat) : M P unit :=
  match n with
  | O => ret tt
  | S k =>
      try_except
        ('(worker_id, result) <- result_queue_get (Some 10) ;;
         _print_with_label (Some result) (PyStr.of_nat worker_id) true)
        (fun e =>
           if is_class "Empty" e
           then _dbg "Keine Antwort vom Worker erhalten (Timeout)."
           else raise e) ;;;
      gather_results k
  end.

Definition batch_mode (command command_line : string) : M P unit :=
  let remainder := PyStr.strip (PyStr.drop (String.length command) command_line) in
  if PyStr.is_empty remainder then _dbg "Keine Unterbefehle angegeben."
  else
    let '(global_shell, remainder_after_shell) :=
      match tokens remainder with
      | t :: _ =>
          if str_in t ["!pwsh"; "!cmd"]
          then (Some t, PyStr.strip (PyStr.drop (String.length t) remainder))
          else (None, remainder)
      | [] => (None, remainder)
      end in
    let subcmds :=
      map PyStr.strip
          (filter (fun s => negb (PyStr.is_empty (PyStr.strip s)))
                  (PyStr.split_char "&" remainder_after_shell)) in
    match subcmds with
    | [] => _dbg "Keine Unterbefehle angegeben."
    | _ =>
        task_count <- batch_loop global_shell subcmds 0 ;;
        _dbg ("Added " ++ PyStr.of_nat task_count ++ " tasks (multithread)") ;;;
        gather_results task_count
    end.

Definition single_command (command command_line : string)
    (parts_all : list string) : M P unit :=
  let args := _build_args_from_parts parts_all in
  '(handled, out) <- _run_builtin COMMANDS command args ;;
  if handled then
    match out with
    | Some o =>
        if PyStr.is_empty o then ret tt
        else _print_with_label (Some o) "sync" false
    | None => ret tt
    end
  else
    env <- gets environ ;;
    let args_expanded := _expand_env_in_args env args in
    dbg_enqueue command_line ;;;
    add_task command args_expanded ;;;
    await_result.

(** The end of [handle_input], for a line that is neither a debug toggle
    nor a shell escape nor a batch line: chain resolution, then the
    single-command path. *)
Definition ordinary_dispatch (command command_line : string)
    (parts_all : list string) : M P unit :=
  '(composed_ok, composed_result) <-
    _evaluate_composed_chain_if_any command parts_all (Some command_line) ;;
  if composed_ok then _print_with_label composed_result "sync" true
  else single_command command command_line parts_all.

(** The debug notice of an alias expansion. *)
Definition alias_notice (command_line expanded_line : string) : M P unit :=
  if negb (String.eqb expanded_line command_line)
  then _dbg ("Alias expanded: " ++ command_line ++ " -> " ++ expanded_line)
  else ret tt.

(** [handle_input] from the debug toggles on; [command_line] is the line
    after alias expansion. *)
Definition dispatch_line (command_line : string) : M P unit :=
  let cl := PyStr.lower (PyStr.strip command_line) in
  if str_in cl ["!suppressdebug"; "!suppress-debug"] then
    print "Debug suppressed for this session." ;;;
    set_debug_suppressed true
  else if str_in cl ["!resumedebug"; "!enabledebug"; "!unsuppressdebug"] then
    set_debug_suppressed false ;;;
    print "Debug resumed for this session."
  else
    let parts_all := tokens command_line in
    match parts_all with
    | [] => ret tt
    | command :: _ =>
        if String.eqb command "!pwsh" then
          let raw := PyStr.strip (PyStr.drop (String.length command) command_line) in
          if PyStr.is_empty raw then _dbg "Keine pwsh Anweisung angegeben."
          else
            '(rc, err) <- run_pwsh_stream raw ;;
            match err with
            | Some e => _print_with_label (Some ("pwsh failed: " ++ exn_str e))
                                          "shell" false
            | None => _dbg ("pwsh exited: " ++ shell_result_text rc)
            end
        else if String.eqb command "!cmd" then
          let cmd_str := PyStr.strip (PyStr.drop (String.length command) command_line) in
          if PyStr.is_empty cmd_str then
            _print_with_label (Some "Keine cmd-Anweisung angegeben.") "shell" false
          else
            (* stdout, stderr, err = shell_executor.run_cmd(cmd_str): the
               name is looked up first; the module binds no function for
               the call and the output step that would follow. *)
            module_getattr "modules.shell_executor" shell_executor_names "run_cmd"
        else if str_in command ["!multithread"; "!mt"] then
          batch_mode command command_line
        else ordinary_dispatch command command_line parts_all
    end.

Definition handle_input (command_line : string) : M P unit :=
  if PyStr.is_empty command_line || PyStr.is_empty (PyStr.strip command_line)
  then ret tt
  else
    aliases <- gets ALIASES ;;
    let expanded_line := _expand_aliases_line aliases command_line in
    alias_notice command_line expanded_line ;;;
    dispatch_line expanded_line.

End Dispatch.

(** ** The commands of [modules/commands.py] that the statements use *)

Section Commands.

Context {P : Platform}.

(** [a or b] where [a] and [b] are [args.get(...)]: a text or [None]. *)
Definition get_or (args : dict string) (k1 k2 : string) : option string :=
  match dict_get args k1 with
  | Some v => if PyStr.is_empty v then dict_get args k2 else Some v
  | None => dict_get args k2
  end.

Definition truthy (x : option string) : option string :=
  match x with
  | Some v => if PyStr.is_empty v then None else Some v
  | None => None
  end.

Definition reverse (args : dict string) (env : dict string) (o : OS P)
  : Completion string * (dict string * OS P) :=
  match truthy (get_or args "file" "f") with
  | Some file_path =>
      match read_text P file_path o with
      | Returns text => (Returns (PyStr.reversed text), (env, o))
      | Raises e =>
          (Returns ("reverse failed reading file: " ++ exn_str e), (env, o))
      end
  | None =>
      match truthy (get_or args "url" "u") with
      | Some url =>
          match url_read P url o with
          | Returns text => (Returns (PyStr.reversed text), (env, o))
          | Raises e =>
              (Returns ("reverse failed fetching url: " ++ exn_str e), (env, o))
          end
      | None =>
          let text := str_or (get_str args "str") EmptyString in
          (Returns (PyStr.reversed text), (env, o))
      end
  end.

Definition upper (args : dict string) (env : dict string) (o : OS P)
  : Completion string * (dict string * OS P) :=
  let text := get_str args "str" in
  (Returns (PyStr.upper text), (env, o)).

Definition echo (args : dict string) (env : dict string) (o : OS P)
  : Completion string * (dict string * OS P) :=
  (Returns (_expand_env_in_str env (get_str args "str")), (env, o)).

Definition reverse_doc : string :=
  LF ++ "    Reverse text. Supports:" ++
  LF ++ "    - positional text: reverse Hello -> OLLEH" ++
  LF ++ "    - --file <path>: reverse contents of file" ++
  LF ++ "    - --url <url>: fetch URL (first 64KB) and reverse body text" ++
  LF ++ "    ".

Definition reverse_cmd : Command P := mkCommand P reverse (Some reverse_doc).
Definition upper_cmd : Command P := mkCommand P upper None.
Definition echo_cmd : Command P := mkCommand P echo None.

End Commands.

(** ** The worker loop ([Worker.run]) *)

Section Worker.

Context {P : Platform}.

(** What [task_queue.get()] delivers: a task, or the [None] sentinel. *)
Definition QueueItem : Type := option (string * dict string).

(** One turn of [while True] after the [get]: the [try] with its [except]
    and [finally].  [result] is the local variable of that name, unbound
    ([None]) until its first assignment and kept from one turn to the next;
    [COMMANDS] is the registry as it is when the turn looks the name up.
    The first component of the value tells whether the turn ends in
    [break]. *)
Definition worker_turn (id : nat) (COMMANDS : dict (Command P))
    (task : QueueItem) (result : option string) : M P (bool * option string) :=
  '(stop, result) <-
    match task with
    | None => ret (true, result)
    | Some (command, args) =>
        try_except
          (match dict_get COMMANDS command with
           | Some func =>
               r <- invoke func args ;;
               ret (false, Some r)
           | None =>
               suppressed <- is_debug_suppressed ;;
               (if negb suppressed
                then logger_log ("Worker " ++ PyStr.of_nat id ++ " kennt Command '"
                                 ++ command ++ "' nicht")
                else ret tt) ;;;
               ret (false, Some ("Unbekanntes Kommando: " ++ command))
           end)
          (fun e => ret (false, Some ("Fehler bei " ++ command ++ ": " ++ exn_str e)))
    end ;;
  try_except (emit EvTaskDone) (fun _ => ret tt) ;;;
  try_except
    (match result with
     | Some r => emit (EvResultPut id r)
     | None => raise (Exn "UnboundLocalError"
                          "cannot access local variable 'result' where it is not associated with a value")
     end)
    (fun _ => ret tt) ;;;
  ret (stop, result).

Inductive WorkerStatus : Type :=
| Waiting (result : option string)   (* in [task_queue.get()], queue empty *)
| Exited.                            (* left the loop *)

(** The loop over the items the queue delivers, each with the registry of
    the moment. *)
Fixpoint Worker_run (id : nat) (items : list (dict (Command P) * QueueItem))
    (result : option string) : M P WorkerStatus :=
  match items with
  | [] => ret (Waiting result)
  | (COMMANDS, task) :: rest =>
      '(stop, result') <- worker_turn id COMMANDS task result ;;
      if stop then ret Exited else Worker_run id rest result'
  end.

End Worker.

(** The results on the result channel, in the order of their [put]. *)
Fixpoint published (evs : list Event) : list (nat * string) :=
  match evs with
  | [] => []
  | EvResultPut id r :: rest => (id, r) :: published rest
  | _ :: rest => published rest
  end.

(** The tasks handed to the pool and the reads of the result channel. *)
Fixpoint enqueued (evs : list Event) : list (string * dict string) :=
  match evs with
  | [] => []
  | EvEnqueue c a :: rest => (c, a) :: enqueued rest
  | _ :: rest => enqueued rest
  end.

Fixpoint result_reads (evs : list Event) : list (option nat) :=
  match evs with
  | [] => []
  | EvResultGet t :: rest => t :: result_reads rest
  | _ :: rest => result_reads rest
  end.

Fixpoint spawned (evs : list Event) : list (list string) :=
  match evs with
  | [] => []
  | EvSpawn c :: rest => c :: spawned rest
  | _ :: rest => spawned rest
  end.

(** ** The [.le] container ([compile_latin], [load_and_run_le]) *)

Definition bytes : Type := list byte.

Definition byte_of_N (n : N) : byte :=
  match Byte.of_N n with Some b => b | None => x00 end.

(** [n.to_bytes(length, "big")] for [n >= 0]. *)
Fixpoint to_bytes_be (length : nat) (n : N) : bytes :=
  match length with
  | O => []
  | S k => (to_bytes_be k (n / 256) ++ [byte_of_N (n mod 256)])%list
  end.

Definition int_to_bytes (n : N) (length : nat) : Completion bytes :=
  if N.ltb n (256 ^ N.of_nat length) then Returns (to_bytes_be length n)
  else Raises (Exn "OverflowError" "int too big to convert").

(** [int.from_bytes(b, "big")] *)
Definition int_from_bytes (b : bytes) : N :=
  fold_left (fun acc x => (acc * 256 + Byte.to_N x)%N) b 0%N.

Definition bytes_eqb (a b : bytes) : bool :=
  if list_eq_dec Byte.byte_eq_dec a b then true else false.

Definition _LE_MAGIC : bytes := list_byte_of_string "LUWEXE1".

Section Container.

(** The machine under the reader.  [f.read(n)] makes a buffer of [n] bytes
    before it reads, whatever the file holds: [read_refused n] is the
    exception with which the machine refuses a buffer of [n] bytes
    ([MemoryError]; [OverflowError] where [n] is more than [sys.maxsize]),
    or [None] when the buffer is granted. *)
Variable read_refused : N -> option exn.

(** [f.read(n)] on a binary file read from its current position [f]: the
    bytes read (fewer than [n] at the end of the file) and the rest of the
    file, or the exception of a refused buffer.  A size of 2^63 or more fits
    no [Py_ssize_t] and is refused by the call itself; below that the
    machine decides; a granted read beyond the end of the file gives all
    that is left.  As everywhere in this development, memory for the data
    at hand is taken to be there: a read of bytes the file holds is granted,
    and so is a read of at most 8 bytes (the sizes the program writes out:
    [len(_LE_MAGIC)] and [8]).  No file holds 2^63 bytes, so the order of
    the first two tests is immaterial. *)
Definition file_read (n : N) (f : bytes) : Completion (bytes * bytes) :=
  if N.leb n (N.of_nat (length f)) then
    Returns (firstn (N.to_nat n) f, skipn (N.to_nat n) f)
  else if N.leb (2 ^ 63) n then
    Raises (Exn "OverflowError" "cannot fit 'int' into an index-sized integer")
  else if N.leb n 8 then Returns (f, [])
  else
    match read_refused n with
    | Some e => Raises e
    | None => Returns (f, [])
    end.

(** The libraries: [json.dumps(m, ensure_ascii=False).encode("utf-8")],
    [json.loads(b.decode("utf-8"))], [gzip.compress], [gzip.decompress] and
    [b.decode("utf-8", errors="replace")]; the parts of a path
    ([os.path.basename], [os.path.splitext]) and [str.lower]. *)
Variable Json : Type.
Variable Timestamp : Type.

Record Manifest : Type := mkManifest {
  m_name : string;
  m_entry : string;
  m_created : Timestamp;
  m_py_version : string;
  m_type : string
}.

Variable json_dumps_utf8 : Manifest -> bytes.
Variable json_loads_utf8 : bytes -> Completion Json.
Variable gzip_compress : bytes -> bytes.
Variable gzip_decompress : bytes -> Completion bytes.
Variable utf8_decode_replace : bytes -> string.
Variable basename : string -> string.
Variable splitext : string -> string * string.

Definition make_manifest (script_abspath : string) (now : Timestamp)
    (py_version : string) : Manifest :=
  let ext := PyStr.lower (snd (splitext script_abspath)) in
  let script_type := if String.eqb ext ".py" then "python" else "luw" in
  mkManifest (fst (splitext (basename script_abspath)))
             (basename script_abspath) now py_version script_type.

(** [compile_latin] from the point where the script has been read:
    [script_abspath] is the resolved path, [script_bytes] the content of the
    script, [now] is [time.time()] and [py_version] the version tag.  The
    value is the content written to the output file. *)
Definition compile_latin (script_abspath : string) (script_bytes : bytes)
    (now : Timestamp) (py_version : string) : Completion bytes :=
  let manifest := make_manifest script_abspath now py_version in
  let manifest_bytes := json_dumps_utf8 manifest in
  let compressed := gzip_compress script_bytes in
  match int_to_bytes (N.of_nat (length manifest_bytes)) 8 with
  | Raises e => Raises e
  | Returns len_bytes =>
      Returns (_LE_MAGIC ++ len_bytes ++ manifest_bytes ++ compressed)%list
  end.

(** The parts of a container by their places in the file: the first 7
    bytes, the number the next 8 bytes write, as many bytes as that number
    says (or what is left of the file), and the rest. *)
Definition le_magic (content : bytes) : bytes := firstn 7 content.
Definition le_manifest_len (content : bytes) : N :=
  int_from_bytes (firstn 8 (skipn 7 content)).
Definition le_manifest_bytes (content : bytes) : bytes :=
  firstn (N.to_nat (le_manifest_len content)) (skipn 8 (skipn 7 content)).
Definition le_payload (content : bytes) : bytes :=
  skipn (N.to_nat (le_manifest_len content)) (skipn 8 (skipn 7 content)).

(** The third read of the reader, [f.read(manifest_len)], on its own: the
    file stands behind the magic and the length field. *)
Definition le_manifest_read (content : bytes) : Completion (bytes * bytes) :=
  file_read (le_manifest_len content) (skipn 8 (skipn 7 content)).

(** The reading part of [load_and_run_le] (the [with open(...)] block):
    the manifest, the script bytes and the script text.  The three sized
    reads stand outside the two [try] blocks: an exception of theirs leaves
    the function as it is.  [f.read()] without a size gives the rest of the
    file. *)
Definition load_le (le_path : string) (content : bytes)
  : Completion (Json * bytes * string) :=
  match file_read (N.of_nat (length _LE_MAGIC)) content with
  | Raises e => Raises e
  | Returns (magic, f) =>
  if negb (bytes_eqb magic _LE_MAGIC) then
    Raises (Exn "ValueError" "Not a LUW binary (.le) or unsupported version")
  else
    match file_read 8 f with
    | Raises e => Raises e
    | Returns (len_bytes, f) =>
    let manifest_len := int_from_bytes len_bytes in
    match file_read manifest_len f with
    | Raises e => Raises e
    | Returns (manifest_bytes, f) =>
    match json_loads_utf8 manifest_bytes with
    | Raises e =>
        Raises (Exn "ValueError"
                    ("Invalid manifest in " ++ le_path ++ ": " ++ exn_str e))
    | Returns manifest =>
        let payload := f in
        match gzip_decompress payload with
        | Raises e =>
            Raises (Exn "ValueError"
                        ("Invalid payload (not gzip?) in " ++ le_path ++ ": "
                         ++ exn_str e))
        | Returns script_bytes =>
            let script_text := utf8_decode_replace script_bytes in
            Returns (manifest, script_bytes, script_text)
        end
    end
    end
    end
  end.

End Container.

(** The keys of [COMMANDS] as [modules/commands.py] builds it. *)
Definition COMMAND_NAMES : list string :=
  ["reverse"; "upper"; "calc"; "time"; "echo"; "ls"; "pwd"; "cd"; "whoami";
   "sysinfo"; "disk"; "rand"; "grep"; "cat"; "head"; "tail"; "cp"; "mv"; "rm";
   "mkdir"; "touch"; "stat"; "info"; "wc"; "json"; "http_get"; "http"; "b64e";
   "b64d"; "find"; "cowsay"; "os-type"; "lupdate"; "date"; "uname"; "hostname";
   "uptime"; "sleep"; "basename"; "dirname"; "which"; "true"; "false"; "yes";
   "sort"; "uniq"; "clear"; "apt"; "sudo"].

(** ** A small machine for the examples

    No PowerShell, no readable file, the home directory [/root]; the
    registry holds the three commands modelled above (the tokens of the
    example lines that are no command names there are none in
    [COMMAND_NAMES] either); the session has no alias, shows debug messages
    and has [HOME=/root] in its environment. *)

Definition example_platform : Platform :=
  mkPlatform unit
    (fun _ => Returns "/root")
    (fun _ o => (Returns tt, o))
    (fun _ _ => Returns [])
    (fun _ _ => Raises (Exn "FileNotFoundError" "No such file or directory"))
    (fun _ _ => Raises (Exn "URLError" "unknown url type"))
    (fun _ => "/root")
    (fun _ _ => None)
    (fun _ _ o => ((Some 0%Z, None), o)).

Definition example_registry : dict (Command example_platform) :=
  [("reverse", reverse_cmd); ("upper", upper_cmd); ("echo", echo_cmd)].


Definition example_world : World example_platform :=
  mkWorld example_platform [("HOME", "/root")] [] false tt [] [].

(** A machine that gives no buffer of 2^30 bytes or more. *)
Definition example_read_refused (n : N) : option exn :=
  if N.leb (2 ^ 30) n then Some (Exn "MemoryError" EmptyString) else None.

(** ** Vocabulary of the statements *)

(** Events among which no task is handed over and no result is read. *)
Definition silent (evs : list Event) : Prop :=
  enqueued evs = [] /\ result_reads evs = [].

(** What chain resolution answers: "not applicable", or "composed" with a
    text. *)
Definition chain_answer (r : bool * option string) : Prop :=
  r = (false, None) \/ exists s, r = (true, Some s).


(** The two tests of [handle_input] for the debug toggles. *)
Definition is_toggle (command_line : string) : bool :=
  let cl := PyStr.lower (PyStr.strip command_line) in
  str_in cl ["!suppressdebug"; "!suppress-debug"]
  || str_in cl ["!resumedebug"; "!enabledebug"; "!unsuppressdebug"].

(** A character that starts or continues a token for both splitters. *)
Definition plain (c : ascii) : bool :=
  negb (PyStr.isspace c) && negb (Shlex.is_whitespace c)
  && negb (Shlex.is_quote c) && negb (Shlex.is_escape c).

Section Vocabulary.

Context {P : Platform}.

(** The text a worker publishes for a task, from the registry and the
    state of the process at the time it takes the task. *)
Definition task_text (COMMANDS : dict (Command P)) (command : string)
    (args : dict string) (w : World P) : string :=
  match dict_get COMMANDS command with
  | None => "Unbekanntes Kommando: " ++ command
  | Some func =>
      match fst (call func args (environ w) (os w)) with
      | Returns r => r
      | Raises e => "Fehler bei " ++ command ++ ": " ++ exn_str e
      end
  end.

(** [quiet m]: [m] does not wait, hands no task to the pool and does not
    read the result channel. *)
Definition quiet {A : Type} (m : M P A) : Prop :=
  forall w,
    fst (m w) <> Blocked /\
    result_feed (snd (m w)) = result_feed w /\
    exists evs, out (snd (m w)) = (out w ++ evs)%list /\ silent evs.

(** [counts m n]: [m] reads no result, does not wait, and when it returns
    its value is [n] plus the number of tasks it handed to the pool. *)
Definition counts (m : M P nat) (n : nat) : Prop :=
  forall w,
    fst (m w) <> Blocked /\
    result_feed (snd (m w)) = result_feed w /\
    exists evs, out (snd (m w)) = (out w ++ evs)%list /\
                result_reads evs = [] /\
                forall n', fst (m w) = Ret n' -> n' = n + length (enqueued evs).

End Vocabulary.

(** ** More of [modules/commands.py]: [uniq] and [_wrap_text] *)

(** The loop of [uniq] with [--all]: [seen] is the set of the lines met so
    far. *)
Fixpoint uniq_all_from (seen : list string) (lines : list string) : list string :=
  match lines with
  | [] => []
  | l :: r =>
      if str_in l seen then uniq_all_from seen r
      else l :: uniq_all_from (l :: seen) r
  end.

(** The default loop of [uniq]: [prev] is [None] before the first line. *)
Fixpoint uniq_consecutive (prev : option string) (lines : list string)
  : list string :=
  match lines with
  | [] => []
  | l :: r =>
      let differs :=
        match prev with
        | Some p => negb (String.eqb l p)
        | None => true
        end in
      if differs then l :: uniq_consecutive (Some l) r
      else uniq_consecutive (Some l) r
  end.

Definition uniq_lines (all_dup : bool) (lines : list string) : list string :=
  if all_dup then uniq_all_from [] lines else uniq_consecutive None lines.

Section MoreCommands.

Context {P : Platform}.

Definition uniq (args : dict string) (env : dict string) (o : OS P)
  : Completion string * (dict string * OS P) :=
  let txt := get_str args "str" in
  let all_dup :=
    str_in (PyStr.lower (PyStr.strip (get_str args "all"))) ["1"; "true"; "yes"] in
  let lines := PyStr.splitlines txt in
  (Returns (PyStr.join LF (uniq_lines all_dup lines)), (env, o)).

End MoreCommands.

(** The loop of [_wrap_text]: [cur] is the line being filled, [lines] the
    lines finished so far. *)
Fixpoint wrap_loop (width : nat) (cur : string) (words : list string)
    (lines : list string) : list string :=
  match words with
  | [] => (lines ++ [cur])%list
  | w :: r =>
      if Nat.leb (String.length cur + 1 + String.length w) width
      then wrap_loop width (cur ++ " " ++ w) r lines
      else wrap_loop width w r (lines ++ [cur])%list
  end.

Definition _wrap_text (msg : string) (width : nat) : list string :=
  match PyStr.split_ws msg with
  | [] => [EmptyString]
  | first :: rest => wrap_loop width first rest []
  end.

(** ** The script loop of [load_and_run_le] *)

Section ScriptLoop.

Context {P : Platform}.
Variable COMMANDS : dict (Command P).

(** [not line or line.strip().startswith("#")] *)
Definition script_line_skipped (line : string) : bool :=
  PyStr.is_empty line || PyStr.startswith "#" (PyStr.strip line).

(** The body of the loop: [line = raw.rstrip("\n")], the test, the
    dispatch. *)
Definition script_step (raw : string) : M P unit :=
  let line := PyStr.rstrip_by (fun c => Ascii.eqb c "010"%char) raw in
  if script_line_skipped line then ret tt else handle_input COMMANDS line.

(** [for raw in script_text.splitlines(): ...] *)
Definition run_script_lines (script_text : string) : M P unit :=
  for_each (PyStr.splitlines script_text) script_step.

End ScriptLoop.

(** A line of a script that is empty, holds white space only or is a
    comment, once the line feeds at its end are taken off. *)
Definition inert_line (raw : string) : bool :=
  let line := PyStr.rstrip_by (fun c => Ascii.eqb c "010"%char) raw in
  PyStr.is_empty (PyStr.strip line) || PyStr.startswith "#" (PyStr.strip line).

(** ** The PowerShell escape of [handle_input] *)

(** What [handle_input] does with a line whose first token is [!pwsh]
    (five characters); [command_line] is the line after alias expansion. *)
Definition pwsh_escape {P : Platform} (command_line : string) : M P unit :=
  let raw := PyStr.strip (PyStr.drop (String.length "!pwsh") command_line) in
  if PyStr.is_empty raw then _dbg "Keine pwsh Anweisung angegeben."
  else
    '(rc, err) <- run_pwsh_stream raw ;;
    match err with
    | Some e => _print_with_label (Some ("pwsh failed: " ++ exn_str e)) "shell" false
    | None => _dbg ("pwsh exited: " ++ shell_result_text rc)
    end.

(** The shell branch of a subcommand of a batch line, before
    [continue]: [mode] is the marker, [cmd_str] the command text. *)
Definition shell_subcommand {P : Platform} (mode cmd_str : string) : M P unit :=
  if PyStr.is_empty cmd_str then
    _print_with_label (Some ("Keine " ++ mode ++ " Anweisung angegeben.")) "shell" false
  else
    '(rc, err) <- (if String.eqb mode "!pwsh" then run_pwsh_stream cmd_str
                   else run_cmd_stream cmd_str) ;;
    match err with
    | Some e => _print_with_label (Some ("shell failed: " ++ exn_str e)) "shell" false
    | None => _dbg (mode ++ " exited: " ++ shell_result_text rc)
    end.

(** ** More vocabulary *)

Fixpoint all_chars (p : ascii -> bool) (s : string) : bool :=
  match s with
  | EmptyString => true
  | String c r => p c && all_chars p r
  end.

(** A variable name: a letter or underscore, then letters, digits and
    underscores. *)
Definition is_identifier (n : string) : bool :=
  match n with
  | EmptyString => false
  | String c r => PyStr.is_name_start c && all_chars PyStr.is_word r
  end.

(** A text at which a variable name ends: the end of the text, or a
    character that is no letter, digit or underscore. *)
Definition ends_name (rest : string) : bool :=
  match rest with
  | EmptyString => true
  | String c _ => negb (PyStr.is_word c)
  end.

(** The keys of a mapping are pairwise different, as in every [dict]. *)
Definition unique_keys {V : Type} (d : dict V) : Prop := NoDup (map fst d).

Section HelpVocabulary.

Context {P : Platform}.
Variable COMMANDS : dict (Command P).

(** The command [name] has a docstring that is not empty and holds white
    space only. *)
Definition blank_doc (name : string) : bool :=
  match dict_get COMMANDS name with
  | Some func =>
      match doc func with
      | Some d => negb (PyStr.is_empty d) && PyStr.is_empty (PyStr.strip d)
      | None => false
      end
  | None => false
  end.

(** One turn of the loop of [help] over the command names: the line of
    the list for [name], as [builtin_help] computes it. *)
Definition help_line (name : string) : M P string :=
  summary <-
    match dict_get COMMANDS name with
    | Some func =>
        match doc func with
        | Some d =>
            if PyStr.is_empty d then ret EmptyString
            else py_index (PyStr.splitlines (PyStr.strip d)) 0
        | None => ret EmptyString
        end
    | None => ret EmptyString
    end ;;
  ret (PyStr.ljust 15 name ++ " - " ++ summary).

End HelpVocabulary.

(** [completes m]: [m] comes back with a value, hands no task to the pool
    and does not read the result channel. *)
Definition completes {P : Platform} {A : Type} (m : M P A) : Prop :=
  forall w, exists a w' evs,
    m w = (Ret a, w') /\ out w' = (out w ++ evs)%list /\ silent evs /\
    result_feed w' = result_feed w.

(** No two neighbours of the list are equal. *)
Fixpoint no_repeat (l : list string) : bool :=
  match l with
  | a :: ((b :: _) as r) => negb (String.eqb a b) && no_repeat r
  | _ => true
  end.

(** An event of the display: a [print] or a line of the logger. *)
Definition is_display (ev : Event) : bool :=
  match ev with
  | EvPrint _ | EvLog _ => true
  | _ => false
  end.

(** [shows m]: [m] comes back with a value and does nothing but show
    lines; the state is otherwise as before. *)
Definition shows {P : Platform} {A : Type} (m : M P A) : Prop :=
  forall w, exists a evs,
    m w = (Ret a, with_out (out w ++ evs)%list w) /\ forallb is_display evs = true.

(** [waits_once m]: when [m] waits for ever, it has handed exactly one
    task to the pool and waits in its one read of the result channel, a
    read without a waiting time. *)
Definition waits_once {P : Platform} {A : Type} (m : M P A) : Prop :=
  forall w, fst (m w) = Blocked ->
    exists evs, out (snd (m w)) = (out w ++ evs)%list /\
                length (enqueued evs) = 1 /\ result_reads evs = [None].

(** A built-in that answers: it comes back with [(True, text)]. *)
Definition answers {P : Platform} (m : M P (bool * option string)) : Prop :=
  forall w, exists t w', m w = (Ret (true, Some t), w').

(** A list of lines written as its runs of equal neighbours: each run is a
    line and the number of times it is repeated after its first
    occurrence. *)
Definition expand_runs (runs : list (string * nat)) : list string :=
  flat_map (fun run => repeat (fst run) (S (snd run))) runs.

(** ** Variable references, in the words of the specification *)

(** The current value of a variable, or the empty text when it is unset. *)
Definition value_or_empty (environ : dict string) (name : string) : string :=
  match dict_get environ name with
  | Some v => v
  | None => EmptyString
  end.

(** The text reads [env:] and then the start of a name. *)
Definition reads_env_prefix (s : string) : bool :=
  PyStr.startswith "env:" s &&
  match PyStr.drop 4 s with
  | String c _ => PyStr.is_name_start c
  | EmptyString => false
  end.

(** [reference_at s name rest]: the text [s] begins with a reference to the
    variable [name], written [$env:NAME], [${NAME}] or [$NAME], and [rest]
    is what follows the reference.  A name is a letter or an underscore
    followed by letters, digits and underscores, as many as there are;
    [$NAME] is the reading of a text only where [$env:NAME] is not. *)
Inductive reference_at : string -> string -> string -> Prop :=
| ref_env_prefixed (name rest : string) :
    is_identifier name = true -> ends_name rest = true ->
    reference_at ("$env:" ++ name ++ rest) name rest
| ref_braces (name rest : string) :
    is_identifier name = true ->
    reference_at ("${" ++ name ++ "}" ++ rest) name rest
| ref_bare (name rest : string) :
    is_identifier name = true -> ends_name rest = true ->
    reads_env_prefix (name ++ rest) = false ->
    reference_at ("$" ++ name ++ rest) name rest.

(** [references_replaced environ s t]: [t] is [s] with every reference
    replaced by the value of its variable, or by nothing when the variable
    is unset; the text is read from left to right and every character
    outside a reference is kept. *)
Inductive references_replaced (environ : dict string) : string -> string -> Prop :=
| replaced_end : references_replaced environ EmptyString EmptyString
| replaced_reference (s name rest t : string) :
    reference_at s name rest ->
    references_replaced environ rest t ->
    references_replaced environ s (value_or_empty environ name ++ t)
| replaced_char (c : ascii) (r t : string) :
    (forall name rest, ~ reference_at (String c r) name rest) ->
    references_replaced environ r t ->
    references_replaced environ (String c r) (String c t).

(** * Properties *)

(** ** The container *)

Lemma firstn_length_app (A : Type) (l r : list A) :
  firstn (length l) (l ++ r)%list = l.
Proof.
  induction l as [|x l IH]; simpl.
  - reflexivity.
  - now rewrite IH.
Qed.

Lemma skipn_length_app (A : Type) (l r : list A) :
  skipn (length l) (l ++ r)%list = r.
Proof.
  induction l as [|x l IH]; simpl; auto.
Qed.

Lemma byte_of_N_to_N (n : N) : (n < 256)%N -> Byte.to_N (byte_of_N n) = n.
Proof.
  intros Hn. unfold byte_of_N.
  destruct (Byte.of_N n) as [b|] eqn:E.
  - now apply Byte.to_of_N.
  - apply Byte.of_N_None_iff in E. lia.
Qed.

Lemma int_from_bytes_snoc (b : bytes) (x : byte) :
  int_from_bytes (b ++ [x])%list = (int_from_bytes b * 256 + Byte.to_N x)%N.
Proof.
  unfold int_from_bytes. now rewrite fold_left_app.
Qed.

Lemma to_bytes_be_length (k : nat) (n : N) : length (to_bytes_be k n) = k.
Proof.
  revert n. induction k as [|k IH]; intros n; simpl.
  - reflexivity.
  - rewrite length_app, IH. simpl. lia.
Qed.

Lemma int_from_to_bytes (k : nat) (n : N) :
  (n < 256 ^ N.of_nat k)%N -> int_from_bytes (to_bytes_be k n) = n.
Proof.
  revert n. induction k as [|k IH]; intros n Hn.
  - simpl in *. unfold int_from_bytes. simpl. lia.
  - simpl to_bytes_be. rewrite int_from_bytes_snoc.
    rewrite Nat2N.inj_succ, N.pow_succ_r' in Hn.
    rewrite IH.
    + rewrite byte_of_N_to_N by (apply N.mod_lt; lia).
      pose proof (N.div_mod n 256). lia.
    + apply N.Div0.div_lt_upper_bound. lia.
Qed.

Section ContainerFacts.

Variable read_refused : N -> option exn.
Variables (Json Timestamp : Type).
Variable json_dumps_utf8 : Manifest Timestamp -> bytes.
Variable json_loads_utf8 : bytes -> Completion Json.
Variable gzip_compress : bytes -> bytes.
Variable gzip_decompress : bytes -> Completion bytes.
Variable utf8_decode_replace : bytes -> string.
Variable basename : string -> string.
Variable splitext : string -> string * string.

Local Abbreviation compile :=
  (compile_latin Timestamp json_dumps_utf8 gzip_compress basename splitext).
Local Abbreviation load :=
  (load_le read_refused Json json_loads_utf8 gzip_decompress utf8_decode_replace).
Local Abbreviation manifest_of := (make_manifest Timestamp basename splitext).
Local Abbreviation read := (file_read read_refused).
Local Abbreviation manifest_read := (le_manifest_read read_refused).

(** A read that comes back gives the bytes asked for, or what is left. *)
Lemma file_read_returns (n : N) (f : bytes) (x : bytes * bytes) :
  read n f = Returns x -> x = (firstn (N.to_nat n) f, skipn (N.to_nat n) f).
Proof.
  unfold file_read.
  destruct (N.leb n (N.of_nat (length f))) eqn:E; [congruence|].
  apply N.leb_gt in E.
  assert (Hall : (firstn (N.to_nat n) f, skipn (N.to_nat n) f) = (f, [])).
  { rewrite firstn_all2, skipn_all2 by lia. reflexivity. }
  rewrite Hall.
  destruct (N.leb (2 ^ 63) n); [discriminate|].
  destruct (N.leb n 8); [congruence|].
  destruct (read_refused n); [discriminate | congruence].
Qed.

(** A read of bytes the file holds is granted. *)
Lemma file_read_held (n : N) (f : bytes) :
  (n <= N.of_nat (length f))%N ->
  read n f = Returns (firstn (N.to_nat n) f, skipn (N.to_nat n) f).
Proof.
  intros H. unfold file_read. apply N.leb_le in H. now rewrite H.
Qed.

(** The reads of the magic and of the length field are granted. *)
Lemma file_read_small (n : N) (f : bytes) :
  (n <= 8)%N ->
  read n f = Returns (firstn (N.to_nat n) f, skipn (N.to_nat n) f).
Proof.
  intros H. unfold file_read.
  destruct (N.leb n (N.of_nat (length f))) eqn:E; [reflexivity|].
  apply N.leb_gt in E.
  replace (N.leb (2 ^ 63) n) with false
    by (symmetry; apply N.leb_gt; change (2 ^ 63)%N with 9223372036854775808%N; lia).
  apply N.leb_le in H. rewrite H.
  rewrite firstn_all2, skipn_all2 by lia. reflexivity.
Qed.

(** A read is refused only for a size beyond the end of the file. *)
Lemma file_read_refused (n : N) (f : bytes) (e : exn) :
  read n f = Raises e -> (N.of_nat (length f) < n)%N /\ (8 < n)%N.
Proof.
  unfold file_read.
  destruct (N.leb n (N.of_nat (length f))) eqn:E1; [discriminate|].
  apply N.leb_gt in E1. intros H. split; [exact E1|].
  destruct (N.leb (2 ^ 63) n) eqn:E2.
  - apply N.leb_le in E2. change (2 ^ 63)%N with 9223372036854775808%N in E2. lia.
  - destruct (N.leb n 8) eqn:E3; [discriminate|]. now apply N.leb_gt in E3.
Qed.

(** A size that fits no [Py_ssize_t] is refused with [OverflowError]. *)
Lemma file_read_overflow (n : N) (f : bytes) :
  (N.of_nat (length f) < n)%N -> (2 ^ 63 <= n)%N ->
  read n f
  = Raises (Exn "OverflowError" "cannot fit 'int' into an index-sized integer").
Proof.
  intros H1 H2. unfold file_read.
  apply N.leb_gt in H1. apply N.leb_le in H2. now rewrite H1, H2.
Qed.

(** The reader cuts a written container where the writer joined it, and
    its read of the manifest is granted. *)
Lemma le_parts_of_written (len_bytes manifest_bytes compressed : bytes) :
  length len_bytes = 8 ->
  int_from_bytes len_bytes = N.of_nat (length manifest_bytes) ->
  let content := (_LE_MAGIC ++ len_bytes ++ manifest_bytes ++ compressed)%list in
  le_magic content = _LE_MAGIC /\
  le_manifest_len content = N.of_nat (length manifest_bytes) /\
  le_manifest_bytes content = manifest_bytes /\
  le_payload content = compressed /\
  manifest_read content = Returns (manifest_bytes, compressed).
Proof.
  intros Hlen Hval content.
  assert (H7f : firstn 7 content = _LE_MAGIC).
  { unfold content. change 7 with (length _LE_MAGIC). apply firstn_length_app. }
  assert (H7s : skipn 7 content = (len_bytes ++ manifest_bytes ++ compressed)%list).
  { unfold content. change 7 with (length _LE_MAGIC). apply skipn_length_app. }
  assert (H8f : firstn 8 (len_bytes ++ manifest_bytes ++ compressed)%list = len_bytes).
  { rewrite <- Hlen. apply firstn_length_app. }
  assert (H8s : skipn 8 (len_bytes ++ manifest_bytes ++ compressed)%list
                = (manifest_bytes ++ compressed)%list).
  { rewrite <- Hlen. apply skipn_length_app. }
  assert (Hl : le_manifest_len content = N.of_nat (length manifest_bytes)).
  { unfold le_manifest_len. now rewrite H7s, H8f. }
  unfold le_magic, le_manifest_bytes, le_payload, le_manifest_read.
  rewrite H7f, H7s, H8s, Hl.
  rewrite file_read_held by (rewrite length_app; lia).
  rewrite Nat2N.id, firstn_length_app, skipn_length_app.
  repeat split.
Qed.

(** What [load_le] does, in terms of the parts of the content. *)
Lemma load_le_parts (le_path : string) (content : bytes) :
  load le_path content =
  if negb (bytes_eqb (le_magic content) _LE_MAGIC) then
    Raises (Exn "ValueError" "Not a LUW binary (.le) or unsupported version")
  else
    match manifest_read content with
    | Raises e => Raises e
    | Returns _ =>
    match json_loads_utf8 (le_manifest_bytes content) with
    | Raises e =>
        Raises (Exn "ValueError"
                    ("Invalid manifest in " ++ le_path ++ ": " ++ exn_str e))
    | Returns manifest =>
        match gzip_decompress (le_payload content) with
        | Raises e =>
            Raises (Exn "ValueError"
                        ("Invalid payload (not gzip?) in " ++ le_path ++ ": "
                         ++ exn_str e))
        | Returns script_bytes =>
            Returns (manifest, script_bytes, utf8_decode_replace script_bytes)
        end
    end
    end.
Proof.
  unfold load_le.
  change (N.of_nat (length _LE_MAGIC)) with 7%N.
  rewrite file_read_small by lia.
  change (N.to_nat 7) with 7. fold (le_magic content).
  destruct (negb (bytes_eqb (le_magic content) _LE_MAGIC)); [reflexivity|].
  rewrite file_read_small by lia.
  change (N.to_nat 8) with 8.
  fold (le_manifest_len content). fold (le_manifest_read read_refused content).
  destruct (manifest_read content) as [[manifest_bytes f]|e] eqn:E; [|reflexivity].
  apply file_read_returns in E. injection E as -> ->.
  reflexivity.
Qed.

Lemma bytes_eqb_eq (a b : bytes) : bytes_eqb a b = true <-> a = b.
Proof.
  unfold bytes_eqb. destruct (list_eq_dec Byte.byte_eq_dec a b); split; congruence.
Qed.

(** C3. Reading back a container that [compile_latin] wrote gives the
    script bytes that were given to it, whatever they are (the empty
    script included), and the container has the layout magic, 8-byte
    big-endian manifest length, manifest, compressed script.  The
    libraries are taken with their contract: [gzip.decompress] undoes
    [gzip.compress] and [json.loads] accepts what [json.dumps] wrote; the
    manifest is shorter than 2^64 bytes. *)
Theorem container_round_trip
    (gzip_ok : forall b, gzip_decompress (gzip_compress b) = Returns b)
    (json_ok : forall m, exists j, json_loads_utf8 (json_dumps_utf8 m) = Returns j)
    (script_abspath le_path py_version : string) (now : Timestamp)
    (script_bytes : bytes)
    (fits : (N.of_nat (length (json_dumps_utf8
               (manifest_of script_abspath now py_version))) < 2 ^ 64)%N) :
  exists content j,
    compile script_abspath script_bytes now py_version = Returns content /\
    load le_path content
      = Returns (j, script_bytes, utf8_decode_replace script_bytes) /\
    le_magic content = _LE_MAGIC /\
    length (le_magic content) = 7 /\
    le_manifest_len content
      = N.of_nat (length (json_dumps_utf8 (manifest_of script_abspath now py_version))) /\
    le_manifest_bytes content
      = json_dumps_utf8 (manifest_of script_abspath now py_version) /\
    le_payload content = gzip_compress script_bytes.
Proof.
  set (m := manifest_of script_abspath now py_version) in *.
  destruct (json_ok m) as [j Hj].
  unfold compile_latin. fold m.
  unfold int_to_bytes.
  replace (N.ltb (N.of_nat (length (json_dumps_utf8 m))) (256 ^ N.of_nat 8)) with true
    by (symmetry; apply N.ltb_lt; exact fits).
  eexists. exists j.
  split; [reflexivity|].
  destruct (le_parts_of_written
              (to_bytes_be 8 (N.of_nat (length (json_dumps_utf8 m))))
              (json_dumps_utf8 m) (gzip_compress script_bytes))
    as (Hmagic & Hlen & Hman & Hpay & Hread).
  { apply to_bytes_be_length. }
  { apply int_from_to_bytes. exact fits. }
  cbv zeta in Hmagic, Hlen, Hman, Hpay, Hread.
  rewrite load_le_parts, Hmagic, Hread, Hman, Hpay, Hj, gzip_ok.
  replace (bytes_eqb _LE_MAGIC _LE_MAGIC) with true
    by (symmetry; now apply bytes_eqb_eq).
  simpl negb. cbv iota.
  repeat split; try assumption; reflexivity.
Qed.

(** C7, as amended.  Reading a container fails exactly when the magic is
    not the expected one, or the read of the manifest is refused, or the
    manifest the length field delimits is rejected by the JSON reader, or
    the rest is rejected by [gzip.decompress].  The failures of the three
    checks are [ValueError]s; a refused read leaves the function with the
    exception of the read ([OverflowError], [MemoryError]), which no
    handler catches.  The read is refused only when the length field says
    more than what follows it in the file, and it is refused with
    [OverflowError] whenever that number is 2^63 or more.  When the magic
    is in place, the read is granted and the two checks pass, the result is
    the manifest, the decompressed bytes and their text: the last step,
    decoding with replacement, is a total function. *)
Theorem load_le_fails_exactly (le_path : string) (content : bytes) :
  ((exists e, load le_path content = Raises e) <->
     (le_magic content <> _LE_MAGIC \/
      (exists e, manifest_read content = Raises e) \/
      (exists e, json_loads_utf8 (le_manifest_bytes content) = Raises e) \/
      (exists e, gzip_decompress (le_payload content) = Raises e))) /\
  (forall e, load le_path content = Raises e ->
     (exists msg, e = Exn "ValueError" msg) \/
     (le_magic content = _LE_MAGIC /\ manifest_read content = Raises e)) /\
  (le_magic content = _LE_MAGIC ->
   forall e, manifest_read content = Raises e -> load le_path content = Raises e) /\
  (forall e, manifest_read content = Raises e ->
     (N.of_nat (length content) < 15 + le_manifest_len content)%N) /\
  ((N.of_nat (length content) < 15 + le_manifest_len content)%N ->
   (2 ^ 63 <= le_manifest_len content)%N ->
   manifest_read content
   = Raises (Exn "OverflowError" "cannot fit 'int' into an index-sized integer")) /\
  (le_magic content = _LE_MAGIC ->
   forall manifest script_bytes,
     (forall e, manifest_read content <> Raises e) ->
     json_loads_utf8 (le_manifest_bytes content) = Returns manifest ->
     gzip_decompress (le_payload content) = Returns script_bytes ->
     load le_path content
       = Returns (manifest, script_bytes, utf8_decode_replace script_bytes)).
Proof.
  assert (Hrest : length (skipn 8 (skipn 7 content)) = length content - 15).
  { rewrite !length_skipn. lia. }
  split; [|split; [|split; [|split; [|split]]]].
  - rewrite load_le_parts.
    destruct (bytes_eqb (le_magic content) _LE_MAGIC) eqn:Emagic; simpl negb; cbv iota.
    + apply bytes_eqb_eq in Emagic.
      destruct (manifest_read content) as [x|e0] eqn:Eread.
      * destruct (json_loads_utf8 (le_manifest_bytes content)) as [manifest|e1] eqn:Ejson.
        -- destruct (gzip_decompress (le_payload content)) as [sb|e2] eqn:Egz.
           ++ split.
              ** intros [e He]. discriminate.
              ** intros [H | [[e He] | [[e He] | [e He]]]];
                   [contradiction | discriminate | discriminate | discriminate].
           ++ split; [|intros _; eexists; reflexivity].
              intros _. right. right. right. now exists e2.
        -- split; [|intros _; eexists; reflexivity].
           intros _. right. right. left. now exists e1.
      * split; [|intros _; eexists; reflexivity].
        intros _. right. left. now exists e0.
    + assert (Hne : le_magic content <> _LE_MAGIC).
      { intros H. apply bytes_eqb_eq in H. congruence. }
      split; [|intros _; eexists; reflexivity].
      intros _. now left.
  - intros e. rewrite load_le_parts.
    destruct (bytes_eqb (le_magic content) _LE_MAGIC) eqn:Emagic; simpl negb; cbv iota.
    + apply bytes_eqb_eq in Emagic.
      destruct (manifest_read content) as [x|e0] eqn:Eread.
      * destruct (json_loads_utf8 (le_manifest_bytes content)) as [manifest|e1].
        -- destruct (gzip_decompress (le_payload content)) as [sb|e2];
             [discriminate|].
           intros [= <-]. left. eexists. reflexivity.
        -- intros [= <-]. left. eexists. reflexivity.
      * intros [= <-]. right. split; [exact Emagic | reflexivity].
    + intros [= <-]. left. eexists. reflexivity.
  - intros Hm e He. rewrite load_le_parts, He.
    now rewrite (proj2 (bytes_eqb_eq _ _) Hm).
  - intros e He. unfold le_manifest_read in He.
    apply file_read_refused in He. destruct He as [He _].
    rewrite Hrest in He. lia.
  - intros Hlen Hbig. unfold le_manifest_read.
    apply file_read_overflow; [|exact Hbig].
    rewrite Hrest. lia.
  - intros Hm manifest script_bytes Hread Hj Hg.
    rewrite load_le_parts, (proj2 (bytes_eqb_eq _ _) Hm), Hj, Hg.
    simpl negb. cbv iota.
    destruct (manifest_read content) as [x|e0] eqn:Eread; [reflexivity|].
    exfalso. now apply (Hread e0).
Qed.

End ContainerFacts.

(** C7, as stated, fails: a container with the magic in place whose length
    field writes 2^64 - 1, followed by the text [{}], makes the reader raise
    [OverflowError] at the read of the manifest.  The magic matches; what
    follows the length field is the manifest [{}] and an empty rest, and the
    libraries here reject nothing: none of the three checks has failed, and
    the exception is no [ValueError]. *)
Lemma load_le_length_field_overflow :
  let loads := fun _ : bytes => @Returns unit tt in
  let decompress := fun b : bytes => Returns b in
  let content := (_LE_MAGIC ++ repeat xff 8 ++ [x7b; x7d])%list in
  le_magic content = _LE_MAGIC /\
  le_manifest_len content = (2 ^ 64 - 1)%N /\
  le_manifest_bytes content = [x7b; x7d] /\
  le_payload content = [] /\
  (forall b, exists j, loads b = Returns j) /\
  (forall b, exists d, decompress b = Returns d) /\
  load_le example_read_refused unit loads decompress (fun _ => "hi") "demo.le" content
  = Raises (Exn "OverflowError" "cannot fit 'int' into an index-sized integer") /\
  forall msg,
    load_le example_read_refused unit loads decompress (fun _ => "hi") "demo.le" content
    <> Raises (Exn "ValueError" msg).
Proof.
  cbv zeta.
  assert (Hlen : le_manifest_len (_LE_MAGIC ++ repeat xff 8 ++ [x7b; x7d])%list
                 = (2 ^ 64 - 1)%N) by (vm_compute; reflexivity).
  assert (Hload : load_le example_read_refused unit (fun _ => Returns tt)
                    (fun b => Returns b) (fun _ => "hi") "demo.le"
                    (_LE_MAGIC ++ repeat xff 8 ++ [x7b; x7d])%list
                  = Raises (Exn "OverflowError"
                                "cannot fit 'int' into an index-sized integer"))
    by (vm_compute; reflexivity).
  split; [vm_compute; reflexivity|]. split; [exact Hlen|].
  assert (Hrest : skipn 8 (skipn 7 (_LE_MAGIC ++ repeat xff 8 ++ [x7b; x7d])%list)
                  = [x7b; x7d]) by reflexivity.
  assert (Hbig : 2 <= N.to_nat (2 ^ 64 - 1)).
  { change (2 ^ 64 - 1)%N with 18446744073709551615%N. lia. }
  split.
  { unfold le_manifest_bytes. rewrite Hlen, Hrest. apply firstn_all2. exact Hbig. }
  split.
  { unfold le_payload. rewrite Hlen, Hrest. apply skipn_all2. exact Hbig. }
  split; [intros b; eexists; reflexivity|].
  split; [intros b; eexists; reflexivity|].
  split; [exact Hload|].
  intros msg. rewrite Hload. discriminate.
Qed.

(** ** Alias expansion *)

Lemma alias_loop_stops (aliases : dict string) (n : nat) (line : string) :
  alias_step aliases line = None -> alias_loop aliases n line = line.
Proof.
  intros H. destruct n; simpl; [reflexivity | now rewrite H].
Qed.

(** Below the cap the loop ends at a line whose first token is no alias. *)
Lemma alias_loop_below_cap (aliases : dict string) (n : nat) (line : string) :
  alias_loop_depth aliases n line < n ->
  alias_step aliases (alias_loop aliases n line) = None.
Proof.
  revert line. induction n as [|n IH]; intros line Hd; simpl in *.
  - lia.
  - destruct (alias_step aliases line) as [l|] eqn:E.
    + apply IH. lia.
    + exact E.
Qed.

Lemma expand_aliases_fixed (aliases : dict string) (line : string) :
  alias_step aliases line = None -> _expand_aliases_line aliases line = line.
Proof.
  intros H. unfold _expand_aliases_line.
  destruct (PyStr.is_empty line || PyStr.is_empty (PyStr.strip line)).
  - reflexivity.
  - now apply alias_loop_stops.
Qed.

(** A line whose first token is not an alias is left as it is. *)
Lemma expand_aliases_no_alias (aliases : dict string) (line first : string)
    (rest : list string) :
  tokens line = first :: rest -> dict_get aliases first = None ->
  _expand_aliases_line aliases line = line.
Proof.
  intros Ht Hg. apply expand_aliases_fixed. unfold alias_step.
  now rewrite Ht, Hg.
Qed.

(** C8, as amended.  When the expansion of a line ends below the depth cap
    of 5, or ends (at the cap or below) at a line whose first token is no
    alias, expanding the result again gives the same line; this holds for
    every alias table. *)
Theorem expand_aliases_idempotent_below_cap (aliases : dict string) (line : string) :
  alias_depth aliases line < max_depth \/
  alias_step aliases (_expand_aliases_line aliases line) = None ->
  _expand_aliases_line aliases (_expand_aliases_line aliases line)
  = _expand_aliases_line aliases line.
Proof.
  intros [Hd | Hs]; [|now apply expand_aliases_fixed].
  unfold alias_depth in Hd.
  unfold _expand_aliases_line at 2 3.
  destruct (PyStr.is_empty line || PyStr.is_empty (PyStr.strip line)) eqn:G.
  - unfold _expand_aliases_line. now rewrite G.
  - apply expand_aliases_fixed. now apply alias_loop_below_cap.
Qed.

Lemma expand_aliases_idempotent_below_cap_witness :
  (alias_depth [("ll", "ls -l")] "ll /tmp" < max_depth \/
   alias_step [("ll", "ls -l")] (_expand_aliases_line [("ll", "ls -l")] "ll /tmp")
     = None) /\
  _expand_aliases_line [("ll", "ls -l")]
    (_expand_aliases_line [("ll", "ls -l")] "ll /tmp")
  = _expand_aliases_line [("ll", "ls -l")] "ll /tmp".
Proof.
  assert (H : alias_depth [("ll", "ls -l")] "ll /tmp" < max_depth \/
              alias_step [("ll", "ls -l")]
                (_expand_aliases_line [("ll", "ls -l")] "ll /tmp") = None).
  { right. vm_compute. reflexivity. }
  split; [exact H|].
  exact (expand_aliases_idempotent_below_cap [("ll", "ls -l")] "ll /tmp" H).
Defined.

(** C8, as stated, fails on a cycle: with [a -> b] and [b -> a] the
    expansion of [a] runs to the cap and ends at [b], and expanding [b]
    again ends at [a]. *)
Lemma expand_aliases_cycle_not_idempotent :
  let aliases := [("a", "b"); ("b", "a")] in
  alias_depth aliases "a" = max_depth /\
  _expand_aliases_line aliases "a" = "b" /\
  _expand_aliases_line aliases (_expand_aliases_line aliases "a") = "a" /\
  _expand_aliases_line aliases (_expand_aliases_line aliases "a")
  <> _expand_aliases_line aliases "a".
Proof.
  cbv zeta. repeat split; try (vm_compute; reflexivity).
  vm_compute. discriminate.
Qed.

(** ** The worker *)

Lemma published_app (a b : list Event) :
  published (a ++ b) = (published a ++ published b)%list.
Proof.
  induction a as [|e a IH]; simpl; [reflexivity|].
  destruct e; simpl; now rewrite ?IH.
Qed.

Lemma enqueued_app (a b : list Event) :
  enqueued (a ++ b) = (enqueued a ++ enqueued b)%list.
Proof.
  induction a as [|e a IH]; simpl; [reflexivity|].
  destruct e; simpl; now rewrite ?IH.
Qed.

Lemma result_reads_app (a b : list Event) :
  result_reads (a ++ b) = (result_reads a ++ result_reads b)%list.
Proof.
  induction a as [|e a IH]; simpl; [reflexivity|].
  destruct e; simpl; now rewrite ?IH.
Qed.

Lemma spawned_app (a b : list Event) :
  spawned (a ++ b) = (spawned a ++ spawned b)%list.
Proof.
  induction a as [|e a IH]; simpl; [reflexivity|].
  destruct e; simpl; now rewrite ?IH.
Qed.

Section WorkerFacts.

Context {P : Platform}.

(** One turn on a task: it ends without [break], marks the task done and
    puts one pair on the result channel. *)
Lemma worker_turn_task (id : nat) (COMMANDS : dict (Command P))
    (command : string) (args : dict string) (result : option string)
    (w : World P) :
  exists w',
    worker_turn id COMMANDS (Some (command, args)) result w
      = (Ret (false, Some (task_text COMMANDS command args w)), w') /\
    published (out w')
      = (published (out w) ++ [(id, task_text COMMANDS command args w)])%list.
Proof.
  unfold worker_turn, task_text, bind, try_except, invoke, is_debug_suppressed,
    gets, logger_log, emit, modify, ret, of_completion, raise.
  destruct (dict_get COMMANDS command) as [func|].
  - destruct (call func args (environ w) (os w)) as [[r|e] [env' os']];
      cbn; eexists; (split; [reflexivity|]); cbn;
      rewrite !published_app; cbn; now rewrite app_nil_r.
  - cbn. destruct (DEBUG_SUPPRESSED w); cbn;
      eexists; (split; [reflexivity|]); cbn;
      rewrite !published_app; cbn; now rewrite ?app_nil_r.
Qed.

(** A run over tasks only never leaves the loop: it ends waiting for the
    next task, with one result of this worker for each task taken. *)
Lemma Worker_run_tasks (id : nat)
    (items : list (dict (Command P) * QueueItem)) :
  Forall (fun it => snd it <> None) items ->
  forall (result : option string) (w : World P),
  exists r w' texts,
    Worker_run id items result w = (Ret (Waiting r), w') /\
    published (out w')
      = (published (out w) ++ map (fun t => (id, t)) texts)%list /\
    length texts = length items.
Proof.
  induction 1 as [|[C task] items Htask _ IH]; intros result w.
  - exists result, w, []. cbn. rewrite app_nil_r. auto.
  - destruct task as [[command args]|]; [|now contradiction Htask].
    destruct (worker_turn_task id C command args result w) as (w1 & Hturn & Hpub).
    destruct (IH (Some (task_text C command args w)) w1)
      as (r & w' & texts & Hrun & Hout & Hlen).
    exists r, w', (task_text C command args w :: texts). split; [|split].
    + cbn [Worker_run]. unfold bind at 1. rewrite Hturn. exact Hrun.
    + rewrite Hout, Hpub, <- app_assoc. reflexivity.
    + cbn. now rewrite Hlen.
Qed.

(** C1. A worker that takes a task (command name, args) from the queue
    puts exactly one pair (its id, a text) on the result channel and goes
    on to the next [get]: the text is what the command returned, the error
    text [Fehler bei <name>: <message>] when the command raised, and the
    text [Unbekanntes Kommando: <name>] when the name is not in the
    registry at that moment.  Over any sequence of tasks the loop never
    ends and no exception leaves it. *)
Theorem worker_one_result_per_task (id : nat) :
  (forall (COMMANDS : dict (Command P)) (command : string) (args : dict string)
          (rest : list (dict (Command P) * QueueItem))
          (result : option string) (w : World P),
     exists text w',
       Worker_run id ((COMMANDS, Some (command, args)) :: rest) result w
         = Worker_run id rest (Some text) w' /\
       published (out w') = (published (out w) ++ [(id, text)])%list /\
       match dict_get COMMANDS command with
       | None =>
           text = "Unbekanntes Kommando: " ++ command /\
           PyStr.contains "Unbekanntes Kommando" text = true
       | Some func =>
           match fst (call func args (environ w) (os w)) with
           | Returns r => text = r
           | Raises e => text = "Fehler bei " ++ command ++ ": " ++ exn_str e
           end
       end) /\
  (forall (items : list (dict (Command P) * QueueItem))
          (result : option string) (w : World P),
     Forall (fun it => snd it <> None) items ->
     exists r w' texts,
       Worker_run id items result w = (Ret (Waiting r), w') /\
       published (out w')
         = (published (out w) ++ map (fun t => (id, t)) texts)%list /\
       length texts = length items).
Proof.
  split.
  - intros COMMANDS command args rest result w.
    destruct (worker_turn_task id COMMANDS command args result w) as (w1 & Hturn & Hpub).
    exists (task_text COMMANDS command args w), w1. split; [|split].
    + cbn [Worker_run]. unfold bind at 1. now rewrite Hturn.
    + exact Hpub.
    + unfold task_text.
      destruct (dict_get COMMANDS command) as [func|].
      * destruct (fst (call func args (environ w) (os w))); reflexivity.
      * split; reflexivity.
  - intros items result w Hitems. now apply Worker_run_tasks.
Qed.

End WorkerFacts.

(** ** Computations that leave the queues alone *)

Section Quiet.

Context {P : Platform}.

Lemma silent_nil : silent [].
Proof. split; reflexivity. Qed.

Lemma silent_app (a b : list Event) : silent a -> silent b -> silent (a ++ b).
Proof.
  intros [Ha1 Ha2] [Hb1 Hb2]. split.
  - now rewrite enqueued_app, Ha1, Hb1.
  - now rewrite result_reads_app, Ha2, Hb2.
Qed.

Lemma quiet_ret {A : Type} (a : A) : quiet (ret (P := P) a).
Proof.
  intros w. cbn. repeat split; try discriminate.
  exists []. rewrite app_nil_r. auto using silent_nil.
Qed.

Lemma quiet_raise {A : Type} (e : exn) : quiet (@raise P A e).
Proof.
  intros w. cbn. repeat split; try discriminate.
  exists []. rewrite app_nil_r. auto using silent_nil.
Qed.

Lemma quiet_gets {A : Type} (f : World P -> A) : quiet (gets f).
Proof.
  intros w. cbn. repeat split; try discriminate.
  exists []. rewrite app_nil_r. auto using silent_nil.
Qed.

Lemma quiet_bind {A B : Type} (m : M P A) (k : A -> M P B) :
  quiet m -> (forall a, quiet (k a)) -> quiet (bind m k).
Proof.
  intros Hm Hk w. unfold bind.
  destruct (Hm w) as (Hb & Hf & evs & Ho & Hs).
  destruct (m w) as [[a|e|] w1]; cbn in *.
  - destruct (Hk a w1) as (Hb' & Hf' & evs' & Ho' & Hs').
    split; [exact Hb'|]. split; [congruence|].
    exists (evs ++ evs')%list. rewrite Ho', Ho, app_assoc.
    auto using silent_app.
  - split; [discriminate|]. split; [exact Hf|]. now exists evs.
  - contradiction.
Qed.

Lemma quiet_try_except {A : Type} (m : M P A) (h : exn -> M P A) :
  quiet m -> (forall e, quiet (h e)) -> quiet (try_except m h).
Proof.
  intros Hm Hh w. unfold try_except.
  destruct (Hm w) as (Hb & Hf & evs & Ho & Hs).
  destruct (m w) as [[a|e|] w1]; cbn in *.
  - split; [discriminate|]. split; [exact Hf|]. now exists evs.
  - destruct (Hh e w1) as (Hb' & Hf' & evs' & Ho' & Hs').
    split; [exact Hb'|]. split; [congruence|].
    exists (evs ++ evs')%list. rewrite Ho', Ho, app_assoc.
    auto using silent_app.
  - contradiction.
Qed.

Lemma quiet_modify (f : World P -> World P) :
  (forall w, out (f w) = out w) ->
  (forall w, result_feed (f w) = result_feed w) ->
  quiet (modify f).
Proof.
  intros Ho Hf w. cbn. split; [discriminate|]. split; [apply Hf|].
  exists []. rewrite Ho, app_nil_r. auto using silent_nil.
Qed.

Lemma quiet_logger_log (msg : string) : quiet (logger_log (P := P) msg).
Proof.
  intros w. cbn. split; [discriminate|]. split; [reflexivity|].
  exists [EvLog msg]. split; [reflexivity | split; reflexivity].
Qed.

Lemma quiet_print (s : string) : quiet (print (P := P) s).
Proof.
  intros w. cbn. split; [discriminate|]. split; [reflexivity|].
  exists [EvPrint s]. split; [reflexivity | split; reflexivity].
Qed.

Lemma quiet_of_completion {A : Type} (c : Completion A) :
  quiet (of_completion (P := P) c).
Proof.
  destruct c; [apply quiet_ret | apply quiet_raise].
Qed.

Lemma quiet_invoke (c : Command P) (args : dict string) : quiet (invoke c args).
Proof.
  intros w. unfold invoke.
  destruct (call c args (environ w) (os w)) as [[r|e] [env' os']]; cbn;
    (split; [discriminate|]); (split; [reflexivity|]);
    exists []; rewrite app_nil_r; auto using silent_nil.
Qed.

Lemma quiet_py_index {A : Type} (l : list A) (i : nat) : quiet (py_index (P := P) l i).
Proof.
  unfold py_index, index_error.
  destruct (nth_error l i); [apply quiet_ret | apply quiet_raise].
Qed.

Lemma quiet_py_last {A : Type} (l : list A) : quiet (py_last (P := P) l).
Proof.
  unfold py_last, index_error.
  destruct l; [apply quiet_raise | apply quiet_py_index].
Qed.

Lemma quiet_for_each {A : Type} (l : list A) (f : A -> M P unit) :
  (forall a, quiet (f a)) -> quiet (for_each l f).
Proof.
  intros Hf. induction l as [|x l IH]; cbn.
  - apply quiet_ret.
  - apply quiet_bind; auto.
Qed.

Lemma quiet_map_m {A B : Type} (f : A -> M P B) (l : list A) :
  (forall a, quiet (f a)) -> quiet (map_m f l).
Proof.
  intros Hf. induction l as [|x l IH]; cbn.
  - apply quiet_ret.
  - apply quiet_bind; [auto|]. intros y.
    apply quiet_bind; [auto|]. intros ys. apply quiet_ret.
Qed.

End Quiet.

Create HintDb quiet.
#[export] Hint Resolve quiet_ret quiet_raise quiet_gets quiet_logger_log quiet_print
  quiet_of_completion quiet_invoke quiet_py_index quiet_py_last : quiet.

(** Goes through the structure of a computation: binds, handlers, loops
    and the case distinctions on data. *)
Ltac quiet_step :=
  match goal with
  | |- quiet (bind _ _) => apply quiet_bind
  | |- quiet (try_except _ _) => apply quiet_try_except
  | |- quiet (for_each _ _) => apply quiet_for_each
  | |- quiet (map_m _ _) => apply quiet_map_m
  | |- quiet (modify _) => apply quiet_modify; reflexivity
  | |- quiet (match ?x with _ => _ end) => destruct x
  | |- forall _, _ => intro
  | |- quiet _ => solve [auto with quiet]
  end.
Ltac quiet_auto := repeat quiet_step.

Section QuietDispatch.

Context {P : Platform}.
Variable COMMANDS : dict (Command P).

Lemma quiet_dbg (msg : string) : quiet (_dbg (P := P) msg).
Proof. unfold _dbg, is_debug_suppressed. quiet_auto. Qed.

Lemma quiet_dbg_enqueue (text : string) : quiet (dbg_enqueue (P := P) text).
Proof.
  unfold dbg_enqueue. apply quiet_try_except; intros; apply quiet_dbg.
Qed.

Lemma quiet_print_with_label (text : option string) (label : string) (tag : bool) :
  quiet (_print_with_label (P := P) text label tag).
Proof. unfold _print_with_label, is_debug_suppressed. quiet_auto. Qed.

Lemma quiet_run_stream (cmd : list string) (timeout : option nat) :
  quiet (_run_stream (P := P) cmd timeout).
Proof.
  intros w. unfold _run_stream, bind, emit, modify. cbn.
  destruct (run_process P cmd timeout (os w)) as [r o]. cbn.
  split; [discriminate|]. split; [reflexivity|].
  exists [EvSpawn cmd]. split; [reflexivity | split; reflexivity].
Qed.

Lemma quiet_run_pwsh_stream (s : string) : quiet (run_pwsh_stream (P := P) s).
Proof.
  unfold run_pwsh_stream. apply quiet_bind; [auto with quiet|]. intros o.
  repeat match goal with
         | |- quiet (match ?x with _ => _ end) => destruct x
         | |- quiet (_run_stream _ _) => apply quiet_run_stream
         | |- quiet (ret _) => apply quiet_ret
         end.
Qed.

Lemma quiet_run_cmd_stream (s : string) : quiet (run_cmd_stream (P := P) s).
Proof. unfold run_cmd_stream. apply quiet_run_stream. Qed.

Lemma quiet_handled (t : string) : quiet (handled (P := P) t).
Proof. apply quiet_ret. Qed.

Lemma quiet_environ_setitem (name value : string) :
  quiet (environ_setitem (P := P) name value).
Proof. unfold environ_setitem. quiet_auto. Qed.

Lemma quiet_run_builtin (command : string) (args : dict string) :
  quiet (_run_builtin COMMANDS command args).
Proof.
  unfold _run_builtin, builtin_help, builtin_alias, builtin_unalias,
    builtin_aliases, builtin_cd, builtin_pwd, builtin_echo, builtin_ls,
    builtin_env, builtin_set, builtin_get, handled.
  repeat first
    [ apply quiet_environ_setitem
    | quiet_step
    | match goal with
      | |- quiet (fun w => let (_, _) := os_chdir P ?p (os w) in _) =>
          let w := fresh "w" in
          intros w; destruct (os_chdir P p (os w)) as [[[]|?] ?]; cbn;
          (split; [discriminate|]); (split; [reflexivity|]);
          exists []; rewrite app_nil_r; auto using silent_nil
      end ].
Qed.

Lemma quiet_run_chain_element (name : string) (args : dict string) :
  quiet (run_chain_element COMMANDS name args).
Proof.
  unfold run_chain_element.
  repeat first [ apply quiet_run_builtin | quiet_step ].
Qed.

Lemma quiet_apply_chain (names : list string) (value : option string) :
  quiet (apply_chain COMMANDS names value).
Proof.
  revert value. induction names as [|n names IH]; intros value; cbn.
  - apply quiet_ret.
  - repeat first [ apply quiet_run_chain_element | apply IH | quiet_step ].
Qed.

Lemma quiet_evaluate_composed (command : string) (parts : list string)
    (text : option string) :
  quiet (_evaluate_composed_chain_if_any COMMANDS command parts text).
Proof.
  unfold _evaluate_composed_chain_if_any, not_applicable.
  repeat first [ apply quiet_run_chain_element | apply quiet_apply_chain
               | apply quiet_run_builtin | quiet_step ].
Qed.

Lemma quiet_evaluate_inner (parts : list string) (text : option string) :
  quiet (_evaluate_inner_chain_if_any COMMANDS parts text).
Proof.
  unfold _evaluate_inner_chain_if_any, not_applicable.
  repeat first [ apply quiet_run_chain_element | apply quiet_apply_chain
               | quiet_step ].
Qed.

End QuietDispatch.

(** ** Chain resolution never raises *)

Lemma find_chain_some (known : string -> bool) (l : list string) :
  forall i j chain,
    find_chain known i l = Some (j, chain) ->
    chain <> [] /\ i <= j /\ j < i + length l.
Proof.
  induction l as [|t r IH]; intros i j chain H; simpl in H.
  - discriminate.
  - destruct (known t) eqn:K.
    + injection H as <- <-. repeat split; [discriminate | lia | simpl; lia].
    + apply IH in H. simpl. intuition lia.
Qed.

(** The three loops over the tokens step by one or by two positions; an
    induction on a bound of the length follows them. *)
Lemma pos_indices_length_bounded (n : nat) :
  forall rest i, length rest <= n ->
    length (pos_indices_from i rest) = length (positional_of rest).
Proof.
  induction n as [|n IH]; intros rest i Hn.
  - destruct rest; [reflexivity | simpl in Hn; lia].
  - destruct rest as [|t [|v rest']]; try reflexivity.
    simpl in Hn. simpl. destruct (is_flag t).
    + apply IH. lia.
    + simpl. f_equal. apply (IH (v :: rest')). simpl. lia.
Qed.

Lemma pos_indices_length (rest : list string) (i : nat) :
  length (pos_indices_from i rest) = length (positional_of rest).
Proof.
  now apply (pos_indices_length_bounded (length rest)).
Qed.

Section ChainFacts.

Context {P : Platform}.
Variable COMMANDS : dict (Command P).

Lemma try_except_default {A : Type} (m : M P A) (d : A) (w : World P) :
  quiet m ->
  exists a w', try_except m (fun _ => ret d) w = (Ret a, w') /\
               (fst (m w) = Ret a \/ a = d).
Proof.
  intros Hq. destruct (Hq w) as (Hb & _). unfold try_except.
  destruct (m w) as [[a|e|] w1]; cbn in *.
  - exists a, w1. auto.
  - exists d, w1. auto.
  - contradiction.
Qed.

Lemma apply_chain_returns (names : list string) :
  forall (value : option string) (w : World P),
  exists r w', apply_chain COMMANDS names value w = (Ret r, w').
Proof.
  induction names as [|n names IH]; intros value w; cbn.
  - do 2 eexists. reflexivity.
  - unfold bind at 1.
    destruct (try_except_default
                (run_chain_element COMMANDS n [("str", py_str value)]) None w)
      as (a & w1 & -> & _).
    { apply quiet_run_chain_element. }
    destruct a as [value'|].
    + apply IH.
    + do 2 eexists. reflexivity.
Qed.

Lemma outer_call_answer (command : string) (outer_args : dict string) (w : World P) :
  let body :=
    if str_in command BUILTIN_NAMES then
      '(handled, out) <- _run_builtin COMMANDS command outer_args ;;
      if negb handled then not_applicable else ret (true, Some (py_str out))
    else
      match dict_get COMMANDS command with
      | None => not_applicable
      | Some outer_func =>
          final <- invoke outer_func outer_args ;; ret (true, Some final)
      end in
  exists r w', try_except body (fun _ => not_applicable) w = (Ret r, w') /\
               chain_answer r.
Proof.
  intros body. unfold try_except.
  assert (Hq : quiet body).
  { unfold body, not_applicable.
    repeat first [ apply quiet_run_builtin | quiet_step ]. }
  destruct (Hq w) as (Hb & _).
  destruct (body w) as [[r|e|] w1] eqn:E; cbn in Hb.
  - exists r, w1. split; [reflexivity|].
    unfold body in E. destruct (str_in command BUILTIN_NAMES).
    + unfold bind in E.
      destruct (_run_builtin COMMANDS command outer_args w) as [[[h o]|?|] w2];
        try discriminate.
      destruct h; cbn in E; injection E as <- _.
      * right. eauto.
      * now left.
    + destruct (dict_get COMMANDS command) as [f|].
      * unfold bind in E.
        destruct (invoke f outer_args w) as [[v|?|] w2]; try discriminate.
        injection E as <- _. right. eauto.
      * injection E as <- _. now left.
  - exists (false, None), w1. split; [reflexivity | now left].
  - contradiction.
Qed.

(** Whatever the command name, the tokens, the line text, the registry and
    the state, [_evaluate_composed_chain_if_any] returns. *)
Lemma chain_resolution_returns (command : string) (parts : list string)
    (original_text : option string) (w : World P) :
  exists r w',
    _evaluate_composed_chain_if_any COMMANDS command parts original_text w
      = (Ret r, w') /\
    chain_answer r.
Proof.
  unfold _evaluate_composed_chain_if_any.
  assert (Hna : forall w0 : World P, exists r w',
            not_applicable w0 = (Ret r, w') /\ chain_answer r).
  { intros w0. exists (false, None), w0. split; [reflexivity | now left]. }
  destruct (_extract_positional parts) as [|p0 ps] eqn:Epos; [apply Hna|].
  destruct (pos_indices_from 1 (tl parts)) as [|i0 is0] eqn:Eidx; [apply Hna|].
  destruct (find_chain (recognized COMMANDS original_text) 0 (p0 :: ps))
    as [[found_pos_idx chain]|] eqn:Efind; [|apply Hna].
  apply find_chain_some in Efind. destruct Efind as (Hne & _ & Hlt).
  assert (Hlen : length (i0 :: is0) = length (p0 :: ps)).
  { rewrite <- Eidx, <- Epos. apply pos_indices_length. }
  (* chain[-1] *)
  destruct chain as [|c0 cs]; [contradiction|].
  unfold py_last.
  destruct (nth_error (c0 :: cs) (length (c0 :: cs) - 1)) as [innermost|] eqn:Elast.
  2:{ apply nth_error_None in Elast. simpl in Elast. lia. }
  unfold py_index at 1. rewrite Elast.
  (* pos_indices[found_pos_idx] *)
  destruct (nth_error (i0 :: is0) found_pos_idx) as [first_pos|] eqn:Efirst.
  2:{ apply nth_error_None in Efirst. simpl in *. lia. }
  unfold py_index at 1. rewrite Efirst.
  unfold bind at 1. cbn [ret]. unfold bind at 1. cbn [ret].
  set (start_idx := index_from innermost 0 parts first_pos).
  set (parts_for_inner := match start_idx with
                          | Some i => skipn i parts
                          | None => _ end).
  unfold bind at 1.
  destruct (try_except_default
              (inn_cmd <- py_index parts_for_inner 0 ;;
               run_chain_element COMMANDS inn_cmd
                 (_build_args_from_parts parts_for_inner)) None w)
    as (r1 & w1 & -> & _).
  { repeat first [ apply quiet_run_chain_element | quiet_step ]. }
  destruct r1 as [value|]; [|apply Hna].
  unfold bind at 1.
  destruct (apply_chain_returns (List.rev (removelast (c0 :: cs))) value w1)
    as (r2 & w2 & ->).
  destruct r2 as [value2|]; [|apply Hna].
  unfold py_index at 1. rewrite Efirst.
  unfold bind at 1. cbn [ret].
  destruct (Nat.ltb (found_pos_idx + length (c0 :: cs) - 1) (length (i0 :: is0)))
    eqn:Eltb.
  - apply Nat.ltb_lt in Eltb.
    destruct (nth_error (i0 :: is0) (found_pos_idx + length (c0 :: cs) - 1))
      as [lastpos|] eqn:Elp.
    2:{ apply nth_error_None in Elp. lia. }
    unfold py_index at 1. rewrite Elp.
    unfold bind at 1. cbn [ret].
    apply outer_call_answer.
  - unfold bind at 1. cbn [ret].
    apply outer_call_answer.
Qed.

(** C6. For every command name, token list, line text, registry and state,
    [_evaluate_composed_chain_if_any] returns, either a composed text or
    "not applicable" [(False, None)]; it does not raise and does not wait.
    In [handle_input] the answer "not applicable" leads on to the
    single-command path, in the state the attempt has left. *)
Theorem chain_resolution_never_raises (command : string) (parts : list string)
    (w : World P) :
  (forall original_text : option string,
   exists r w',
     _evaluate_composed_chain_if_any COMMANDS command parts original_text w
       = (Ret r, w') /\
     chain_answer r) /\
  (forall command_line : string,
   exists r w',
     _evaluate_composed_chain_if_any COMMANDS command parts (Some command_line) w
       = (Ret r, w') /\
     chain_answer r /\
     ordinary_dispatch COMMANDS command command_line parts w
       = (if fst r then _print_with_label (snd r) "sync" true
          else single_command COMMANDS command command_line parts) w').
Proof.
  split.
  - intros original_text. apply chain_resolution_returns.
  - intros command_line.
    destruct (chain_resolution_returns command parts (Some command_line) w)
      as (r & w' & E & Ha).
    exists r, w'. split; [exact E|]. split; [exact Ha|].
    unfold ordinary_dispatch, bind. rewrite E. now destruct r.
Qed.

End ChainFacts.

(** ** [handle_input] on an ordinary line *)

Section DispatchFacts.

Context {P : Platform}.
Variable COMMANDS : dict (Command P).

Lemma bind_ext {A B : Type} (m : M P A) (k1 k2 : A -> M P B) (w : World P) :
  (forall a w', k1 a w' = k2 a w') -> bind m k1 w = bind m k2 w.
Proof.
  intros H. unfold bind. destruct (m w) as [[a|e|] w1]; auto.
Qed.

Lemma alias_notice_same (line : string) : alias_notice (P := P) line line = ret tt.
Proof.
  unfold alias_notice. now rewrite String.eqb_refl.
Qed.


End DispatchFacts.

(** ** Two lines of the interactive shell *)

Section ConcreteLines.

Context {P : Platform}.
Variable COMMANDS : dict (Command P).







End ConcreteLines.

(** ** Batch mode: tasks handed over and results read *)

Section BatchFacts.

Context {P : Platform}.
Variable COMMANDS : dict (Command P).

Lemma counts_ret (n : nat) : counts (ret (P := P) n) n.
Proof.
  intros w. cbn. split; [discriminate|]. split; [reflexivity|].
  exists []. rewrite app_nil_r. repeat split.
  intros n' [= <-]. cbn. lia.
Qed.

Lemma counts_bind {A : Type} (m : M P A) (k : A -> M P nat) (n : nat) :
  quiet m -> (forall a, counts (k a) n) -> counts (bind m k) n.
Proof.
  intros Hm Hk w. unfold bind.
  destruct (Hm w) as (Hb & Hf & evs & Ho & He & Hr).
  destruct (m w) as [[a|e|] w1]; cbn in *.
  - destruct (Hk a w1) as (Hb' & Hf' & evs' & Ho' & Hr' & Hn).
    split; [exact Hb'|]. split; [congruence|].
    exists (evs ++ evs')%list. rewrite Ho', Ho, app_assoc.
    split; [reflexivity|]. split.
    + now rewrite result_reads_app, Hr, Hr'.
    + intros n' E. rewrite enqueued_app, He. cbn. now apply Hn.
  - split; [discriminate|]. split; [exact Hf|]. exists evs.
    split; [exact Ho|]. split; [assumption|]. intros n' E. discriminate E.
  - contradiction.
Qed.

Lemma counts_chain (m : M P nat) (k : nat -> M P nat) (n : nat) :
  counts m n -> (forall n', counts (k n') n') -> counts (bind m k) n.
Proof.
  intros Hm Hk w. unfold bind.
  destruct (Hm w) as (Hb & Hf & evs & Ho & Hr & Hn).
  destruct (m w) as [[a|e|] w1]; cbn in *.
  - destruct (Hk a w1) as (Hb' & Hf' & evs' & Ho' & Hr' & Hn').
    split; [exact Hb'|]. split; [congruence|].
    exists (evs ++ evs')%list. rewrite Ho', Ho, app_assoc.
    split; [reflexivity|]. split.
    + now rewrite result_reads_app, Hr, Hr'.
    + intros n' E. rewrite enqueued_app, length_app.
      rewrite (Hn' n' E), (Hn a eq_refl). lia.
  - split; [discriminate|]. split; [exact Hf|]. exists evs.
    split; [exact Ho|]. split; [assumption|]. intros n' E. discriminate E.
  - contradiction.
Qed.

Lemma counts_add_task (command : string) (args : dict string) (n : nat) :
  counts (P := P) (add_task command args ;;; ret (n + 1)) n.
Proof.
  intros w. cbn. split; [discriminate|]. split; [reflexivity|].
  exists [EvEnqueue command args]. repeat split.
  intros n' [= <-]. reflexivity.
Qed.

Ltac counts_step :=
  match goal with
  | |- counts (ret _) _ => apply counts_ret
  | |- counts (add_task _ _ ;;; ret (_ + 1)) _ => apply counts_add_task
  | |- counts (bind _ _) _ => apply counts_bind
  | |- counts (match ?x with _ => _ end) _ => destruct x
  | |- counts (let '(_, _) := ?x in _) _ => destruct x
  | |- quiet (_run_builtin _ _ _) => apply quiet_run_builtin
  | |- quiet (_evaluate_inner_chain_if_any _ _ _) => apply quiet_evaluate_inner
  | |- quiet (_print_with_label _ _ _) => apply quiet_print_with_label
  | |- quiet (_dbg _) => apply quiet_dbg
  | |- quiet (dbg_enqueue _) => apply quiet_dbg_enqueue
  | |- quiet (run_pwsh_stream _) => apply quiet_run_pwsh_stream
  | |- quiet (run_cmd_stream _) => apply quiet_run_cmd_stream
  | |- quiet _ => quiet_step
  | |- forall _, _ => intro
  end.

Lemma counts_batch_subcommand (global_shell : option string) (n : nat) (sub : string) :
  counts (batch_subcommand COMMANDS global_shell n sub) n.
Proof.
  unfold batch_subcommand. repeat counts_step.
Qed.

Lemma counts_batch_loop (global_shell : option string) (subcmds : list string) :
  forall n, counts (batch_loop COMMANDS global_shell subcmds n) n.
Proof.
  induction subcmds as [|sub rest IH]; intros n; cbn.
  - apply counts_ret.
  - apply counts_chain; [apply counts_batch_subcommand | exact IH].
Qed.

(** The output helpers always come back. *)
Lemma for_each_log_returns (f : string -> string) (l : list string) (w : World P) :
  exists w', for_each l (fun x => logger_log (f x)) w = (Ret tt, w').
Proof.
  revert w. induction l as [|x l IH]; intros w; cbn.
  - now exists w.
  - unfold bind, logger_log, emit, modify. cbn. apply IH.
Qed.

Lemma print_with_label_returns (text : option string) (label : string)
    (tag : bool) (w : World P) :
  exists w', _print_with_label text label tag w = (Ret tt, w').
Proof.
  unfold _print_with_label. destruct text as [s|]; [|now exists w].
  unfold bind, is_debug_suppressed, gets.
  destruct (DEBUG_SUPPRESSED w).
  - eexists. reflexivity.
  - destruct tag.
    + eexists. reflexivity.
    + apply (for_each_log_returns (fun line => ("[Worker " ++ label ++ "]") ++ " " ++ line)).
Qed.

Lemma dbg_returns (msg : string) (w : World P) :
  exists w', _dbg msg w = (Ret tt, w').
Proof.
  unfold _dbg, bind, is_debug_suppressed, gets.
  destruct (DEBUG_SUPPRESSED w); eexists; reflexivity.
Qed.

(** A read with a waiting time gives a result or raises [queue.Empty]. *)
Lemma result_queue_get_timed (t : nat) (w : World P) :
  exists w0,
    out w0 = (out w ++ [EvResultGet (Some t)])%list /\
    ((exists r, result_queue_get (Some t) w = (Ret r, w0)) \/
     result_queue_get (Some t) w = (Raise (Exn "Empty" EmptyString), w0)).
Proof.
  unfold result_queue_get, bind, emit, modify. cbn.
  destruct (result_feed w) as [|[r|] feed]; cbn;
    eexists; (split; [|first [left; eexists; reflexivity | right; reflexivity]]);
    reflexivity.
Qed.

(** The gathering loop makes [n] reads, each with the waiting time 10, and
    comes back whether results arrive or not. *)
Lemma gather_results_reads (n : nat) :
  forall w : World P,
  exists w' evs,
    gather_results n w = (Ret tt, w') /\
    out w' = (out w ++ evs)%list /\
    result_reads evs = repeat (Some 10) n /\
    enqueued evs = [].
Proof.
  induction n as [|n IH]; intros w.
  - exists w, []. cbn. rewrite app_nil_r. auto.
  - cbn [gather_results].
    assert (Hone : exists w1 evs1,
      try_except
        ('(worker_id, result) <- result_queue_get (Some 10) ;;
         _print_with_label (Some result) (PyStr.of_nat worker_id) true)
        (fun e => if is_class "Empty" e
                  then _dbg "Keine Antwort vom Worker erhalten (Timeout)."
                  else raise e) w = (Ret tt, w1) /\
      out w1 = (out w ++ EvResultGet (Some 10) :: evs1)%list /\ silent evs1).
    { unfold try_except, bind at 1.
      destruct (result_queue_get_timed 10 w) as (w0 & Ho0 & [[[wid res] ->] | ->]).
      - destruct (print_with_label_returns (Some res) (PyStr.of_nat wid) true w0)
          as (w1 & E).
        destruct (quiet_print_with_label (Some res) (PyStr.of_nat wid) true w0)
          as (_ & _ & evs & Ho & Hs).
        rewrite E in *. cbn [snd] in Ho.
        exists w1, evs. split; [reflexivity|]. split; [|exact Hs].
        now rewrite Ho, Ho0, <- app_assoc.
      - cbn [is_class String.eqb Ascii.eqb Bool.eqb].
        destruct (dbg_returns "Keine Antwort vom Worker erhalten (Timeout)." w0)
          as (w1 & E).
        destruct (quiet_dbg "Keine Antwort vom Worker erhalten (Timeout)." w0)
          as (_ & _ & evs & Ho & Hs).
        rewrite E in *. cbn [snd] in Ho.
        exists w1, evs. split; [reflexivity|]. split; [|exact Hs].
        now rewrite Ho, Ho0, <- app_assoc. }
    destruct Hone as (w1 & evs1 & E1 & Ho1 & Hs1 & Hs1').
    destruct (IH w1) as (w' & evs & E & Ho & Hr & He).
    exists w', (EvResultGet (Some 10) :: evs1 ++ evs)%list.
    unfold bind at 1. rewrite E1. split; [exact E|].
    split; [rewrite Ho, Ho1, <- app_assoc; reflexivity|].
    split.
    + cbn. rewrite result_reads_app, Hs1', Hr. reflexivity.
    + cbn. rewrite enqueued_app, Hs1, He. reflexivity.
Qed.

End BatchFacts.

Section BatchTheorems.

Context {P : Platform}.
Variable COMMANDS : dict (Command P).

Lemma run_builtin_unhandled (command : string) (args : dict string) :
  str_in command BUILTIN_NAMES = false ->
  _run_builtin COMMANDS command args = ret (false, None).
Proof.
  intros H. unfold BUILTIN_NAMES in H. cbn [str_in existsb] in H.
  repeat match type of H with
         | (_ || _) = false =>
             let H1 := fresh "E" in
             apply orb_false_iff in H; destruct H as [H1 H]
         end.
  unfold _run_builtin. cbn [str_in existsb].
  repeat match goal with
         | E : String.eqb command _ = false |- _ => rewrite E; clear E
         end.
  reflexivity.
Qed.

Lemma handle_input_batch (line : string) (w : World P)
    (command : string) (rest : list string) :
  let cl := _expand_aliases_line (ALIASES w) line in
  PyStr.is_empty line || PyStr.is_empty (PyStr.strip line) = false ->
  is_toggle cl = false ->
  tokens cl = command :: rest ->
  str_in command ["!pwsh"; "!cmd"] = false ->
  str_in command ["!multithread"; "!mt"] = true ->
  handle_input COMMANDS line w
  = (alias_notice line cl ;;; batch_mode COMMANDS command cl) w.
Proof.
  intros cl Hne Htog Htok Hcmd Hmt.
  unfold handle_input. rewrite Hne.
  unfold bind at 1, gets. fold cl.
  unfold is_toggle in Htog. apply orb_false_iff in Htog. destruct Htog as [Ht1 Ht2].
  cbn [str_in existsb] in Hcmd.
  apply orb_false_iff in Hcmd. destruct Hcmd as [Hc1 Hcmd].
  apply orb_false_iff in Hcmd. destruct Hcmd as [Hc2 _].
  apply bind_ext. intros [] w1.
  unfold dispatch_line. cbv zeta. rewrite Ht1, Ht2, Htok, Hc1, Hc2, Hmt.
  reflexivity.
Qed.

(** The reads of a batch line: one for each task handed to the pool, each
    with the waiting time 10; none when the dispatch loop raised. *)
Lemma batch_mode_reads (command command_line : string) (w : World P) :
  exists evs,
    out (snd (batch_mode COMMANDS command command_line w)) = (out w ++ evs)%list /\
    ((fst (batch_mode COMMANDS command command_line w) = Ret tt /\
      result_reads evs = repeat (Some 10) (length (enqueued evs))) \/
     (exists e, fst (batch_mode COMMANDS command command_line w) = Raise e /\
                result_reads evs = [])).
Proof.
  assert (Hdbg : forall msg (w0 : World P), exists evs,
            out (snd (_dbg msg w0)) = (out w0 ++ evs)%list /\
            ((fst (_dbg msg w0) = Ret tt /\
              result_reads evs = repeat (Some 10) (length (enqueued evs))) \/
             (exists e, fst (_dbg msg w0) = Raise e /\ result_reads evs = []))).
  { intros msg w0. destruct (dbg_returns msg w0) as (w1 & E).
    destruct (quiet_dbg msg w0) as (_ & _ & evs & Ho & He & Hr).
    exists evs. split; [exact Ho|]. left. rewrite E. split; [reflexivity|].
    now rewrite He, Hr. }
  unfold batch_mode.
  destruct (PyStr.is_empty _); [apply Hdbg|].
  match goal with
  | |- context [let '(_, _) := ?x in _] => destruct x as [global_shell ras]
  end.
  destruct (map PyStr.strip _) as [|s0 subs]; [apply Hdbg|].
  unfold bind.
  destruct (counts_batch_loop COMMANDS global_shell (s0 :: subs) 0 w)
    as (Hb & _ & evs1 & Ho1 & Hr1 & Hn).
  destruct (batch_loop COMMANDS global_shell (s0 :: subs) 0 w) as [[n|e|] w1];
    cbn [fst snd] in *.
  - specialize (Hn n eq_refl). cbn in Hn.
    destruct (dbg_returns ("Added " ++ PyStr.of_nat n ++ " tasks (multithread)") w1)
      as (w2 & E2).
    destruct (quiet_dbg ("Added " ++ PyStr.of_nat n ++ " tasks (multithread)") w1)
      as (_ & _ & evs2 & Ho2 & He2 & Hr2).
    rewrite E2 in *. cbn [fst snd] in *.
    destruct (gather_results_reads n w2) as (w3 & evs3 & E3 & Ho3 & Hr3 & He3).
    rewrite E3. cbn [fst snd].
    exists (evs1 ++ evs2 ++ evs3)%list. split.
    + rewrite Ho3, Ho2, Ho1, <- !app_assoc. reflexivity.
    + left. split; [reflexivity|].
      rewrite !result_reads_app, !enqueued_app, Hr1, Hr2, Hr3, He2, He3.
      cbn. rewrite app_nil_r. f_equal. exact Hn.
  - exists evs1. split; [exact Ho1|]. right. exists e. auto.
  - contradiction.
Qed.

End BatchTheorems.

Section EnqueueTheorems.

Context {P : Platform}.
Variable COMMANDS : dict (Command P).

Lemma dbg_enqueue_returns (text : string) (w : World P) :
  exists w' evs,
    dbg_enqueue text w = (Ret tt, w') /\
    out w' = (out w ++ evs)%list /\ silent evs /\ environ w' = environ w.
Proof.
  unfold dbg_enqueue, try_except, _dbg, bind, is_debug_suppressed, gets.
  destruct (DEBUG_SUPPRESSED w); cbn.
  - exists w, []. rewrite app_nil_r. auto using silent_nil.
  - eexists. exists [EvLog ("Enqueue: " ++ colorize text)].
    split; [reflexivity|]. repeat split.
Qed.

Lemma show_sync_line (x : string) (w : World P) :
  PyStr.splitlines x = [x] ->
  _print_with_label (Some x) "sync" false w
  = (Ret tt, with_out (out w ++ (if DEBUG_SUPPRESSED w then [EvPrint x]
                                 else [EvLog ("[Worker sync] " ++ x)]))%list w).
Proof.
  intros Hl. unfold _print_with_label, bind, is_debug_suppressed, gets.
  destruct (DEBUG_SUPPRESSED w); [reflexivity|].
  rewrite Hl. reflexivity.
Qed.

(** A subcommand [echo x] of a batch line, where [x] is no command name and
    holds no variable: the built-in shows [x]; nothing goes to the pool. *)
Lemma batch_echo_subcommand (n : nat) (x sub : string) (w : World P) :
  tokens sub = ["echo"; x] ->
  dict_get COMMANDS x = None -> str_in x BUILTIN_NAMES = false ->
  _expand_env_in_str (environ w) x = x -> PyStr.is_empty x = false ->
  batch_subcommand COMMANDS None n sub w
  = (_print_with_label (Some x) "sync" false ;;; ret n) w.
Proof.
  intros Ht Hx Hb Henv Hne.
  unfold batch_subcommand. rewrite Ht.
  cbn [str_in existsb String.eqb Ascii.eqb Bool.eqb orb].
  unfold bind at 1.
  assert (Hin : _evaluate_inner_chain_if_any COMMANDS ["echo"; x] (Some sub) w
                = (Ret (false, None), w)).
  { unfold _evaluate_inner_chain_if_any.
    change (_extract_positional ["echo"; x]) with [x].
    cbn [take_chain]. unfold recognized at 1, dict_has. now rewrite Hx, Hb. }
  rewrite Hin. cbv iota beta.
  unfold bind at 1.
  replace (_run_builtin COMMANDS "echo" (_build_args_from_parts ["echo"; x]) w)
    with (@Ret (bool * option string) (true, Some x), w).
  2:{ cbn. unfold builtin_echo, bind, gets, handled, ret. cbn.
      unfold get_str. cbn. now rewrite Henv. }
  cbv iota beta. now rewrite Hne.
Qed.

(** The line [!mt echo a & echo b], with [a] and [b] no command names and
    [!mt] no alias: both subcommands are answered by the built-in; the
    batch hands over no task and reads no result. *)
Lemma batch_echo_line (w : World P) :
  dict_get COMMANDS "a" = None -> dict_get COMMANDS "b" = None ->
  dict_get (ALIASES w) "!mt" = None ->
  handle_input COMMANDS "!mt echo a & echo b" w
    = (Ret tt,
       with_out (out w ++ (if DEBUG_SUPPRESSED w then [EvPrint "a"; EvPrint "b"]
                           else [EvLog "[Worker sync] a"; EvLog "[Worker sync] b";
                                 EvLog "Added 0 tasks (multithread)"]))%list w).
Proof.
  intros Ha Hb Hal.
  rewrite (handle_input_batch COMMANDS _ w "!mt" ["echo"; "a"; "&"; "echo"; "b"]);
    rewrite ?(expand_aliases_no_alias (ALIASES w) _ "!mt" ["echo"; "a"; "&"; "echo"; "b"]);
    try reflexivity; try assumption.
  rewrite alias_notice_same.
  unfold bind at 1. cbn [ret].
  unfold batch_mode.
  change (PyStr.strip (PyStr.drop (String.length "!mt") "!mt echo a & echo b"))
    with "echo a & echo b".
  cbn [PyStr.is_empty].
  change (tokens "echo a & echo b") with ["echo"; "a"; "&"; "echo"; "b"].
  cbn [str_in existsb String.eqb Ascii.eqb Bool.eqb orb].
  change (map PyStr.strip
          (filter (fun s => negb (PyStr.is_empty (PyStr.strip s)))
                  (PyStr.split_char "&" "echo a & echo b"))) with ["echo a"; "echo b"].
  cbn [batch_loop].
  unfold bind at 1. unfold bind at 1.
  rewrite (batch_echo_subcommand 0 "a" "echo a" w); try reflexivity; try assumption.
  unfold bind at 1. rewrite show_sync_line by reflexivity. cbn [ret].
  unfold bind at 1.
  rewrite (batch_echo_subcommand 0 "b" "echo b"); try reflexivity; try assumption.
  unfold bind at 1. rewrite show_sync_line by reflexivity. cbn [ret].
  unfold bind at 1. cbn [gather_results PyStr.of_nat].
  unfold _dbg, bind, is_debug_suppressed, gets. cbn.
  destruct (DEBUG_SUPPRESSED w) eqn:D; cbn;
    unfold logger_log, emit, modify, with_out; cbn;
    rewrite <- ?app_assoc; reflexivity.
Qed.

(** The read of the single-command path hands no task to the pool. *)
Lemma await_result_no_enqueue (w : World P) :
  exists evs,
    out (snd (await_result w)) = (out w ++ evs)%list /\ enqueued evs = [].
Proof.
  unfold await_result, try_except, bind, result_queue_get, bind, emit, modify,
    is_debug_suppressed, gets, print, logger_log, emit, modify.
  cbn. destruct (result_feed w) as [|[[wid res]|] feed]; cbn;
    try (destruct (DEBUG_SUPPRESSED w); cbn);
    eexists; (split; [rewrite <- ?app_assoc; reflexivity | reflexivity]).
Qed.

(** The three places where a task is handed to the pool, and the mapping
    that goes with it: the single-command path and a plain subcommand of a
    batch line hand over the argument mapping of the line after
    [_expand_env_in_args], under the environment of that moment; a
    subcommand of a batch line that is resolved as a chain hands over the
    chained value under the default key, as it is. *)
Lemma enqueue_paths :
  (forall (command command_line : string) (parts_all : list string) (w : World P),
     str_in command BUILTIN_NAMES = false ->
     exists evs,
       out (snd (single_command COMMANDS command command_line parts_all w))
         = (out w ++ evs)%list /\
       enqueued evs
         = [(command, _expand_env_in_args (environ w)
                        (_build_args_from_parts parts_all))]) /\
  (forall (n : nat) (sub first : string) (rest : list string)
          (w w1 : World P) (r : option string),
     tokens sub = first :: rest ->
     str_in first ["!pwsh"; "!cmd"] = false ->
     _evaluate_inner_chain_if_any COMMANDS (first :: rest) (Some sub) w
       = (Ret (false, r), w1) ->
     str_in first BUILTIN_NAMES = false ->
     exists w' evs,
       batch_subcommand COMMANDS None n sub w = (Ret (n + 1), w') /\
       out w' = (out w1 ++ evs)%list /\
       enqueued evs
         = [(first, _expand_env_in_args (environ w1)
                      (_build_args_from_parts (first :: rest)))]) /\
  (forall (n : nat) (sub first : string) (rest : list string)
          (w w1 : World P) (value : option string),
     tokens sub = first :: rest ->
     str_in first ["!pwsh"; "!cmd"] = false ->
     _evaluate_inner_chain_if_any COMMANDS (first :: rest) (Some sub) w
       = (Ret (true, value), w1) ->
     exists w' evs,
       batch_subcommand COMMANDS None n sub w = (Ret (n + 1), w') /\
       out w' = (out w1 ++ evs)%list /\
       enqueued evs = [(first, [("str", py_str value)])]).
Proof.
  split; [|split].
  - intros command command_line parts_all w Hb.
    unfold single_command. rewrite (run_builtin_unhandled COMMANDS _ _ Hb).
    unfold bind at 1. cbn [ret]. unfold bind at 1, gets.
    unfold bind at 1.
    destruct (dbg_enqueue_returns command_line w) as (w1 & evs1 & -> & Ho1 & [He1 _] & Henv).
    unfold bind at 1, add_task, emit, modify. cbn [fst snd].
    destruct (await_result_no_enqueue
                (with_out (out w1 ++ [EvEnqueue command
                     (_expand_env_in_args (environ w)
                        (_build_args_from_parts parts_all))])%list w1))
      as (evs2 & Ho2 & He2).
    eexists. split.
    + rewrite Ho2. cbn [out with_out]. rewrite Ho1, <- !app_assoc. reflexivity.
    + rewrite !enqueued_app, He1, He2. reflexivity.
  - intros n sub first rest w w1 r Ht Hs Hin Hb.
    unfold batch_subcommand. rewrite Ht, Hs.
    unfold bind at 1. rewrite Hin. cbv iota beta.
    rewrite (run_builtin_unhandled COMMANDS _ _ Hb).
    unfold bind at 1. cbn [ret]. unfold bind at 1, gets.
    unfold bind at 1.
    destruct (dbg_enqueue_returns sub w1) as (w2 & evs1 & -> & Ho1 & [He1 _] & Henv).
    unfold bind, add_task, emit, modify, ret. cbn.
    do 2 eexists. split; [reflexivity|]. cbn [out with_out]. split.
    + rewrite Ho1, <- app_assoc. reflexivity.
    + rewrite enqueued_app, He1. reflexivity.
  - intros n sub first rest w w1 value Ht Hs Hin.
    unfold batch_subcommand. rewrite Ht, Hs.
    unfold bind at 1. rewrite Hin. cbv iota beta.
    unfold bind at 1.
    destruct (dbg_enqueue_returns (first ++ " " ++ py_str value) w1)
      as (w2 & evs1 & -> & Ho1 & [He1 _] & Henv).
    unfold bind, add_task, emit, modify, ret. cbn.
    do 2 eexists. split; [reflexivity|]. cbn [out with_out]. split.
    + rewrite Ho1, <- app_assoc. reflexivity.
    + rewrite enqueued_app, He1. reflexivity.
Qed.

End EnqueueTheorems.

(** C2, as stated, fails: on the line [!mt echo a & echo b] both
    subcommands are built-ins; no task is enqueued and no result is read. *)
Lemma batch_echo_enqueues_nothing :
  let w' := snd (handle_input example_registry "!mt echo a & echo b" example_world) in
  str_in "a" COMMAND_NAMES = false /\ str_in "b" COMMAND_NAMES = false /\
  str_in "echo" BUILTIN_NAMES = true /\
  enqueued (out w') = [] /\ result_reads (out w') = [] /\
  length (enqueued (out w')) <> 2 /\ length (result_reads (out w')) <> 2.
Proof.
  vm_compute. repeat split; discriminate.
Qed.

(** C9, as stated, fails on the chain path of batch mode: with
    [HOME=/root], the line [!mt upper reverse EMOH$] hands [upper] the
    mapping with the value [$HOME], which variable expansion would turn
    into [/root]. *)
Lemma batch_chain_enqueues_unexpanded :
  let w' := snd (handle_input example_registry "!mt upper reverse EMOH$" example_world) in
  str_in "EMOH$" COMMAND_NAMES = false /\
  enqueued (out w') = [("upper", [("str", "$HOME")])] /\
  environ w' = [("HOME", "/root")] /\
  _expand_env_in_args (environ w') [("str", "$HOME")] = [("str", "/root")] /\
  _expand_env_in_args (environ w') [("str", "$HOME")] <> [("str", "$HOME")].
Proof.
  vm_compute. repeat split; discriminate.
Qed.

(** ** The first token of a line *)

Lemma append_assoc (a b c : string) : (a ++ b) ++ c = a ++ (b ++ c).
Proof.
  induction a as [|x a IH]; simpl; [reflexivity | now rewrite IH].
Qed.

Lemma append_empty_r (a : string) : a ++ EmptyString = a.
Proof.
  induction a as [|x a IH]; simpl; [reflexivity | now rewrite IH].
Qed.

Lemma rev_onto_app (s acc : string) :
  PyStr.rev_onto s acc = PyStr.reversed s ++ acc.
Proof.
  unfold PyStr.reversed. revert acc.
  induction s as [|c s IH]; intros acc; simpl.
  - reflexivity.
  - rewrite IH, (IH (String c EmptyString)).
    rewrite append_assoc. reflexivity.
Qed.

Lemma reversed_cons (c : ascii) (s : string) :
  PyStr.reversed (String c s) = PyStr.reversed s ++ String c EmptyString.
Proof.
  unfold PyStr.reversed at 1. simpl. apply rev_onto_app.
Qed.

(** Once a token has been started, the first token the lexer gives begins
    with what has been read of it. *)
Lemma lex_first_token_prefix (s : string) :
  forall st esc tok quoted t l,
    st <> Shlex.InSpace -> tok <> EmptyString ->
    Shlex.lex st esc tok quoted s = Shlex.Tokens (t :: l) ->
    exists u, t = PyStr.reversed tok ++ u.
Proof.
  induction s as [|c s IH]; intros st esc tok quoted t l Hst Htok H.
  - destruct st; simpl in H; try discriminate.
    unfold Shlex.emit in H. destruct tok; [contradiction|].
    simpl in H. injection H as <- _. exists EmptyString.
    now rewrite append_empty_r.
  - assert (Hgrow : forall st' esc' q' (x : ascii),
              st' <> Shlex.InSpace ->
              Shlex.lex st' esc' (String x tok) q' s = Shlex.Tokens (t :: l) ->
              exists u, t = PyStr.reversed tok ++ u).
    { intros st' esc' q' x Hst' H'.
      apply IH in H'; [|exact Hst'|discriminate].
      destruct H' as [u ->]. rewrite reversed_cons, append_assoc.
      eexists. reflexivity. }
    assert (Hkeep : forall st' esc' q',
              st' <> Shlex.InSpace ->
              Shlex.lex st' esc' tok q' s = Shlex.Tokens (t :: l) ->
              exists u, t = PyStr.reversed tok ++ u).
    { intros st' esc' q' Hst' H'. now apply IH in H'. }
    destruct st as [| |q|]; [contradiction| | |]; simpl in H.
    + destruct (Shlex.is_whitespace c).
      * destruct tok as [|x tok']; [contradiction|].
        cbn [PyStr.is_empty negb orb] in H.
        destruct (Shlex.lex Shlex.InSpace Shlex.EscWord EmptyString false s); simpl in H;
          [|discriminate].
        injection H as <- _. exists EmptyString.
        now rewrite append_empty_r.
      * destruct (Shlex.is_quote c); [eapply Hkeep; [|exact H]; discriminate|].
        destruct (Shlex.is_escape c); [eapply Hkeep; [|exact H]; discriminate|].
        eapply Hgrow; [|exact H]; discriminate.
    + destruct (Ascii.eqb c q); [eapply Hkeep; [|exact H]; discriminate|].
      destruct (Shlex.is_escape c && Shlex.is_escapedquote q);
        [eapply Hkeep; [|exact H]; discriminate|].
      eapply Hgrow; [|exact H]; discriminate.
    + destruct esc as [|q].
      * eapply Hgrow; [|exact H]; discriminate.
      * destruct (negb (Shlex.is_escape c) && negb (Ascii.eqb c q)).
        -- apply IH in H; [|discriminate|discriminate].
           destruct H as [u ->]. rewrite !reversed_cons, !append_assoc.
           eexists. reflexivity.
        -- eapply Hgrow; [|exact H]; discriminate.
Qed.

Lemma split_ws_first_token_prefix (s : string) :
  forall w t l,
    PyStr.split_ws_from (Some w) s = t :: l ->
    exists u, t = PyStr.reversed w ++ u.
Proof.
  induction s as [|c s IH]; intros w t l H; simpl in H.
  - injection H as <- _. exists EmptyString. now rewrite append_empty_r.
  - destruct (PyStr.isspace c).
    + injection H as <- _. exists EmptyString. now rewrite append_empty_r.
    + apply IH in H. destruct H as [u ->].
      rewrite reversed_cons, append_assoc. eexists. reflexivity.
Qed.

Lemma isspace_not_special (c : ascii) :
  PyStr.isspace c = true ->
  Shlex.is_quote c = false /\ Shlex.is_escape c = false.
Proof.
  destruct c as [[] [] [] [] [] [] [] []]; vm_compute; intuition congruence.
Qed.

Lemma split_ws_first_token (s : string) :
  forall c0 c1 r t l,
    PyStr.lstrip_by PyStr.isspace s = String c0 (String c1 r) ->
    PyStr.isspace c1 = false ->
    PyStr.split_ws s = t :: l ->
    exists u, t = String c0 (String c1 u).
Proof.
  unfold PyStr.split_ws.
  induction s as [|c s IH]; intros c0 c1 r t l Hs Hc1 H; simpl in Hs.
  - discriminate.
  - simpl in H. destruct (PyStr.isspace c) eqn:Ec.
    + eapply IH; eauto.
    + injection Hs as -> ->. simpl in H. rewrite Hc1 in H.
      apply split_ws_first_token_prefix in H. destruct H as [u ->].
      exists u. reflexivity.
Qed.

(** The first token of a line begins with the first two characters after
    the leading white space, or with a white-space character that the
    lexer does not skip. *)
Lemma tokens_first_token (s : string) :
  forall c0 c1 r t l,
    PyStr.lstrip_by PyStr.isspace s = String c0 (String c1 r) ->
    plain c0 = true -> plain c1 = true ->
    tokens s = t :: l ->
    (exists u, t = String c0 (String c1 u)) \/
    (exists c u, t = String c u /\ PyStr.isspace c = true).
Proof.
  induction s as [|c s IH]; intros c0 c1 r t l Hs Hp0 Hp1 H; simpl in Hs.
  - discriminate.
  - assert (Hc1 : PyStr.isspace c1 = false).
    { unfold plain in Hp1. destruct (PyStr.isspace c1); [discriminate | reflexivity]. }
    destruct (PyStr.isspace c) eqn:Ec.
    + destruct (Shlex.is_whitespace c) eqn:Ew.
      * (* skipped by both *)
        assert (Ht : tokens (String c s) = tokens s).
        { unfold tokens, Shlex.split, PyStr.split_ws. simpl. now rewrite Ew, Ec. }
        rewrite Ht in H. eapply IH; eauto.
      * destruct (isspace_not_special c Ec) as [Eq Ee].
        unfold tokens, Shlex.split in H. simpl in H. rewrite Ew, Ee, Eq in H.
        destruct (Shlex.lex Shlex.InWord Shlex.EscWord (String c EmptyString) false s)
          as [toks|msg] eqn:El.
        -- subst toks. apply lex_first_token_prefix in El;
             [|discriminate|discriminate].
           destruct El as [u ->]. right. exists c, u. split; [reflexivity | exact Ec].
        -- left. unfold PyStr.split_ws in H. simpl in H. rewrite Ec in H.
           eapply split_ws_first_token; eauto.
    + injection Hs as -> ->. left.
      unfold plain in Hp0, Hp1.
      destruct (PyStr.isspace c0) eqn:E0; [discriminate|].
      destruct (Shlex.is_whitespace c0) eqn:E1; [discriminate|].
      destruct (Shlex.is_quote c0) eqn:E2; [discriminate|].
      destruct (Shlex.is_escape c0) eqn:E3; [discriminate|].
      destruct (Shlex.is_whitespace c1) eqn:F1; [rewrite Hc1 in Hp1; discriminate|].
      destruct (Shlex.is_quote c1) eqn:F2; [rewrite Hc1 in Hp1; discriminate|].
      destruct (Shlex.is_escape c1) eqn:F3; [rewrite Hc1 in Hp1; discriminate|].
      unfold tokens, Shlex.split in H. simpl in H.
      rewrite E1, E3, E2, F1, F2, F3 in H.
      destruct (Shlex.lex Shlex.InWord Shlex.EscWord (String c1 (String c0 EmptyString)) false r)
        as [toks|msg] eqn:El.
      * subst toks. apply lex_first_token_prefix in El;
          [|discriminate|discriminate].
        destruct El as [u ->]. exists u. reflexivity.
      * eapply (split_ws_first_token (String c0 (String c1 r))); eauto.
        simpl. now rewrite E0.
Qed.

Lemma rstrip_by_head (p : ascii -> bool) (s : string) (a : ascii) (r : string) :
  PyStr.rstrip_by p s = String a r ->
  exists s', s = String a s' /\ PyStr.rstrip_by p s' = r.
Proof.
  destruct s as [|c s']; simpl; [discriminate|].
  destruct (PyStr.is_empty (PyStr.rstrip_by p s') && p c); [discriminate|].
  intros [= -> <-]. now exists s'.
Qed.

Lemma map_chars_head (f : ascii -> ascii) (s : string) (a : ascii) (r : string) :
  PyStr.map_chars f s = String a r ->
  exists c s', s = String c s' /\ f c = a /\ PyStr.map_chars f s' = r.
Proof.
  destruct s as [|c s']; simpl; [discriminate|].
  intros [= <- <-]. now exists c, s'.
Qed.

(** The characters that [str.lower] sends to the first two characters of
    a debug toggle. *)
Lemma toggle_char (c d : ascii) :
  PyStr.lower_char c = d ->
  d = "!"%char \/ d = "s"%char \/ d = "r"%char \/ d = "e"%char \/ d = "u"%char ->
  plain c = true /\ (d = "!"%char -> c = "!"%char) /\ (d <> "!"%char -> c <> "c"%char).
Proof.
  intros <- H.
  destruct c as [[] [] [] [] [] [] [] []];
    vm_compute in H;
    destruct H as [H | [H | [H | [H | H]]]]; try discriminate H;
    (split; [reflexivity|]); split; intros; try reflexivity; try discriminate;
    try congruence.
Qed.

Lemma toggle_first_token (cl : string) (a b : ascii) (T : string) :
  PyStr.lower (PyStr.strip cl) = String a (String b T) ->
  a = "!"%char ->
  b = "s"%char \/ b = "r"%char \/ b = "e"%char \/ b = "u"%char ->
  forall t l, tokens cl = t :: l -> t <> "!cmd".
Proof.
  intros Hl Ha Hb t l Ht ->.
  unfold PyStr.lower, PyStr.strip, PyStr.strip_by in Hl.
  apply map_chars_head in Hl. destruct Hl as (c0 & s1 & Hs & Hc0 & Hl).
  apply map_chars_head in Hl. destruct Hl as (c1 & s2 & -> & Hc1 & _).
  apply rstrip_by_head in Hs. destruct Hs as (s3 & Hs & Hs3).
  apply rstrip_by_head in Hs3. destruct Hs3 as (s4 & -> & _).
  destruct (toggle_char c0 a Hc0 (or_introl Ha)) as (Hp0 & Hbang & _).
  destruct (toggle_char c1 b Hc1 (or_intror Hb)) as (Hp1 & _ & Hnc).
  destruct (tokens_first_token cl c0 c1 s4 "!cmd" l Hs Hp0 Hp1 Ht)
    as [[u Hu] | (c & u & Hu & Hsp)].
  - injection Hu as _ Hc _. apply Hnc; [|now symmetry].
    destruct Hb as [-> | [-> | [-> | ->]]]; discriminate.
  - injection Hu as <- _. vm_compute in Hsp. discriminate.
Qed.

(** A line whose first token is [!cmd] is not a debug toggle. *)
Lemma cmd_line_not_toggle (cl : string) (rest : list string) :
  tokens cl = "!cmd" :: rest -> is_toggle cl = false.
Proof.
  intros Ht. destruct (is_toggle cl) eqn:E; [exfalso | reflexivity].
  unfold is_toggle in E. cbn [str_in existsb] in E.
  repeat match type of E with
         | (_ || _) = true => apply orb_true_iff in E; destruct E as [E | E]
         end;
    try discriminate E;
    apply String.eqb_eq in E;
    (eapply (toggle_first_token cl); [exact E | reflexivity | | exact Ht | reflexivity]);
    auto.
Qed.

(** White-space lines: nothing is left after dropping characters. *)
Lemma lstrip_by_drop (p : ascii -> bool) (s : string) :
  forall n, PyStr.lstrip_by p s = EmptyString ->
            PyStr.lstrip_by p (PyStr.drop n s) = EmptyString.
Proof.
  induction s as [|c s IH]; intros n H.
  - destruct n; reflexivity.
  - simpl in H. destruct (p c) eqn:Ep; [|discriminate].
    destruct n; simpl.
    + now rewrite Ep.
    + now apply IH.
Qed.

Lemma strip_empty_lstrip (s : string) :
  PyStr.strip s = EmptyString -> PyStr.lstrip_by PyStr.isspace s = EmptyString.
Proof.
  unfold PyStr.strip, PyStr.strip_by.
  assert (Hhead : forall x, PyStr.lstrip_by PyStr.isspace s = x ->
            match x with
            | EmptyString => True
            | String c _ => PyStr.isspace c = false
            end).
  { induction s as [|c s IH]; intros x Hx; simpl in Hx.
    - now subst.
    - destruct (PyStr.isspace c) eqn:Ec; [now apply IH | now subst]. }
  specialize (Hhead _ eq_refl).
  destruct (PyStr.lstrip_by PyStr.isspace s) as [|c r]; [reflexivity|].
  simpl. rewrite Hhead, andb_false_r. discriminate.
Qed.

Lemma blank_line_drop (s : string) (n : nat) :
  PyStr.is_empty s || PyStr.is_empty (PyStr.strip s) = true ->
  PyStr.strip (PyStr.drop n s) = EmptyString.
Proof.
  intros H.
  assert (Hs : PyStr.strip s = EmptyString).
  { apply orb_true_iff in H. destruct H as [H | H].
    - destruct s; [reflexivity | discriminate].
    - destruct (PyStr.strip s); [reflexivity | discriminate]. }
  apply strip_empty_lstrip in Hs.
  unfold PyStr.strip, PyStr.strip_by.
  now rewrite (lstrip_by_drop _ _ n Hs).
Qed.

Section ShellEscape.

Context {P : Platform}.
Variable COMMANDS : dict (Command P).

(** C10. For every line whose first token is [!cmd] and which has a
    command text after it (the line as [handle_input] tokenises it, after
    alias expansion), [handle_input] raises [AttributeError]: it looks up
    [run_cmd] in [shell_executor], which binds [run_cmd_stream] and no
    [run_cmd].  No process is started and nothing is shown for the line
    besides the debug notice of an alias expansion. *)
Theorem cmd_escape_raises_attribute_error (line : string) (w : World P)
    (rest : list string) :
  let cl := _expand_aliases_line (ALIASES w) line in
  tokens cl = "!cmd" :: rest ->
  PyStr.strip (PyStr.drop 4 cl) <> EmptyString ->
  str_in "run_cmd" shell_executor_names = false /\
  str_in "run_cmd_stream" shell_executor_names = true /\
  exists w',
    handle_input COMMANDS line w
      = (Raise (Exn "AttributeError"
                    "module 'modules.shell_executor' has no attribute 'run_cmd'"),
         w') /\
    (w' = w \/
     w' = with_out (out w ++ [EvLog ("Alias expanded: " ++ line ++ " -> " ++ cl)])%list w) /\
    spawned (out w') = spawned (out w).
Proof.
  intros cl Ht Hcmd.
  split; [reflexivity|]. split; [reflexivity|].
  assert (Hguard : PyStr.is_empty line || PyStr.is_empty (PyStr.strip line) = false).
  { destruct (PyStr.is_empty line || PyStr.is_empty (PyStr.strip line)) eqn:G;
      [exfalso | reflexivity].
    apply Hcmd. unfold cl, _expand_aliases_line. rewrite G.
    now apply blank_line_drop. }
  pose proof (cmd_line_not_toggle cl rest Ht) as Htog.
  unfold handle_input. rewrite Hguard.
  unfold bind at 1, gets. fold cl.
  unfold is_toggle in Htog. apply orb_false_iff in Htog. destruct Htog as [Ht1 Ht2].
  assert (Hbody : forall w1 : World P,
    dispatch_line COMMANDS cl w1
    = (Raise (Exn "AttributeError"
                  "module 'modules.shell_executor' has no attribute 'run_cmd'"), w1)).
  { intros w1. unfold dispatch_line. cbv zeta. rewrite Ht1, Ht2, Ht.
    cbn [String.eqb Ascii.eqb Bool.eqb String.length].
    destruct (PyStr.strip (PyStr.drop 4 cl)) eqn:Es; [contradiction|].
    reflexivity. }
  unfold alias_notice.
  unfold bind at 1.
  destruct (negb (cl =? line)) eqn:Eal.
  - unfold _dbg at 1, bind at 1, is_debug_suppressed, gets.
    destruct (DEBUG_SUPPRESSED w) eqn:D.
    + cbn [ret]. rewrite Hbody. exists w. auto.
    + unfold logger_log, emit, modify. rewrite Hbody.
      eexists. split; [reflexivity|]. split; [now right|].
      cbn [out with_out]. rewrite spawned_app. cbn. now rewrite app_nil_r.
  - cbn [ret]. rewrite Hbody. exists w. auto.
Qed.

End ShellEscape.

(** ** The statements at concrete inputs *)

Lemma worker_one_result_per_task_witness :
  Forall (fun it : dict (Command example_platform) * QueueItem => snd it <> None)
         [(example_registry, Some ("upper", [("str", "abc")]));
          (example_registry, Some ("nope", []))] /\
  exists r w' texts,
    Worker_run 7 [(example_registry, Some ("upper", [("str", "abc")]));
                  (example_registry, Some ("nope", []))] None example_world
      = (Ret (Waiting r), w') /\
    published (out w')
      = (published (out example_world) ++ map (fun t => (7, t)) texts)%list /\
    length texts = 2.
Proof.
  assert (H : Forall (fun it : dict (Command example_platform) * QueueItem =>
                        snd it <> None)
                     [(example_registry, Some ("upper", [("str", "abc")]));
                      (example_registry, Some ("nope", []))]).
  { repeat constructor; discriminate. }
  split; [exact H|].
  exact (proj2 (worker_one_result_per_task 7) _ None example_world H).
Defined.

Lemma container_round_trip_witness :
  let dumps := fun _ : Manifest nat => [x7b; x7d] in
  let loads := fun _ : bytes => @Returns unit tt in
  let compress := fun b : bytes => b in
  let decompress := fun b : bytes => Returns b in
  let decode := fun _ : bytes => "hi" in
  exists content j,
    compile_latin nat dumps compress (fun s => s) (fun s => (s, EmptyString)) "demo.latin"
                  [x68; x69] 0 "3.11" = Returns content /\
    load_le example_read_refused unit loads decompress decode "demo.le" content
      = Returns (j, [x68; x69], "hi") /\
    le_magic content = _LE_MAGIC /\
    length (le_magic content) = 7 /\
    le_manifest_len content = 2%N /\
    le_manifest_bytes content = [x7b; x7d] /\
    le_payload content = [x68; x69].
Proof.
  cbv zeta.
  apply (container_round_trip example_read_refused unit nat
           (fun _ => [x7b; x7d]) (fun _ => Returns tt)
           (fun b => b) (fun b => Returns b) (fun _ => "hi")
           (fun s => s) (fun s => (s, EmptyString))).
  - intros b. reflexivity.
  - intros m. exists tt. reflexivity.
  - vm_compute. reflexivity.
Defined.

Lemma load_le_fails_exactly_witness :
  let loads := fun _ : bytes => @Returns unit tt in
  let decompress := fun b : bytes => Returns b in
  let decode := fun _ : bytes => "hi" in
  let content := (_LE_MAGIC ++ to_bytes_be 8 2 ++ [x7b; x7d] ++ [x68; x69])%list in
  let promising := (_LE_MAGIC ++ to_bytes_be 8 (2 ^ 40) ++ [x7b; x7d])%list in
  (le_magic content = _LE_MAGIC /\
   loads (le_manifest_bytes content) = Returns tt /\
   decompress (le_payload content) = Returns [x68; x69] /\
   load_le example_read_refused unit loads decompress decode "demo.le" content
     = Returns (tt, [x68; x69], "hi")) /\
  (le_magic promising = _LE_MAGIC /\
   le_manifest_read example_read_refused promising
     = Raises (Exn "MemoryError" EmptyString) /\
   load_le example_read_refused unit loads decompress decode "demo.le" promising
     = Raises (Exn "MemoryError" EmptyString)).
Proof.
  cbv zeta. split.
  - assert (Hm : le_magic (_LE_MAGIC ++ to_bytes_be 8 2 ++ [x7b; x7d] ++ [x68; x69])%list
                 = _LE_MAGIC) by (vm_compute; reflexivity).
    assert (Hg : (fun b : bytes => Returns b)
                   (le_payload (_LE_MAGIC ++ to_bytes_be 8 2 ++ [x7b; x7d]
                                ++ [x68; x69])%list)
                 = Returns [x68; x69]) by (vm_compute; reflexivity).
    split; [exact Hm|]. split; [reflexivity|]. split; [exact Hg|].
    refine (proj2 (proj2 (proj2 (proj2 (proj2
              (load_le_fails_exactly example_read_refused unit (fun _ => Returns tt)
                 (fun b => Returns b) (fun _ => "hi") "demo.le"
                 (_LE_MAGIC ++ to_bytes_be 8 2 ++ [x7b; x7d] ++ [x68; x69])%list)))))
              Hm tt [x68; x69] _ eq_refl Hg).
    intros e. vm_compute. discriminate.
  - assert (Hm : le_magic (_LE_MAGIC ++ to_bytes_be 8 (2 ^ 40) ++ [x7b; x7d])%list
                 = _LE_MAGIC) by (vm_compute; reflexivity).
    assert (Hr : le_manifest_read example_read_refused
                   (_LE_MAGIC ++ to_bytes_be 8 (2 ^ 40) ++ [x7b; x7d])%list
                 = Raises (Exn "MemoryError" EmptyString)) by (vm_compute; reflexivity).
    split; [exact Hm|]. split; [exact Hr|].
    exact (proj1 (proj2 (proj2
             (load_le_fails_exactly example_read_refused unit (fun _ => Returns tt)
                (fun b => Returns b) (fun _ => "hi") "demo.le"
                (_LE_MAGIC ++ to_bytes_be 8 (2 ^ 40) ++ [x7b; x7d])%list)))
             Hm _ Hr).
Defined.



Lemma cmd_escape_raises_attribute_error_witness :
  tokens (_expand_aliases_line (ALIASES example_world) "!cmd dir") = ["!cmd"; "dir"] /\
  PyStr.strip (PyStr.drop 4 (_expand_aliases_line (ALIASES example_world) "!cmd dir"))
    <> EmptyString /\
  exists w',
    handle_input example_registry "!cmd dir" example_world
      = (Raise (Exn "AttributeError"
                    "module 'modules.shell_executor' has no attribute 'run_cmd'"),
         w').
Proof.
  assert (Hs : PyStr.strip (PyStr.drop 4
                 (_expand_aliases_line (ALIASES example_world) "!cmd dir"))
               <> EmptyString) by (vm_compute; discriminate).
  split; [reflexivity|]. split; [exact Hs|].
  destruct (cmd_escape_raises_attribute_error example_registry "!cmd dir"
              example_world ["dir"] eq_refl Hs) as (_ & _ & w' & H & _).
  exists w'. exact H.
Defined.

(** * Further properties *)

(** ** Variable expansion *)

Lemma expand_is_env_sub (env : dict string) (s : string) :
  _expand_env_in_str env s = env_sub env 0 s.
Proof.
  unfold _expand_env_in_str. destruct s; reflexivity.
Qed.

Lemma match_env_pattern_other (c : ascii) (r : string) :
  Ascii.eqb c "$"%char = false -> match_env_pattern (String c r) = None.
Proof.
  destruct c as [[] [] [] [] [] [] [] []]; intros H; try reflexivity; discriminate H.
Qed.

(** X1. A text without a dollar sign is left as it is by variable
    expansion, whatever the environment holds. *)
Theorem expand_env_without_dollar (env : dict string) (s : string) :
  PyStr.contains "$" s = false -> _expand_env_in_str env s = s.
Proof.
  rewrite expand_is_env_sub.
  induction s as [|c s IH]; intros H; [reflexivity|].
  cbn [PyStr.contains PyStr.startswith] in H.
  apply orb_false_iff in H. destruct H as [Hc Hs].
  rewrite andb_true_r in Hc.
  cbn [env_sub]. rewrite match_env_pattern_other.
  - now rewrite IH.
  - rewrite Ascii.eqb_sym. exact Hc.
Qed.

Lemma take_word_name (n rest : string) :
  all_chars PyStr.is_word n = true -> ends_name rest = true ->
  take_word (n ++ rest) = (n, rest).
Proof.
  intros Hn Hr. induction n as [|c n IH]; cbn in *.
  - destruct rest as [|c r]; [reflexivity|].
    cbn in Hr. apply negb_true_iff in Hr. cbn. now rewrite Hr.
  - apply andb_true_iff in Hn. destruct Hn as [Hc Hn].
    rewrite Hc, (IH Hn). reflexivity.
Qed.

Lemma take_name_identifier (n rest : string) :
  is_identifier n = true -> ends_name rest = true ->
  take_name (n ++ rest) = Some (n, rest).
Proof.
  intros Hn Hr. destruct n as [|c n]; [discriminate|].
  cbn in Hn. apply andb_true_iff in Hn. destruct Hn as [Hc Hn].
  cbn. rewrite Hc, (take_word_name n rest Hn Hr). reflexivity.
Qed.

Lemma env_sub_skip (env : dict string) (s rest : string) (k : nat) :
  env_sub env (String.length s + k) (s ++ rest) = env_sub env k rest.
Proof.
  induction s as [|c s IH]; [reflexivity|]. cbn. exact IH.
Qed.

Lemma name_start_not_brace (c : ascii) :
  PyStr.is_name_start c = true -> Ascii.eqb c "{"%char = false.
Proof.
  destruct c as [[] [] [] [] [] [] [] []]; vm_compute; congruence.
Qed.

Lemma match_env_braces (n rest : string) :
  is_identifier n = true ->
  match_env_pattern ("${" ++ n ++ "}" ++ rest) = Some (n, 3 + String.length n).
Proof.
  intros Hn.
  change ("${" ++ n ++ "}" ++ rest) with (String "$" (String "{" (n ++ "}" ++ rest))).
  unfold match_env_pattern.
  change (PyStr.startswith "env:" (String "{" (n ++ "}" ++ rest))) with false.
  cbv iota beta zeta.
  rewrite (take_name_identifier n ("}" ++ rest) Hn eq_refl).
  reflexivity.
Qed.

Lemma match_env_prefixed (n rest : string) :
  is_identifier n = true -> ends_name rest = true ->
  match_env_pattern ("$env:" ++ n ++ rest) = Some (n, 5 + String.length n).
Proof.
  intros Hn Hr.
  change ("$env:" ++ n ++ rest) with (String "$" ("env:" ++ n ++ rest)).
  unfold match_env_pattern.
  change (PyStr.startswith "env:" ("env:" ++ n ++ rest)) with true.
  change (PyStr.drop 4 ("env:" ++ n ++ rest)) with (n ++ rest).
  cbv iota beta zeta.
  rewrite (take_name_identifier n rest Hn Hr).
  reflexivity.
Qed.

Lemma match_env_bare (n rest : string) :
  is_identifier n = true -> ends_name rest = true ->
  PyStr.startswith "env:" (n ++ rest) = false ->
  match_env_pattern ("$" ++ n ++ rest) = Some (n, 1 + String.length n).
Proof.
  intros Hn Hr He.
  change ("$" ++ n ++ rest) with (String "$" (n ++ rest)).
  unfold match_env_pattern. rewrite He.
  rewrite (take_name_identifier n rest Hn Hr).
  destruct n as [|c n]; [discriminate|].
  cbn in Hn. apply andb_true_iff in Hn. destruct Hn as [Hc _].
  apply name_start_not_brace in Hc.
  cbn [append].
  destruct c as [[] [] [] [] [] [] [] []]; try reflexivity; discriminate Hc.
Qed.

Lemma expand_env_braces (env : dict string) (n rest : string) :
  is_identifier n = true ->
  _expand_env_in_str env ("${" ++ n ++ "}" ++ rest)
  = get_str env n ++ _expand_env_in_str env rest.
Proof.
  intros Hn. rewrite !expand_is_env_sub.
  pose proof (match_env_braces n rest Hn) as Hm.
  change ("${" ++ n ++ "}" ++ rest) with (String "$" (String "{" (n ++ "}" ++ rest))) in *.
  cbn [env_sub]. rewrite Hm. f_equal.
  replace (3 + String.length n - 1) with (S (String.length n + 1)) by lia.
  cbn [env_sub]. rewrite env_sub_skip. reflexivity.
Qed.

Lemma expand_env_prefixed (env : dict string) (n rest : string) :
  is_identifier n = true -> ends_name rest = true ->
  _expand_env_in_str env ("$env:" ++ n ++ rest)
  = get_str env n ++ _expand_env_in_str env rest.
Proof.
  intros Hn Hr. rewrite !expand_is_env_sub.
  pose proof (match_env_prefixed n rest Hn Hr) as Hm.
  change ("$env:" ++ n ++ rest) with (String "$" ("env:" ++ n ++ rest)) in *.
  cbn [env_sub]. rewrite Hm. f_equal.
  replace (5 + String.length n - 1) with (4 + (String.length n + 0)) by lia.
  change ("env:" ++ n ++ rest)
    with (String "e" (String "n" (String "v" (String ":" (n ++ rest))))).
  cbn [env_sub Nat.add]. apply env_sub_skip.
Qed.

Lemma expand_env_bare (env : dict string) (n rest : string) :
  is_identifier n = true -> ends_name rest = true ->
  PyStr.startswith "env:" (n ++ rest) = false ->
  _expand_env_in_str env ("$" ++ n ++ rest)
  = get_str env n ++ _expand_env_in_str env rest.
Proof.
  intros Hn Hr He. rewrite !expand_is_env_sub.
  pose proof (match_env_bare n rest Hn Hr He) as Hm.
  change ("$" ++ n ++ rest) with (String "$" (n ++ rest)) in *.
  cbn [env_sub]. rewrite Hm. f_equal.
  replace (1 + String.length n - 1) with (String.length n + 0) by lia.
  apply env_sub_skip.
Qed.

(** X2. The three ways of writing a variable reference.  For a variable
    name [n], the reference in braces followed by any text, and the
    references [$env:n] and [$n] followed by a text at which the name ends
    (for [$n]: unless it reads [$env:...]), are replaced by the value of
    [n] in the environment, or by nothing when [n] is not set; the text
    that follows is expanded in turn. *)
Theorem expand_env_reference_forms (env : dict string) (n rest : string) :
  is_identifier n = true ->
  _expand_env_in_str env ("${" ++ n ++ "}" ++ rest)
    = get_str env n ++ _expand_env_in_str env rest /\
  (ends_name rest = true ->
   _expand_env_in_str env ("$env:" ++ n ++ rest)
     = get_str env n ++ _expand_env_in_str env rest) /\
  (ends_name rest = true -> PyStr.startswith "env:" (n ++ rest) = false ->
   _expand_env_in_str env ("$" ++ n ++ rest)
     = get_str env n ++ _expand_env_in_str env rest).
Proof.
  intros Hn. split; [|split].
  - now apply expand_env_braces.
  - intros Hr. now apply expand_env_prefixed.
  - intros Hr He. now apply expand_env_bare.
Qed.

Lemma expand_env_reference_forms_witness :
  is_identifier "HOME" = true /\
  _expand_env_in_str [("HOME", "/root")] ("${HOME}" ++ "/bin") = "/root/bin" /\
  _expand_env_in_str [("HOME", "/root")] ("$env:HOME" ++ "/bin") = "/root/bin" /\
  _expand_env_in_str [("HOME", "/root")] ("$HOME" ++ "/bin") = "/root/bin".
Proof.
  split; [reflexivity|].
  destruct (expand_env_reference_forms [("HOME", "/root")] "HOME" "/bin" eq_refl)
    as (H1 & H2 & H3).
  split; [exact H1|]. split; [exact (H2 eq_refl) | exact (H3 eq_refl eq_refl)].
Defined.

Lemma expand_env_without_dollar_witness :
  PyStr.contains "$" "plain text" = false /\
  _expand_env_in_str [("HOME", "/root")] "plain text" = "plain text".
Proof.
  split; [reflexivity|].
  apply (expand_env_without_dollar [("HOME", "/root")] "plain text"). reflexivity.
Defined.

(** ** Mappings *)

Lemma dict_get_set_same {V : Type} (d : dict V) (k : string) (v : V) :
  dict_get (dict_set d k v) k = Some v.
Proof.
  induction d as [|[k' v'] d IH]; cbn.
  - now rewrite String.eqb_refl.
  - destruct (String.eqb k' k) eqn:E; cbn; now rewrite E.
Qed.

Lemma dict_get_set_other {V : Type} (d : dict V) (k k' : string) (v : V) :
  k' <> k -> dict_get (dict_set d k v) k' = dict_get d k'.
Proof.
  intros Hk. induction d as [|[k0 v0] d IH]; cbn.
  - destruct (String.eqb k k') eqn:E; [|reflexivity].
    apply String.eqb_eq in E. congruence.
  - destruct (String.eqb k0 k) eqn:E; cbn.
    + apply String.eqb_eq in E. subst k0.
      destruct (String.eqb k k') eqn:E'; [|reflexivity].
      apply String.eqb_eq in E'. congruence.
    + now rewrite IH.
Qed.

Lemma dict_get_none_keys {V : Type} (d : dict V) (k : string) :
  dict_get d k = None <-> ~ In k (map fst d).
Proof.
  induction d as [|[k' v'] d IH]; cbn.
  - tauto.
  - destruct (String.eqb k' k) eqn:E.
    + apply String.eqb_eq in E. split; [discriminate | tauto].
    + apply String.eqb_neq in E. tauto.
Qed.

Lemma dict_set_fresh {V : Type} (d : dict V) (k : string) (v : V) :
  dict_get d k = None -> dict_set d k v = (d ++ [(k, v)])%list.
Proof.
  induction d as [|[k' v'] d IH]; cbn; [reflexivity|].
  destruct (String.eqb k' k); [discriminate|].
  intros H. now rewrite IH.
Qed.

Lemma dict_set_keys {V : Type} (d : dict V) (k : string) (v : V) :
  map fst (dict_set d k v)
  = if dict_has d k then map fst d else (map fst d ++ [k])%list.
Proof.
  unfold dict_has. induction d as [|[k' v'] d IH]; cbn; [reflexivity|].
  destruct (String.eqb k' k) eqn:E; cbn; [reflexivity|].
  rewrite IH. now destruct (dict_get d k).
Qed.

Lemma dict_set_unique {V : Type} (d : dict V) (k : string) (v : V) :
  unique_keys d -> unique_keys (dict_set d k v).
Proof.
  unfold unique_keys. intros Hd. rewrite dict_set_keys. unfold dict_has.
  destruct (dict_get d k) eqn:E; [exact Hd|].
  apply dict_get_none_keys in E.
  apply NoDup_app; [exact Hd | repeat constructor; intros [] | ].
  intros x Hx [<- | []]. contradiction.
Qed.

(** ** The three loops over the tokens of a line *)

Lemma scan_args_step (t v : string) (rest : list string) (args : dict string)
    (positional : list string) :
  scan_args (t :: v :: rest) args positional
  = if is_flag t then scan_args rest (dict_set args (lstrip_dashes t) v) positional
    else scan_args (v :: rest) args (positional ++ [t])%list.
Proof. reflexivity. Qed.

Lemma positional_of_step (t v : string) (rest : list string) :
  positional_of (t :: v :: rest)
  = if is_flag t then positional_of rest else t :: positional_of (v :: rest).
Proof. reflexivity. Qed.

Lemma pos_indices_from_step (i : nat) (t v : string) (rest : list string) :
  pos_indices_from i (t :: v :: rest)
  = if is_flag t then pos_indices_from (i + 2) rest
    else i :: pos_indices_from (i + 1) (v :: rest).
Proof. reflexivity. Qed.

Lemma consumed_from_step (i : nat) (t v : string) (rest : list string) :
  consumed_from i (t :: v :: rest)
  = if is_flag t then consumed_from (i + 2) rest
    else consumed_from (i + 1) (v :: rest).
Proof. reflexivity. Qed.

Lemma scan_args_unique (n : nat) :
  forall rest args positional, length rest <= n ->
    unique_keys args -> unique_keys (fst (scan_args rest args positional)).
Proof.
  induction n as [|n IH]; intros rest args positional Hn Ha.
  - destruct rest; [exact Ha | simpl in Hn; lia].
  - destruct rest as [|t [|v rest']]; try exact Ha.
    simpl in Hn. rewrite scan_args_step. destruct (is_flag t).
    + apply IH; [lia | now apply dict_set_unique].
    + apply IH; [simpl; lia | exact Ha].
Qed.

Lemma build_args_unique (parts : list string) :
  unique_keys (_build_args_from_parts parts).
Proof.
  unfold _build_args_from_parts.
  pose proof (scan_args_unique (length (tl parts)) (tl parts) [] []
                (le_n _) (NoDup_nil _)) as H.
  destruct (scan_args (tl parts) [] []) as [args positional]. cbn in H.
  destruct positional; [exact H|].
  destruct (dict_has args "str"); [exact H | now apply dict_set_unique].
Qed.

Lemma expand_args_from (env : dict string) (args acc : dict string) :
  NoDup (map fst acc ++ map fst args) ->
  fold_left (fun out kv => dict_set out (fst kv) (_expand_env_in_str env (snd kv)))
            args acc
  = (acc ++ map (fun kv => (fst kv, _expand_env_in_str env (snd kv))) args)%list.
Proof.
  revert acc.
  induction args as [|[k v] args IH]; intros acc H; cbn.
  - now rewrite app_nil_r.
  - cbn in H. rewrite dict_set_fresh.
    + rewrite IH.
      * now rewrite <- app_assoc.
      * rewrite map_app, <- app_assoc. exact H.
    + apply dict_get_none_keys.
      apply NoDup_remove_2 in H. intros Hin. apply H.
      apply in_or_app. now left.
Qed.

(** X3. Expanding an argument mapping keeps its keys and their order and
    expands each value on its own; the mappings the dispatcher builds from
    the tokens of a line have pairwise different keys, so this holds for
    every mapping it hands to a command. *)
Theorem expand_env_in_args_pointwise (env : dict string) :
  (forall args : dict string,
     unique_keys args ->
     _expand_env_in_args env args
     = map (fun kv => (fst kv, _expand_env_in_str env (snd kv))) args) /\
  (forall parts : list string,
     _expand_env_in_args env (_build_args_from_parts parts)
     = map (fun kv => (fst kv, _expand_env_in_str env (snd kv)))
           (_build_args_from_parts parts)).
Proof.
  assert (H : forall args : dict string,
     unique_keys args ->
     _expand_env_in_args env args
     = map (fun kv => (fst kv, _expand_env_in_str env (snd kv))) args).
  { intros args Ha. unfold _expand_env_in_args.
    now rewrite (expand_args_from env args [] Ha). }
  split; [exact H|].
  intros parts. apply H, build_args_unique.
Qed.

Lemma expand_env_in_args_pointwise_witness :
  unique_keys [("str", "$HOME"); ("n", "2")] /\
  _expand_env_in_args [("HOME", "/root")] [("str", "$HOME"); ("n", "2")]
  = [("str", "/root"); ("n", "2")].
Proof.
  assert (U : unique_keys [("str", "$HOME"); ("n", "2")]).
  { repeat constructor; cbn; intuition discriminate. }
  split; [exact U|].
  exact (proj1 (expand_env_in_args_pointwise [("HOME", "/root")]) _ U).
Defined.


Lemma consumed_from_length (n : nat) :
  forall rest i, length rest <= n -> consumed_from i rest = i + length rest.
Proof.
  induction n as [|n IH]; intros rest i Hn.
  - destruct rest; [simpl; lia | simpl in Hn; lia].
  - destruct rest as [|t [|v rest']]; [simpl; lia | simpl; lia |].
    simpl in Hn. rewrite consumed_from_step. destruct (is_flag t).
    + rewrite IH by lia. simpl. lia.
    + rewrite IH by (simpl; lia). simpl. lia.
Qed.

Lemma consumed_length_cons (command : string) (rest : list string) :
  _consumed_length (command :: rest) = S (length rest).
Proof.
  unfold _consumed_length. cbn [tl].
  rewrite (consumed_from_length (length rest)) by lia. reflexivity.
Qed.

(** X4. The number of tokens a command consumes is the number of tokens
    from the command to the end of the line, flags with their values and
    positional tokens alike: what chain resolution puts in the place of
    an inner command reaches to the end of the line. *)
Theorem consumed_length_reaches_end (command : string) (rest : list string) :
  _consumed_length (command :: rest) = length (command :: rest) /\
  _consumed_length [] = 1 /\
  forall before : list string,
    skipn (length before + _consumed_length (command :: rest))
          (before ++ command :: rest)%list = [].
Proof.
  rewrite consumed_length_cons. split; [reflexivity|]. split; [reflexivity|].
  intros before. apply skipn_all2. rewrite length_app. cbn [length]. lia.
Qed.

Lemma pos_indices_point (n : nat) :
  forall rest pre, length rest <= n ->
    map (nth_error (pre ++ rest)) (pos_indices_from (length pre) rest)
    = map Some (positional_of rest) /\
    Forall (fun i => length pre <= i < length pre + length rest)
           (pos_indices_from (length pre) rest).
Proof.
  induction n as [|n IH]; intros rest pre Hn.
  - destruct rest; [split; [reflexivity | constructor] | simpl in Hn; lia].
  - destruct rest as [|t [|v rest']].
    + split; [reflexivity | constructor].
    + cbn. rewrite nth_error_app2 by lia. rewrite Nat.sub_diag. cbn.
      split; [reflexivity|]. repeat constructor. lia.
    + simpl in Hn. rewrite pos_indices_from_step, positional_of_step.
      destruct (is_flag t).
      * destruct (IH rest' (pre ++ [t; v])%list ltac:(lia)) as [H1 H2].
        rewrite length_app in H1, H2. cbn [length] in H1, H2.
        rewrite <- app_assoc in H1.
        change ([t; v] ++ rest')%list with (t :: v :: rest') in H1.
        split; [exact H1|].
        eapply Forall_impl; [|exact H2]. cbn beta. intros i Hi.
        cbn [length]. lia.
      * destruct (IH (v :: rest') (pre ++ [t])%list ltac:(simpl; lia)) as [H1 H2].
        rewrite length_app in H1, H2. cbn [length] in H1, H2.
        rewrite <- app_assoc in H1.
        change ([t] ++ v :: rest')%list with (t :: v :: rest') in H1.
        cbn [map]. rewrite nth_error_app2 by lia. rewrite Nat.sub_diag. cbn [nth_error].
        split; [now rewrite H1|].
        constructor.
        -- cbn [length]. lia.
        -- eapply Forall_impl; [|exact H2]. cbn beta. intros i Hi.
           cbn [length] in *. lia.
Qed.

(** X5. The index list that chain resolution keeps beside the positional
    tokens points at them: the k-th index is a valid position of the token
    list, after the command, and the token there is the k-th positional
    token. *)
Theorem positional_indices_point_at_tokens (parts : list string) :
  map (nth_error parts) (pos_indices_from 1 (tl parts))
  = map Some (_extract_positional parts) /\
  Forall (fun i => 1 <= i < length parts) (pos_indices_from 1 (tl parts)).
Proof.
  destruct parts as [|c rest].
  - split; [reflexivity | constructor].
  - destruct (pos_indices_point (length rest) rest [c] (le_n _)) as [H1 H2].
    split; [exact H1|]. eapply Forall_impl; [|exact H2].
    cbn. intros i Hi. lia.
Qed.

Lemma scan_args_plain (rest : list string) :
  forall args positional,
    forallb (fun t => negb (is_flag t)) rest = true ->
    scan_args rest args positional = (args, (positional ++ rest)%list).
Proof.
  induction rest as [|t rest IH]; intros args positional H.
  - cbn. now rewrite app_nil_r.
  - cbn [forallb] in H. apply andb_true_iff in H. destruct H as [Ht Hr].
    apply negb_true_iff in Ht.
    destruct rest as [|v rest'].
    + reflexivity.
    + rewrite scan_args_step, Ht. rewrite IH by exact Hr.
      now rewrite <- app_assoc.
Qed.

(** X6. The argument mapping of a line.  When no token after the command
    is a flag, the mapping holds the tokens joined by single spaces under
    the key [str] and nothing else.  When the first token after the command
    is the flag [--str] with a value, the mapping holds that value under
    [str] and the positional tokens that follow are not in it. *)
Theorem build_args_default_key (command : string) (rest : list string) :
  forallb (fun t => negb (is_flag t)) rest = true ->
  (rest <> [] ->
   _build_args_from_parts (command :: rest) = [("str", PyStr.join " " rest)]) /\
  _build_args_from_parts [command] = [] /\
  (forall v : string,
     _build_args_from_parts (command :: "--str" :: v :: rest) = [("str", v)]).
Proof.
  intros H. split; [|split].
  - intros Hne. unfold _build_args_from_parts. cbn [tl].
    rewrite (scan_args_plain rest [] [] H). cbn [app].
    destruct rest; [contradiction | reflexivity].
  - reflexivity.
  - intros v. unfold _build_args_from_parts. cbn [tl scan_args].
    change (is_flag "--str") with true. cbv iota.
    change (lstrip_dashes "--str") with "str".
    rewrite (scan_args_plain rest _ [] H). cbn [app dict_set].
    destruct rest; reflexivity.
Qed.

Lemma build_args_default_key_witness :
  forallb (fun t => negb (is_flag t)) ["a"; "b"] = true /\
  _build_args_from_parts ["upper"; "a"; "b"] = [("str", "a b")] /\
  _build_args_from_parts ["upper"; "--str"; "x"; "a"; "b"] = [("str", "x")].
Proof.
  split; [reflexivity|].
  destruct (build_args_default_key "upper" ["a"; "b"] eq_refl) as (H1 & _ & H3).
  split; [apply H1; discriminate | apply H3].
Defined.

(** ** Chains *)

Lemma take_chain_split (known : string -> bool) (l : list string) :
  exists post,
    l = (take_chain known l ++ post)%list /\
    forallb known (take_chain known l) = true /\
    match post with [] => True | t :: _ => known t = false end.
Proof.
  induction l as [|t l (post & Hl & Hk & Hp)]; cbn.
  - exists []. auto.
  - destruct (known t) eqn:K.
    + exists post. cbn. rewrite K, Hk. split; [now rewrite <- Hl | auto].
    + exists (t :: l). auto.
Qed.

Lemma find_chain_run (known : string -> bool) (l : list string) :
  forall i,
    match find_chain known i l with
    | Some (j, chain) =>
        exists pre post,
          l = (pre ++ chain ++ post)%list /\ j = i + length pre /\
          forallb (fun t => negb (known t)) pre = true /\
          forallb known chain = true /\ chain <> [] /\
          match post with [] => True | t :: _ => known t = false end
    | None => forallb (fun t => negb (known t)) l = true
    end.
Proof.
  induction l as [|t l IH]; intros i; [reflexivity|].
  cbn [find_chain]. destruct (known t) eqn:K.
  - destruct (take_chain_split known (t :: l)) as (post & Hl & Hk & Hp).
    cbn [take_chain] in *. rewrite K in *.
    exists [], post. cbn [app length forallb]. repeat split; auto.
    discriminate.
  - specialize (IH (S i)). destruct (find_chain known (S i) l) as [[j chain]|].
    + destruct IH as (pre & post & Hl & Hj & Hpre & Hk & Hne & Hp).
      exists (t :: pre), post. cbn [app length forallb]. rewrite K, Hpre.
      repeat split; auto; [now rewrite Hl | lia].
    + cbn [forallb]. now rewrite K, IH.
Qed.

(** X7. The chain that chain resolution finds among the positional tokens
    is the first maximal run of command names: the tokens before it are no
    command names, every token of it is one, it is not empty, and the token
    after it (if any) is none; no chain is found exactly when no positional
    token is a command name. *)
Theorem find_chain_first_maximal_run (known : string -> bool) (l : list string) :
  match find_chain known 0 l with
  | Some (j, chain) =>
      exists pre post,
        l = (pre ++ chain ++ post)%list /\ j = length pre /\
        forallb (fun t => negb (known t)) pre = true /\
        forallb known chain = true /\ chain <> [] /\
        match post with [] => True | t :: _ => known t = false end
  | None => forallb (fun t => negb (known t)) l = true
  end.
Proof.
  exact (find_chain_run known l 0).
Qed.

Lemma find_chain_none (known : string -> bool) (l : list string) :
  forall i, forallb (fun t => negb (known t)) l = true -> find_chain known i l = None.
Proof.
  induction l as [|t l IH]; intros i H; [reflexivity|].
  cbn [forallb] in H. apply andb_true_iff in H. destruct H as [Ht Hl].
  apply negb_true_iff in Ht. cbn [find_chain]. rewrite Ht. now apply IH.
Qed.

Lemma take_chain_none (known : string -> bool) (l : list string) :
  forallb (fun t => negb (known t)) l = true -> take_chain known l = [].
Proof.
  destruct l as [|t l]; [reflexivity|].
  cbn [forallb]. intros H. apply andb_true_iff in H. destruct H as [Ht _].
  apply negb_true_iff in Ht. cbn. now rewrite Ht.
Qed.

Lemma positional_of_forallb (p : string -> bool) (n : nat) :
  forall rest, length rest <= n ->
    forallb p rest = true -> forallb p (positional_of rest) = true.
Proof.
  induction n as [|n IH]; intros rest Hn H.
  - destruct rest; [reflexivity | simpl in Hn; lia].
  - destruct rest as [|t [|v rest']]; try exact H.
    simpl in Hn. rewrite positional_of_step.
    cbn [forallb] in H. apply andb_true_iff in H. destruct H as [Ht H].
    destruct (is_flag t).
    + apply IH; [lia|]. cbn [forallb] in H.
      apply andb_true_iff in H. tauto.
    + cbn [forallb]. rewrite Ht. apply IH; [simpl; lia | exact H].
Qed.

Lemma positional_of_plain_head (t : string) (rest : list string) :
  is_flag t = false -> positional_of (t :: rest) = t :: positional_of rest.
Proof.
  intros Ht. destruct rest as [|v rest]; [reflexivity|].
  now rewrite positional_of_step, Ht.
Qed.

Lemma pos_indices_plain_head (i : nat) (t : string) (rest : list string) :
  is_flag t = false ->
  pos_indices_from i (t :: rest) = i :: pos_indices_from (i + 1) rest.
Proof.
  intros Ht. destruct rest as [|v rest]; [reflexivity|].
  now rewrite pos_indices_from_step, Ht.
Qed.

Section ChainTheorems.

Context {P : Platform}.
Variable COMMANDS : dict (Command P).

(** X8. When no positional token of a line is a command name (or every
    such token stands quoted in the line), chain resolution answers "not
    applicable" and leaves the state of the process as it is: no command
    and no built-in is called.  [handle_input] then treats the line as a
    single command. *)
Theorem chain_needs_a_command_token (command : string) (parts : list string)
    (original_text : option string) (w : World P) :
  forallb (fun t => negb (recognized COMMANDS original_text t))
          (_extract_positional parts) = true ->
  _evaluate_composed_chain_if_any COMMANDS command parts original_text w
    = (Ret (false, None), w) /\
  _evaluate_inner_chain_if_any COMMANDS parts original_text w
    = (Ret (false, None), w) /\
  forall command_line : string,
    original_text = Some command_line ->
    ordinary_dispatch COMMANDS command command_line parts w
    = single_command COMMANDS command command_line parts w.
Proof.
  intros H.
  assert (E : _evaluate_composed_chain_if_any COMMANDS command parts original_text w
              = (Ret (false, None), w)).
  { unfold _evaluate_composed_chain_if_any.
    rewrite (find_chain_none _ _ 0 H).
    destruct (_extract_positional parts); [reflexivity|].
    destruct (pos_indices_from 1 (tl parts)); reflexivity. }
  split; [exact E|]. split.
  - unfold _evaluate_inner_chain_if_any.
    rewrite (take_chain_none _ _ H).
    destruct (_extract_positional parts); reflexivity.
  - intros command_line ->. unfold ordinary_dispatch, bind. now rewrite E.
Qed.

End ChainTheorems.

Section ChainOfTwo.

Context {P : Platform}.
Variable COMMANDS : dict (Command P).

Lemma bind_ret_l {A B : Type} (a : A) (k : A -> M P B) : bind (ret a) k = k a.
Proof. reflexivity. Qed.

Lemma invoke_cases (c : Command P) (args : dict string) (w : World P) :
  (exists v w', invoke c args w = (Ret v, w')) \/
  (exists e w', invoke c args w = (Raise e, w')).
Proof.
  unfold invoke.
  destruct (call c args (environ w) (os w)) as [[v|e] [env' os']]; cbn;
    [left | right]; do 2 eexists; reflexivity.
Qed.

(** X9. A chain of two commands is their composition.  For a line
    [outer inner rest...] where [outer] and [inner] are commands of the
    registry (no built-ins), [inner] does not stand quoted in the line and
    no token of [rest] is a command name: [inner] is called with the
    argument mapping of [inner rest...], [outer] is called with what
    [inner] returned under the key [str], and the answer is what [outer]
    returned.  When one of the two raises, the answer is "not applicable",
    in the state the calls have left. *)
Theorem chain_of_two_composes (outer inner : string) (rest : list string)
    (original_text : option string) (f g : Command P) (w : World P) :
  dict_get COMMANDS inner = Some f -> dict_get COMMANDS outer = Some g ->
  str_in inner BUILTIN_NAMES = false -> str_in outer BUILTIN_NAMES = false ->
  _was_quoted inner original_text = false -> is_flag inner = false ->
  forallb (fun t => negb (recognized COMMANDS original_text t)) rest = true ->
  _evaluate_composed_chain_if_any COMMANDS outer (outer :: inner :: rest)
      original_text w
  = try_except
      (v <- invoke f (_build_args_from_parts (inner :: rest)) ;;
       y <- invoke g [("str", v)] ;;
       ret (true, Some y))
      (fun _ => ret (false, None)) w.
Proof.
  intros Hf Hg Hbi Hbo Hq Hflag Hrest.
  assert (Hknown : recognized COMMANDS original_text inner = true).
  { unfold recognized, dict_has. now rewrite Hf, Hq. }
  pose proof (positional_of_forallb _ (length rest) rest (le_n _) Hrest) as Hpos.
  unfold _evaluate_composed_chain_if_any, _extract_positional.
  cbn [tl].
  rewrite (positional_of_plain_head inner rest Hflag).
  rewrite (pos_indices_plain_head 1 inner rest Hflag).
  cbn [find_chain take_chain]. rewrite Hknown.
  rewrite (take_chain_none _ _ Hpos).
  cbn [py_last length Nat.sub py_index nth_error].
  rewrite !bind_ret_l.
  cbn [index_from Nat.leb andb]. rewrite String.eqb_refl. cbn [skipn].
  cbn [py_index nth_error]. rewrite bind_ret_l.
  unfold run_chain_element. rewrite Hbi, Hf.
  unfold bind at 1. unfold try_except at 1. unfold bind at 1.
  unfold try_except at 2. unfold bind at 2.
  destruct (invoke_cases f (_build_args_from_parts (inner :: rest)) w)
    as [(v & w1 & E) | (e & w1 & E)]; rewrite E.
  - cbn [ret removelast List.rev apply_chain].
    rewrite bind_ret_l. cbv beta iota.
    cbn [Nat.add Nat.sub Nat.ltb Nat.leb py_index nth_error].
    rewrite bind_ret_l.
    rewrite (consumed_length_cons inner rest).
    cbn [length Nat.add Nat.sub firstn py_str].
    replace (Nat.max (S (length rest) - 0) 1 + 1) with (S (S (length rest))) by lia.
    rewrite (skipn_all2 (outer :: inner :: rest)) by (cbn; lia).
    change (_build_args_from_parts ([outer] ++ [v] ++ [])%list) with [("str", v)].
    rewrite Hbo, Hg.
    unfold try_except, bind. rewrite E.
    destruct (invoke_cases g [("str", v)] w1)
      as [(y & w2 & E2) | (e & w2 & E2)]; rewrite E2; reflexivity.
  - unfold try_except, bind. rewrite E. reflexivity.
Qed.

End ChainOfTwo.

(** ** Session state: aliases and variables *)

Lemma str_or_empty (a : string) : str_or a EmptyString = a.
Proof. now destruct a. Qed.

Lemma split_once_nonempty (sep : ascii) (s a b : string) :
  PyStr.split_once sep s = Some (a, b) -> PyStr.is_empty s = false.
Proof. destruct s; [discriminate | reflexivity]. Qed.

Lemma is_empty_false (s : string) : s <> EmptyString -> PyStr.is_empty s = false.
Proof. destruct s; [contradiction | reflexivity]. Qed.

Lemma dict_pop_keys {V : Type} (d : dict V) (k : string) :
  unique_keys d ->
  unique_keys (dict_pop d k) /\ dict_get (dict_pop d k) k = None /\
  forall k', k' <> k -> dict_get (dict_pop d k) k' = dict_get d k'.
Proof.
  unfold unique_keys. induction d as [|[k0 v0] d IH]; cbn; intros Hd.
  - repeat split; auto.
  - inversion Hd as [|? ? Hnot Hd']; subst.
    destruct (String.eqb k0 k) eqn:E.
    + apply String.eqb_eq in E. subst k0.
      split; [exact Hd'|]. split.
      * now apply dict_get_none_keys.
      * intros k' Hk. destruct (String.eqb k k') eqn:E'; [|reflexivity].
        apply String.eqb_eq in E'. congruence.
    + destruct (IH Hd') as (H1 & H2 & H3). cbn. rewrite E.
      split; [|split; [exact H2|]].
      * constructor; [|exact H1].
        intros Hin. apply Hnot.
        apply dict_get_none_keys in Hin; [contradiction|].
        destruct (dict_get (dict_pop d k) k0) eqn:G; [|reflexivity].
        exfalso. apply String.eqb_neq in E.
        rewrite (H3 k0 E) in G.
        assert (Hn : dict_get d k0 = None) by now apply dict_get_none_keys.
        congruence.
      * intros k' Hk. destruct (String.eqb k0 k'); [reflexivity | now apply H3].
Qed.

Section SessionState.

Context {P : Platform}.
Variable COMMANDS : dict (Command P).

(** X10. Defining an alias and using it.  The built-in [alias], given a
    text [name=value] with a name and a value that are not empty once the
    white space around them (and the quotes around the value) is taken off,
    stores the value under the name and answers with the empty text; the
    rest of the state is unchanged.  From then on a line whose first token
    is the name expands to the value followed by the other tokens of the
    line, joined by single spaces, provided the first token of that line is
    no alias itself. *)
Theorem alias_definition_round_trip (args : dict string) (lhs rhs : string)
    (w : World P) :
  let name := PyStr.strip lhs in
  let expansion := PyStr.strip_by is_quote_char (PyStr.strip rhs) in
  PyStr.split_once "=" (get_str args "str") = Some (lhs, rhs) ->
  name <> EmptyString -> expansion <> EmptyString ->
  let w' := with_ALIASES (dict_set (ALIASES w) name expansion) w in
  _run_builtin COMMANDS "alias" args w = (Ret (true, Some EmptyString), w') /\
  dict_get (ALIASES w') name = Some expansion /\
  (unique_keys (ALIASES w) -> unique_keys (ALIASES w')) /\
  forall (line : string) (remainder : list string),
    PyStr.strip line <> EmptyString ->
    tokens line = name :: remainder ->
    let expanded :=
      match remainder with
      | [] => expansion
      | _ => expansion ++ " " ++ PyStr.join " " remainder
      end in
    (forall t r, tokens expanded = t :: r -> dict_get (ALIASES w') t = None) ->
    _expand_aliases_line (ALIASES w') line = expanded.
Proof.
  intros name expansion Hs Hn He w'.
  split; [|split; [|split]].
  - unfold _run_builtin. cbn [String.eqb Ascii.eqb Bool.eqb].
    unfold builtin_alias. rewrite str_or_empty.
    rewrite (split_once_nonempty _ _ _ _ Hs), Hs.
    unfold try_except, bind, ret. fold name expansion.
    rewrite (is_empty_false _ Hn), (is_empty_false _ He).
    reflexivity.
  - apply dict_get_set_same.
  - apply dict_set_unique.
  - intros line remainder Hline Ht expanded Hfirst.
    unfold _expand_aliases_line.
    assert (Hg : PyStr.is_empty line || PyStr.is_empty (PyStr.strip line) = false).
    { rewrite (is_empty_false _ Hline), orb_false_r.
      destruct line; [now contradiction Hline | reflexivity]. }
    rewrite Hg. unfold max_depth. cbn [alias_loop].
    assert (H1 : alias_step (ALIASES w') line = Some expanded).
    { unfold alias_step. rewrite Ht.
      cbn [ALIASES with_ALIASES w']. rewrite dict_get_set_same.
      unfold expanded. now destruct remainder. }
    rewrite H1.
    assert (H2 : alias_step (ALIASES w') expanded = None).
    { unfold alias_step. destruct (tokens expanded) as [|t r] eqn:E; [reflexivity|].
      now rewrite (Hfirst t r eq_refl). }
    now rewrite H2.
Qed.

(** X11. Removing an alias.  The built-in [unalias], given a name that is
    not empty once stripped, removes the name from the alias table and
    answers with the empty text; the other aliases stay as they are, and
    from then on a line whose first token is the name is not expanded.
    Removing a name that is no alias changes nothing. *)
Theorem unalias_removes (args : dict string) (w : World P) :
  let name := PyStr.strip (get_str args "str") in
  name <> EmptyString -> unique_keys (ALIASES w) ->
  let w' := with_ALIASES (dict_pop (ALIASES w) name) w in
  _run_builtin COMMANDS "unalias" args w = (Ret (true, Some EmptyString), w') /\
  dict_get (ALIASES w') name = None /\
  (forall k, k <> name -> dict_get (ALIASES w') k = dict_get (ALIASES w) k) /\
  unique_keys (ALIASES w') /\
  (dict_get (ALIASES w) name = None -> ALIASES w' = ALIASES w) /\
  forall (line : string) (remainder : list string),
    tokens line = name :: remainder ->
    _expand_aliases_line (ALIASES w') line = line.
Proof.
  intros name Hn Hu w'.
  destruct (dict_pop_keys (ALIASES w) name Hu) as (H1 & H2 & H3).
  split; [|split; [|split; [|split; [|split]]]]; try assumption.
  - unfold _run_builtin. cbn [String.eqb Ascii.eqb Bool.eqb].
    unfold builtin_unalias. rewrite str_or_empty. fold name.
    rewrite (is_empty_false _ Hn). reflexivity.
  - intros Hnone. cbn [ALIASES with_ALIASES w'].
    clear -Hnone. induction (ALIASES w) as [|[k v] d IH]; [reflexivity|].
    cbn in *. destruct (String.eqb k name); [discriminate|].
    now rewrite IH.
  - intros line remainder Ht.
    now apply (expand_aliases_no_alias _ line name remainder).
Qed.

End SessionState.

(** Texts without a given character. *)

Lemma contains_char (c : ascii) (s : string) :
  PyStr.contains (String c EmptyString) s
  = negb (all_chars (fun x => negb (Ascii.eqb x c)) s).
Proof.
  induction s as [|x s IH]; [reflexivity|].
  cbn [PyStr.contains PyStr.startswith all_chars]. rewrite IH.
  rewrite (Ascii.eqb_sym c x).
  destruct (Ascii.eqb x c); cbn; [reflexivity|].
  now destruct s.
Qed.

Lemma split_once_left (sep : ascii) (s a b : string) :
  PyStr.split_once sep s = Some (a, b) ->
  all_chars (fun x => negb (Ascii.eqb x sep)) a = true.
Proof.
  revert a b. induction s as [|x s IH]; intros a b H; cbn in H; [discriminate|].
  destruct (Ascii.eqb x sep) eqn:E.
  - now injection H as <- _.
  - destruct (PyStr.split_once sep s) as [[a' b']|]; [|discriminate].
    injection H as <- _. cbn. rewrite E. cbn. now apply (IH a' b').
Qed.

Lemma all_chars_lstrip (p q : ascii -> bool) (s : string) :
  all_chars p s = true -> all_chars p (PyStr.lstrip_by q s) = true.
Proof.
  induction s as [|x s IH]; intros H; [reflexivity|].
  cbn [PyStr.lstrip_by]. destruct (q x); [|exact H].
  cbn in H. apply andb_true_iff in H. now apply IH.
Qed.

Lemma all_chars_rstrip (p q : ascii -> bool) (s : string) :
  all_chars p s = true -> all_chars p (PyStr.rstrip_by q s) = true.
Proof.
  induction s as [|x s IH]; intros H; [reflexivity|].
  cbn in H. apply andb_true_iff in H. destruct H as [Hx Hs].
  cbn [PyStr.rstrip_by].
  destruct (PyStr.is_empty (PyStr.rstrip_by q s) && q x); [reflexivity|].
  cbn. now rewrite Hx, IH.
Qed.

Lemma all_chars_drop (p : ascii -> bool) (s : string) (n : nat) :
  all_chars p s = true -> all_chars p (PyStr.drop n s) = true.
Proof.
  revert n. induction s as [|x s IH]; intros n H.
  - now destruct n.
  - destruct n; [exact H|]. cbn in H. apply andb_true_iff in H.
    cbn. now apply IH.
Qed.

Lemma all_chars_strip_var_prefix (p : ascii -> bool) (s : string) :
  all_chars p s = true -> all_chars p (strip_var_prefix s) = true.
Proof.
  intros H. unfold strip_var_prefix.
  assert (H1 : all_chars p (if PyStr.startswith "$env:" s then PyStr.drop 5 s else s)
               = true).
  { destruct (PyStr.startswith "$env:" s); [now apply all_chars_drop | exact H]. }
  destruct (PyStr.startswith "$" _); [now apply all_chars_drop | exact H1].
Qed.

Section EnvironmentVariables.

Context {P : Platform}.
Variable COMMANDS : dict (Command P).

(** X12. Setting a variable and reading it back.  The built-in [set],
    given a text [NAME=VALUE], stores the value (stripped of the white
    space and of one pair of quotes around it) under the name (stripped,
    without a leading [$env:] or [$]) in the environment and answers with
    the empty text, when the name is not empty and neither holds a NUL
    character; the rest of the state is unchanged.  The built-in [get] of
    that name, written with or without the prefix, then answers with the
    value, and so does a reference to the variable in a text that [echo]
    expands. *)
Theorem set_then_get (args : dict string) (lhs rhs : string) (w : World P) :
  let name := strip_var_prefix (PyStr.strip lhs) in
  let value :=
    if wrapped_in_quotes (PyStr.strip rhs) then inner (PyStr.strip rhs)
    else PyStr.strip rhs in
  let NUL := String "000"%char EmptyString in
  PyStr.split_once "=" (PyStr.strip (get_str args "str")) = Some (lhs, rhs) ->
  name <> EmptyString ->
  PyStr.contains NUL name = false -> PyStr.contains NUL value = false ->
  let w' := with_environ (dict_set (environ w) name value) w in
  _run_builtin COMMANDS "set" args w = (Ret (true, Some EmptyString), w') /\
  (forall key : string,
     key <> EmptyString -> strip_var_prefix key = name ->
     _run_builtin COMMANDS "get" [("str", key)] w' = (Ret (true, Some value), w')) /\
  (is_identifier name = true ->
   _run_builtin COMMANDS "echo" [("str", "${" ++ name ++ "}")] w'
   = (Ret (true, Some value), w')).
Proof.
  intros name value NUL Hs Hn Hz1 Hz2 w'.
  assert (Heq : PyStr.contains "=" name = false).
  { rewrite contains_char. apply negb_false_iff.
    apply all_chars_strip_var_prefix.
    unfold PyStr.strip, PyStr.strip_by.
    apply all_chars_rstrip, all_chars_lstrip.
    exact (split_once_left _ _ _ _ Hs). }
  split; [|split].
  - unfold _run_builtin. cbn [String.eqb Ascii.eqb Bool.eqb str_in existsb orb].
    unfold builtin_set. rewrite str_or_empty.
    rewrite (split_once_nonempty _ _ _ _ Hs), Hs.
    fold name value.
    unfold try_except, bind, environ_setitem. fold NUL.
    rewrite Hz1, Hz2, (is_empty_false _ Hn), Heq.
    reflexivity.
  - intros key Hk Hkey.
    unfold _run_builtin. cbn [String.eqb Ascii.eqb Bool.eqb str_in existsb orb].
    unfold builtin_get. cbn [get_str dict_get String.eqb Ascii.eqb Bool.eqb].
    rewrite (is_empty_false _ Hk), Hkey.
    unfold bind, gets, handled, ret. cbn [environ with_environ w'].
    unfold get_str. now rewrite dict_get_set_same.
  - intros Hid.
    unfold _run_builtin. cbn [String.eqb Ascii.eqb Bool.eqb str_in existsb orb].
    unfold builtin_echo. cbn [get_str dict_get String.eqb Ascii.eqb Bool.eqb].
    unfold bind, gets, handled, ret. cbn [environ with_environ w'].
    pose proof (expand_env_braces (dict_set (environ w) name value)
                  name EmptyString Hid) as H.
    change ("}" ++ EmptyString) with "}" in H. rewrite H.
    unfold get_str at 1. rewrite dict_get_set_same.
    cbn. now rewrite append_empty_r.
Qed.

End EnvironmentVariables.

Section BuiltinsReturn.

Context {P : Platform}.
Variable COMMANDS : dict (Command P).

Lemma answers_handled (t : string) : answers (handled (P := P) t).
Proof. intros w. now exists t, w. Qed.

Lemma answers_alias (args : dict string) : answers (builtin_alias (P := P) args).
Proof.
  intros w. unfold builtin_alias.
  destruct (PyStr.is_empty (str_or (get_str args "str") EmptyString));
    [apply answers_handled|].
  unfold try_except, bind.
  destruct (PyStr.split_once "=" (str_or (get_str args "str") EmptyString))
    as [[name rest]|].
  - cbn [ret]. destruct (PyStr.is_empty _ || PyStr.is_empty _);
      do 2 eexists; reflexivity.
  - destruct (Shlex.split (str_or (get_str args "str") EmptyString)) as [parts|m].
    + destruct parts as [|name parts]; cbn.
      * do 2 eexists; reflexivity.
      * destruct (PyStr.is_empty name || PyStr.is_empty _);
          do 2 eexists; reflexivity.
    + cbn. do 2 eexists; reflexivity.
Qed.

Lemma answers_unalias (args : dict string) : answers (builtin_unalias (P := P) args).
Proof.
  intros w. unfold builtin_unalias.
  destruct (PyStr.is_empty _); do 2 eexists; reflexivity.
Qed.

Lemma answers_aliases : answers (@builtin_aliases P).
Proof.
  intros w. unfold builtin_aliases, bind, gets.
  destruct (ALIASES w); do 2 eexists; reflexivity.
Qed.

Lemma answers_cd (args : dict string) : answers (builtin_cd (P := P) args).
Proof.
  intros w. unfold builtin_cd, bind, gets, try_except.
  destruct (os_chdir P _ (os w)) as [[[]|e] o']; cbn.
  - destruct (os_getcwd P o') as [cwd|e]; cbn; do 2 eexists; reflexivity.
  - do 2 eexists; reflexivity.
Qed.

Lemma answers_pwd : answers (@builtin_pwd P).
Proof.
  intros w. unfold builtin_pwd, bind, gets, try_except.
  destruct (os_getcwd P (os w)) as [cwd|e]; cbn; do 2 eexists; reflexivity.
Qed.

Lemma answers_echo (args : dict string) : answers (builtin_echo (P := P) args).
Proof. intros w. do 2 eexists; reflexivity. Qed.

Lemma answers_ls (args : dict string) : answers (builtin_ls (P := P) args).
Proof.
  intros w. unfold builtin_ls, bind, gets, try_except.
  destruct (os_listdir P _ (os w)) as [entries|e]; cbn; do 2 eexists; reflexivity.
Qed.

Lemma answers_env : answers (@builtin_env P).
Proof. intros w. do 2 eexists; reflexivity. Qed.

Lemma answers_set (args : dict string) : answers (builtin_set (P := P) args).
Proof.
  intros w. unfold builtin_set.
  destruct (PyStr.is_empty _); [apply answers_handled|].
  match goal with
  | |- context [match ?a with Some _ => _ | None => handled _ end] => destruct a as [[name value]|]
  end; [|apply answers_handled].
  unfold try_except, bind, environ_setitem.
  destruct (PyStr.contains _ _ || PyStr.contains _ _); cbn;
    [do 2 eexists; reflexivity|].
  destruct (PyStr.is_empty _ || PyStr.contains _ _); cbn;
    do 2 eexists; reflexivity.
Qed.

Lemma answers_get (args : dict string) : answers (builtin_get (P := P) args).
Proof.
  intros w. unfold builtin_get.
  destruct (PyStr.is_empty _); do 2 eexists; reflexivity.
Qed.

Lemma answers_help_topic (args : dict string) :
  PyStr.strip (get_str args "str") <> EmptyString -> answers (builtin_help COMMANDS args).
Proof.
  intros Ht w. unfold builtin_help. rewrite (is_empty_false _ Ht).
  destruct (dict_get COMMANDS _); [do 2 eexists; reflexivity|].
  destruct (dict_get BUILTIN_DOCS _); do 2 eexists; reflexivity.
Qed.

Lemma run_builtin_cases (command : string) (args : dict string) (w : World P) :
  (command = "help" -> PyStr.strip (get_str args "str") <> EmptyString) ->
  (str_in command BUILTIN_NAMES = true /\
   exists t w', _run_builtin COMMANDS command args w = (Ret (true, Some t), w')) \/
  (str_in command BUILTIN_NAMES = false /\
   _run_builtin COMMANDS command args w = (Ret (false, None), w)).
Proof.
  intros Hhelp.
  destruct (str_in command BUILTIN_NAMES) eqn:B.
  - left. split; [reflexivity|].
    unfold BUILTIN_NAMES in B. cbn [str_in existsb] in B.
    unfold _run_builtin. cbn [str_in existsb].
    repeat match type of B with
           | (String.eqb command ?n || _) = true =>
               let E := fresh "E" in
               destruct (String.eqb command n) eqn:E;
               [ apply String.eqb_eq in E; subst command; clear B
               | cbn [orb] in B ]
           end;
      cbn [String.eqb Ascii.eqb Bool.eqb orb];
      try discriminate B;
      first [ apply answers_help_topic; now apply Hhelp
            | apply answers_alias | apply answers_unalias | apply answers_aliases
            | apply answers_cd | apply answers_pwd | apply answers_echo
            | apply answers_ls | apply answers_env | apply answers_set
            | apply answers_get ].
  - right. split; [reflexivity|].
    now rewrite (run_builtin_unhandled COMMANDS command args B).
Qed.

End BuiltinsReturn.

(** ** The command list of [help] *)




Lemma splitlines_from_some (s : string) :
  forall w b, PyStr.splitlines_from (Some w) b s <> [].
Proof.
  induction s as [|c s IH]; intros w b; cbn; [discriminate|].
  destruct (b && Ascii.eqb c "010"%char); [apply IH|].
  destruct (PyStr.is_linebreak c); [discriminate | apply IH].
Qed.

Lemma splitlines_nonempty (s : string) :
  s <> EmptyString -> PyStr.splitlines s <> [].
Proof.
  destruct s as [|c s]; [contradiction|]. intros _.
  unfold PyStr.splitlines. cbn.
  destruct (PyStr.is_linebreak c); [discriminate | apply splitlines_from_some].
Qed.

Section HelpList.

Context {P : Platform}.
Variable COMMANDS : dict (Command P).


Lemma help_line_cases (name : string) (w : World P) :
  (blank_doc COMMANDS name = false /\ exists t, help_line COMMANDS name w = (Ret t, w)) \/
  (blank_doc COMMANDS name = true /\
   help_line COMMANDS name w = (Raise (Exn "IndexError" "list index out of range"), w)).
Proof.
  unfold help_line, blank_doc, bind.
  destruct (dict_get COMMANDS name) as [func|];
    [|left; split; [reflexivity | eexists; reflexivity]].
  destruct (doc func) as [d|];
    [|left; split; [reflexivity | eexists; reflexivity]].
  destruct (PyStr.is_empty d) eqn:Ed;
    [left; split; [reflexivity | eexists; reflexivity]|].
  cbn [negb andb].
  destruct (PyStr.strip d) as [|c r] eqn:Es.
  - right. split; reflexivity.
  - left. split; [reflexivity|].
    pose proof (splitlines_nonempty (String c r)) as Hl.
    destruct (PyStr.splitlines (String c r)) as [|l ls].
    + exfalso. apply Hl; [discriminate | reflexivity].
    + exists (PyStr.ljust 15 name ++ " - " ++ l). reflexivity.
Qed.

Lemma help_lines (names : list string) (w : World P) :
  (forallb (fun n => negb (blank_doc COMMANDS n)) names = true /\
   exists ts, map_m (help_line COMMANDS) names w = (Ret ts, w)) \/
  (forallb (fun n => negb (blank_doc COMMANDS n)) names = false /\
   map_m (help_line COMMANDS) names w = (Raise (Exn "IndexError" "list index out of range"), w)).
Proof.
  induction names as [|n names IH]; cbn [map_m forallb].
  - left. split; eauto. now exists [].
  - assert (Hm : map_m (help_line COMMANDS) (n :: names) w
                 = match help_line COMMANDS n w with
                   | (Ret y, w1) =>
                       match map_m (help_line COMMANDS) names w1 with
                       | (Ret ys, w2) => (Ret (y :: ys), w2)
                       | (Raise e, w2) => (Raise e, w2)
                       | (Blocked, w2) => (Blocked, w2)
                       end
                   | (Raise e, w1) => (Raise e, w1)
                   | (Blocked, w1) => (Blocked, w1)
                   end).
    { cbn [map_m]. unfold bind.
      destruct (help_line COMMANDS n w) as [[y|e|] w1]; reflexivity. }
    cbn [map_m] in Hm. rewrite Hm. clear Hm.
    destruct (help_line_cases n w) as [(Hb & t & ->) | (Hb & ->)]; rewrite Hb; cbn [negb andb].
    + destruct IH as [(Hf & ts & ->) | (Hf & ->)].
      * left. split; [exact Hf|]. eexists. reflexivity.
      * right. split; [exact Hf | reflexivity].
    + right. split; reflexivity.
Qed.


End HelpList.

(** ** Computations that come back *)

Section Completes.

Context {P : Platform}.

Lemma with_out_same (w : World P) : with_out (out w) w = w.
Proof. now destruct w. Qed.

Lemma shows_ret {A : Type} (a : A) : shows (ret (P := P) a).
Proof.
  intros w. exists a, []. rewrite app_nil_r, with_out_same. auto.
Qed.

Lemma shows_bind {A B : Type} (m : M P A) (k : A -> M P B) :
  shows m -> (forall a, shows (k a)) -> shows (bind m k).
Proof.
  intros Hm Hk w.
  destruct (Hm w) as (a & e1 & E1 & D1).
  destruct (Hk a (with_out (out w ++ e1)%list w)) as (b & e2 & E2 & D2).
  exists b, (e1 ++ e2)%list. unfold bind. rewrite E1, E2.
  split; [|now rewrite forallb_app, D1, D2].
  cbn [out with_out]. unfold with_out. cbn. now rewrite app_assoc.
Qed.

Lemma shows_gets {A : Type} (f : World P -> A) : shows (gets f).
Proof.
  intros w. exists (f w), []. rewrite app_nil_r, with_out_same. auto.
Qed.

Lemma shows_logger_log (msg : string) : shows (logger_log (P := P) msg).
Proof. intros w. exists tt, [EvLog msg]. auto. Qed.

Lemma shows_print (s : string) : shows (print (P := P) s).
Proof. intros w. exists tt, [EvPrint s]. auto. Qed.

Lemma shows_dbg (msg : string) : shows (_dbg (P := P) msg).
Proof.
  unfold _dbg. apply shows_bind; [apply shows_gets|].
  intros []; [apply shows_ret | apply shows_logger_log].
Qed.

Lemma shows_for_each {A : Type} (l : list A) (f : A -> M P unit) :
  (forall x, shows (f x)) -> shows (for_each l f).
Proof.
  intros Hf. induction l as [|x l IH]; cbn.
  - apply shows_ret.
  - apply shows_bind; [apply Hf | intros _; exact IH].
Qed.

Lemma shows_print_with_label (text : option string) (label : string)
    (tag : bool) : shows (_print_with_label (P := P) text label tag).
Proof.
  unfold _print_with_label. destruct text as [s|]; [|apply shows_ret].
  apply shows_bind; [apply shows_gets|].
  intros []; [apply shows_print|].
  destruct tag.
  - apply shows_bind; [apply shows_logger_log|].
    intros _. apply shows_logger_log.
  - apply shows_for_each. intros x. apply shows_logger_log.
Qed.

Lemma display_silent (evs : list Event) :
  forallb is_display evs = true -> silent evs /\ spawned evs = [].
Proof.
  unfold silent. induction evs as [|ev evs IH]; cbn; [auto|].
  intros H. apply andb_true_iff in H. destruct H as [Hd H].
  destruct ev; try discriminate Hd; cbn; auto.
Qed.

Lemma shows_completes {A : Type} (m : M P A) : shows m -> completes m.
Proof.
  intros H w. destruct (H w) as (a & evs & E & D).
  exists a, (with_out (out w ++ evs)%list w), evs.
  split; [exact E|]. split; [reflexivity|].
  split; [now apply display_silent | reflexivity].
Qed.

Lemma completes_ret {A : Type} (a : A) : completes (ret (P := P) a).
Proof.
  intros w. exists a, w, []. rewrite app_nil_r. auto using silent_nil.
Qed.

Lemma completes_bind {A B : Type} (m : M P A) (k : A -> M P B) :
  completes m -> (forall a, completes (k a)) -> completes (bind m k).
Proof.
  intros Hm Hk w.
  destruct (Hm w) as (a & w1 & e1 & E1 & O1 & S1 & F1).
  destruct (Hk a w1) as (b & w2 & e2 & E2 & O2 & S2 & F2).
  exists b, w2, (e1 ++ e2)%list. unfold bind. rewrite E1, E2.
  split; [reflexivity|]. split; [now rewrite O2, O1, app_assoc|].
  split; [now apply silent_app | congruence].
Qed.

Lemma completes_gets {A : Type} (f : World P -> A) : completes (gets f).
Proof.
  intros w. exists (f w), w, []. rewrite app_nil_r. auto using silent_nil.
Qed.

Lemma completes_logger_log (msg : string) : completes (logger_log (P := P) msg).
Proof.
  intros w. eexists tt, _, [EvLog msg]. repeat split.
Qed.

Lemma completes_print (s : string) : completes (print (P := P) s).
Proof.
  intros w. eexists tt, _, [EvPrint s]. repeat split.
Qed.

Lemma completes_dbg (msg : string) : completes (_dbg (P := P) msg).
Proof.
  unfold _dbg. apply completes_bind; [apply completes_gets|].
  intros []; [apply completes_ret | apply completes_logger_log].
Qed.

Lemma completes_for_each {A : Type} (l : list A) (f : A -> M P unit) :
  (forall x, completes (f x)) -> completes (for_each l f).
Proof.
  intros Hf. induction l as [|x l IH]; cbn.
  - apply completes_ret.
  - apply completes_bind; [apply Hf | intros _; exact IH].
Qed.

Lemma completes_print_with_label (text : option string) (label : string)
    (tag : bool) : completes (_print_with_label (P := P) text label tag).
Proof.
  unfold _print_with_label. destruct text as [s|]; [|apply completes_ret].
  apply completes_bind; [apply completes_gets|].
  intros []; [apply completes_print|].
  destruct tag.
  - apply completes_bind; [apply completes_logger_log|].
    intros _. apply completes_logger_log.
  - apply completes_for_each. intros x. apply completes_logger_log.
Qed.

Lemma completes_run_stream (cmd : list string) (timeout : option nat) :
  completes (_run_stream (P := P) cmd timeout).
Proof.
  intros w. unfold _run_stream, bind, emit, modify. cbn.
  destruct (run_process P cmd timeout (os w)) as [r o] eqn:E.
  exists r. eexists. exists [EvSpawn cmd].
  split; [reflexivity|]. repeat split.
Qed.

Lemma completes_run_pwsh_stream (s : string) : completes (run_pwsh_stream (P := P) s).
Proof.
  unfold run_pwsh_stream. apply completes_bind; [apply completes_gets|].
  intros o.
  match goal with
  | |- completes (match ?e with _ => _ end) => destruct e as [e'|]
  end; [|apply completes_ret].
  destruct (PyStr.is_empty e'); [apply completes_ret | apply completes_run_stream].
Qed.

Lemma completes_run_cmd_stream (s : string) : completes (run_cmd_stream (P := P) s).
Proof. apply completes_run_stream. Qed.

Lemma completes_quiet {A : Type} (m : M P A) (w : World P) :
  completes m ->
  exists a w', m w = (Ret a, w') /\
    exists evs, out w' = (out w ++ evs)%list /\ silent evs.
Proof.
  intros H. destruct (H w) as (a & w' & evs & E & O & S & _). eauto 6.
Qed.

End Completes.

(** ** Shell escapes *)

Lemma toggle_char_p (c d : ascii) :
  PyStr.lower_char c = d ->
  d = "s"%char \/ d = "r"%char \/ d = "e"%char \/ d = "u"%char ->
  c <> "p"%char.
Proof.
  intros <- H ->. vm_compute in H.
  destruct H as [H | [H | [H | H]]]; discriminate H.
Qed.

Lemma toggle_first_token_pwsh (cl : string) (a b : ascii) (T : string) :
  PyStr.lower (PyStr.strip cl) = String a (String b T) ->
  a = "!"%char ->
  b = "s"%char \/ b = "r"%char \/ b = "e"%char \/ b = "u"%char ->
  forall t l, tokens cl = t :: l -> t <> "!pwsh".
Proof.
  intros Hl Ha Hb t l Ht ->.
  unfold PyStr.lower, PyStr.strip, PyStr.strip_by in Hl.
  apply map_chars_head in Hl. destruct Hl as (c0 & s1 & Hs & Hc0 & Hl).
  apply map_chars_head in Hl. destruct Hl as (c1 & s2 & -> & Hc1 & _).
  apply rstrip_by_head in Hs. destruct Hs as (s3 & Hs & Hs3).
  apply rstrip_by_head in Hs3. destruct Hs3 as (s4 & -> & _).
  destruct (toggle_char c0 a Hc0 (or_introl Ha)) as (Hp0 & _ & _).
  destruct (toggle_char c1 b Hc1 (or_intror Hb)) as (Hp1 & _ & _).
  destruct (tokens_first_token cl c0 c1 s4 "!pwsh" l Hs Hp0 Hp1 Ht)
    as [[u Hu] | (c & u & Hu & Hsp)].
  - injection Hu as _ Hc _. apply (toggle_char_p c1 b Hc1 Hb). now symmetry.
  - injection Hu as <- _. vm_compute in Hsp. discriminate.
Qed.

(** A line whose first token is [!pwsh] is not a debug toggle. *)
Lemma pwsh_line_not_toggle (cl : string) (rest : list string) :
  tokens cl = "!pwsh" :: rest -> is_toggle cl = false.
Proof.
  intros Ht. destruct (is_toggle cl) eqn:E; [exfalso | reflexivity].
  unfold is_toggle in E. cbn [str_in existsb] in E.
  repeat match type of E with
         | (_ || _) = true => apply orb_true_iff in E; destruct E as [E | E]
         end;
    try discriminate E;
    apply String.eqb_eq in E;
    (eapply (toggle_first_token_pwsh cl); [exact E | reflexivity | | exact Ht | reflexivity]);
    auto.
Qed.

Section ShellEscapes.

Context {P : Platform}.
Variable COMMANDS : dict (Command P).

Lemma completes_alias_notice (line cl : string) :
  completes (alias_notice (P := P) line cl).
Proof.
  unfold alias_notice. destruct (negb _); [apply completes_dbg | apply completes_ret].
Qed.

Lemma completes_pwsh_escape (cl : string) : completes (pwsh_escape (P := P) cl).
Proof.
  unfold pwsh_escape. destruct (PyStr.is_empty _); [apply completes_dbg|].
  apply completes_bind; [apply completes_run_pwsh_stream|].
  intros [rc [e|]]; [apply completes_print_with_label | apply completes_dbg].
Qed.

Lemma handle_input_pwsh (line : string) (w : World P) (rest : list string) :
  let cl := _expand_aliases_line (ALIASES w) line in
  PyStr.is_empty line || PyStr.is_empty (PyStr.strip line) = false ->
  tokens cl = "!pwsh" :: rest ->
  handle_input COMMANDS line w = (alias_notice line cl ;;; pwsh_escape cl) w.
Proof.
  intros cl Hne Htok.
  pose proof (pwsh_line_not_toggle cl rest Htok) as Htog.
  unfold handle_input. rewrite Hne.
  unfold bind at 1, gets. fold cl.
  unfold is_toggle in Htog. apply orb_false_iff in Htog. destruct Htog as [Ht1 Ht2].
  apply bind_ext. intros [] w1.
  unfold dispatch_line. cbv zeta. rewrite Ht1, Ht2, Htok.
  reflexivity.
Qed.

(** X14. The PowerShell escape never fails and never uses the pool.  For
    every line whose first token (after alias expansion) is [!pwsh],
    [handle_input] comes back: no exception leaves it, no task is handed to
    the pool and no result is read.  When the machine has neither [pwsh]
    nor [powershell] and the line holds a command text, no process is
    started and the failure is shown as the text
    [pwsh failed: pwsh/powershell not found].  (A process that is started
    is taken to end: [run_process] always returns.) *)
Theorem pwsh_escape_runs_locally (line : string) (w : World P) (rest : list string) :
  let cl := _expand_aliases_line (ALIASES w) line in
  PyStr.strip line <> EmptyString ->
  tokens cl = "!pwsh" :: rest ->
  exists w' evs,
    handle_input COMMANDS line w = (Ret tt, w') /\
    out w' = (out w ++ evs)%list /\ silent evs /\
    (PyStr.strip (PyStr.drop 5 cl) <> EmptyString ->
     shutil_which P "pwsh" (os w) = None ->
     shutil_which P "powershell" (os w) = None ->
     spawned evs = [] /\
     exists notice,
       evs = (notice ++
              (if DEBUG_SUPPRESSED w
               then [EvPrint "pwsh failed: pwsh/powershell not found"]
               else [EvLog "[Worker shell] pwsh failed: pwsh/powershell not found"]))%list /\
       (notice = [] \/
        notice = [EvLog ("Alias expanded: " ++ line ++ " -> " ++ cl)])).
Proof.
  intros cl Hline Htok.
  assert (Hne : PyStr.is_empty line || PyStr.is_empty (PyStr.strip line) = false).
  { rewrite (is_empty_false _ Hline), orb_false_r.
    destruct line; [now contradiction Hline | reflexivity]. }
  rewrite (handle_input_pwsh line w rest Hne Htok). fold cl.
  assert (Hc : completes (alias_notice (P := P) line cl ;;; pwsh_escape cl)).
  { apply completes_bind; [apply completes_alias_notice|].
    intros _. apply completes_pwsh_escape. }
  destruct (Hc w) as ([] & w' & evs & E & O & S & _).
  exists w', evs. split; [exact E|]. split; [exact O|]. split; [exact S|].
  intros Hraw Hp1 Hp2.
  assert (Hesc : forall w1 : World P,
            os w1 = os w -> DEBUG_SUPPRESSED w1 = DEBUG_SUPPRESSED w ->
            pwsh_escape cl w1
            = (Ret tt,
               with_out (out w1 ++
                 (if DEBUG_SUPPRESSED w
                  then [EvPrint "pwsh failed: pwsh/powershell not found"]
                  else [EvLog "[Worker shell] pwsh failed: pwsh/powershell not found"]))%list
                 w1)).
  { intros w1 Ho Hd. unfold pwsh_escape.
    change (String.length "!pwsh") with 5.
    rewrite (is_empty_false _ Hraw).
    unfold bind, run_pwsh_stream, bind, gets. rewrite Ho, Hp1, Hp2. cbn [ret].
    unfold _print_with_label, bind, is_debug_suppressed, gets. rewrite Hd.
    destruct (DEBUG_SUPPRESSED w); reflexivity. }
  assert (Hev : exists notice,
            evs = (notice ++
              (if DEBUG_SUPPRESSED w
               then [EvPrint "pwsh failed: pwsh/powershell not found"]
               else [EvLog "[Worker shell] pwsh failed: pwsh/powershell not found"]))%list /\
            (notice = [] \/
             notice = [EvLog ("Alias expanded: " ++ line ++ " -> " ++ cl)])).
  { unfold bind in E. unfold alias_notice in E.
    destruct (negb (cl =? line)).
    - unfold _dbg, bind, is_debug_suppressed, gets in E.
      destruct (DEBUG_SUPPRESSED w) eqn:D; cbn [ret] in E.
      + rewrite (Hesc w eq_refl D) in E.
        injection E as <-. cbn [out with_out] in O.
        apply app_inv_head in O. subst evs. exists []. auto.
      + unfold logger_log, emit, modify in E.
        rewrite Hesc in E by (try reflexivity; exact D).
        injection E as <-. cbn [out with_out] in O.
        rewrite <- app_assoc in O. apply app_inv_head in O. subst evs.
        eexists. split; [reflexivity | now right].
    - cbn [ret] in E. rewrite (Hesc w eq_refl eq_refl) in E.
      injection E as <-. cbn [out with_out] in O.
      apply app_inv_head in O. subst evs. exists []. auto. }
  split; [|exact Hev].
  destruct Hev as (notice & -> & [-> | ->]);
    destruct (DEBUG_SUPPRESSED w); reflexivity.
Qed.

End ShellEscapes.

(** ** Batch lines with a shell marker *)

Section BatchShell.

Context {P : Platform}.
Variable COMMANDS : dict (Command P).

Lemma then_ret {A B : Type} (m : M P A) (b : B) (w : World P) :
  completes m ->
  exists w' evs,
    (m ;;; ret b) w = (Ret b, w') /\ out w' = (out w ++ evs)%list /\ silent evs /\
    result_feed w' = result_feed w /\
    exists a, m w = (Ret a, w').
Proof.
  intros H. destruct (H w) as (a & w' & evs & E & O & S & F).
  exists w', evs. unfold bind. rewrite E.
  split; [reflexivity|]. split; [exact O|]. split; [exact S|].
  split; [exact F|]. now exists a.
Qed.

Lemma completes_shell_subcommand (mode cmd_str : string) :
  completes (shell_subcommand (P := P) mode cmd_str).
Proof.
  unfold shell_subcommand.
  destruct (PyStr.is_empty cmd_str); [apply completes_print_with_label|].
  apply completes_bind.
  - destruct (String.eqb mode "!pwsh");
      [apply completes_run_pwsh_stream | apply completes_run_cmd_stream].
  - intros [rc [e|]]; [apply completes_print_with_label | apply completes_dbg].
Qed.

Lemma batch_subcommand_global (g : string) (n : nat) (sub : string) (w : World P) :
  batch_subcommand COMMANDS (Some g) n sub w
  = match tokens sub with
    | [] => ret n
    | _ :: _ =>
        shell_subcommand g (PyStr.strip (PyStr.join " " (tokens sub))) ;;; ret n
    end w.
Proof.
  unfold batch_subcommand, shell_subcommand. cbv zeta.
  destruct (tokens sub) as [|first rest]; [reflexivity|].
  cbn [skipn].
  destruct (PyStr.is_empty _); [reflexivity|].
  unfold bind.
  destruct ((if String.eqb g "!pwsh" then run_pwsh_stream _ else run_cmd_stream _) w)
    as [[[rc err]|e|] w1]; reflexivity.
Qed.

Lemma batch_subcommand_shell (g : string) (n : nat) (sub : string) (w : World P) :
  exists w' evs,
    batch_subcommand COMMANDS (Some g) n sub w = (Ret n, w') /\
    out w' = (out w ++ evs)%list /\ silent evs /\ result_feed w' = result_feed w.
Proof.
  rewrite batch_subcommand_global.
  destruct (tokens sub) as [|first rest].
  - exists w, []. rewrite app_nil_r. auto using silent_nil.
  - destruct (then_ret (shell_subcommand g (PyStr.strip (PyStr.join " " (first :: rest))))
                n w (completes_shell_subcommand _ _))
      as (w' & evs & E & O & S & F & _).
    eauto 8.
Qed.

Lemma batch_loop_shell (g : string) (subcmds : list string) :
  forall (n : nat) (w : World P),
  exists w' evs,
    batch_loop COMMANDS (Some g) subcmds n w = (Ret n, w') /\
    out w' = (out w ++ evs)%list /\ silent evs /\ result_feed w' = result_feed w.
Proof.
  induction subcmds as [|sub subcmds IH]; intros n w; cbn [batch_loop].
  - exists w, []. rewrite app_nil_r. auto using silent_nil.
  - destruct (batch_subcommand_shell g n sub w) as (w1 & e1 & E1 & O1 & S1 & F1).
    destruct (IH n w1) as (w2 & e2 & E2 & O2 & S2 & F2).
    exists w2, (e1 ++ e2)%list. unfold bind. rewrite E1, E2.
    split; [reflexivity|]. split; [now rewrite O2, O1, app_assoc|].
    split; [now apply silent_app | congruence].
Qed.

(** X15. A batch line with a shell marker stays out of the pool.  When
    the first token after [!mt] or [!multithread] is [!pwsh] or [!cmd],
    every subcommand of the line is given to that shell: the batch comes
    back without an exception, no task is handed to the pool and no result
    is read.  (A process that a shell starts is taken to end: [run_process]
    always returns.) *)
Theorem batch_with_shell_marker_uses_no_worker (command command_line : string)
    (t : string) (rest : list string) (w : World P) :
  tokens (PyStr.strip (PyStr.drop (String.length command) command_line)) = t :: rest ->
  str_in t ["!pwsh"; "!cmd"] = true ->
  exists w' evs,
    batch_mode COMMANDS command command_line w = (Ret tt, w') /\
    out w' = (out w ++ evs)%list /\ silent evs /\ result_feed w' = result_feed w.
Proof.
  intros Ht Hm. unfold batch_mode. cbv zeta. rewrite Ht, Hm.
  destruct (PyStr.is_empty _).
  { destruct (completes_dbg (P := P) "Keine Unterbefehle angegeben." w)
      as ([] & w' & evs & E & O & S & F). eauto 8. }
  match goal with
  | |- context [match ?l with [] => _ | _ :: _ => _ end] => destruct l as [|s subcmds]
  end.
  { destruct (completes_dbg (P := P) "Keine Unterbefehle angegeben." w)
      as ([] & w' & evs & E & O & S & F). eauto 8. }
  destruct (batch_loop_shell t (s :: subcmds) 0 w) as (w1 & e1 & E1 & O1 & S1 & F1).
  unfold bind at 1. rewrite E1.
  destruct (then_ret (_dbg ("Added " ++ PyStr.of_nat 0 ++ " tasks (multithread)"))
              tt w1 (completes_dbg _))
    as (w2 & e2 & E2 & O2 & S2 & F2 & _).
  cbn [gather_results]. rewrite E2.
  exists w2, (e1 ++ e2)%list.
  split; [reflexivity|]. split; [now rewrite O2, O1, app_assoc|].
  split; [now apply silent_app | congruence].
Qed.

(** X16. In a batch line the marker [!cmd] works.  A subcommand of a
    batch under the marker [!cmd] starts one process through
    [run_cmd_stream]: its argument list is [shlex.split] of the tokens of
    the subcommand joined again by single spaces (the text itself when the
    lexer rejects it).  The subcommand counts no task and no exception
    leaves it.  (The process is taken to end: [run_process] always
    returns.) *)
Theorem batch_cmd_subcommand_spawns (n : nat) (sub : string) (w : World P) :
  let cmd_str := PyStr.strip (PyStr.join " " (tokens sub)) in
  cmd_str <> EmptyString ->
  exists w' evs,
    batch_subcommand COMMANDS (Some "!cmd") n sub w = (Ret n, w') /\
    out w' = (out w ++ evs)%list /\ silent evs /\
    spawned evs = [match Shlex.split cmd_str with
                   | Shlex.Tokens l => l
                   | Shlex.LexError _ => [cmd_str]
                   end].
Proof.
  intros cmd_str Hs.
  rewrite batch_subcommand_global.
  destruct (tokens sub) as [|first rest] eqn:Ht.
  { exfalso. apply Hs. reflexivity. }
  fold cmd_str.
  unfold shell_subcommand. rewrite (is_empty_false _ Hs).
  cbn [String.eqb Ascii.eqb Bool.eqb].
  unfold run_cmd_stream, _run_stream.
  set (parts := match Shlex.split cmd_str with
                | Shlex.Tokens l => l
                | Shlex.LexError _ => [cmd_str]
                end).
  unfold bind, emit, modify. cbn [os with_out].
  destruct (run_process P parts None (os w)) as [[rc err] o] eqn:Er.
  assert (Hshow : shows (match err with
                         | Some e => _print_with_label (P := P)
                                       (Some ("shell failed: " ++ exn_str e)) "shell" false
                         | None => _dbg ("!cmd" ++ " exited: " ++ shell_result_text rc)
                         end)).
  { destruct err; [apply shows_print_with_label | apply shows_dbg]. }
  destruct (Hshow (with_os o (with_out (out w ++ [EvSpawn parts])%list w)))
    as ([] & evs & E & D).
  rewrite E. destruct (display_silent evs D) as [[Sq Sr] Ssp].
  eexists. exists (EvSpawn parts :: evs).
  split; [reflexivity|].
  split; [cbn; now rewrite <- app_assoc|].
  split; [split; assumption|].
  cbn [spawned]. now rewrite Ssp.
Qed.

End BatchShell.

(** ** The single-command path *)

Section SingleCommand.

Context {P : Platform}.
Variable COMMANDS : dict (Command P).

(** X17. One task, one read.  For a command that is no built-in the
    single-command path hands exactly one task to the pool (the command
    with its expanded arguments, after the debug line [Enqueue: ...]) and
    reads the result channel once, without a waiting time.  When a result
    [(id, text)] is there it is shown (printed when debug is suppressed,
    logged after the line [[Worker id] Ergebnis:] otherwise) and the call
    comes back; when none is there the call waits. *)
Theorem single_command_one_task_one_read (command command_line : string)
    (parts_all : list string) (w : World P) :
  str_in command BUILTIN_NAMES = false ->
  let args := _expand_env_in_args (environ w) (_build_args_from_parts parts_all) in
  let handed :=
    ((if DEBUG_SUPPRESSED w then []
      else [EvLog ("Enqueue: " ++ colorize command_line)])
     ++ [EvEnqueue command args; EvResultGet None])%list in
  single_command COMMANDS command command_line parts_all w
  = match result_feed w with
    | Some (worker_id, result) :: feed =>
        (Ret tt,
         with_result_feed feed
           (with_out
              (out w ++ handed ++
               (if DEBUG_SUPPRESSED w then [EvPrint result]
                else [EvLog ("[Worker " ++ PyStr.of_nat worker_id ++ "] Ergebnis:");
                      EvLog result]))%list w))
    | feed =>
        (Blocked, with_result_feed (tl feed) (with_out (out w ++ handed)%list w))
    end.
Proof.
  intros Hb args handed.
  unfold single_command. unfold bind at 1.
  rewrite (run_builtin_unhandled COMMANDS command _ Hb). cbn [ret].
  unfold bind at 1, gets. fold args.
  unfold dbg_enqueue, try_except, _dbg, await_result, result_queue_get, add_task,
    bind, is_debug_suppressed, gets, logger_log, print, emit, modify, try_except.
  unfold handed.
  destruct w as [env al dbg o feed ev]. cbn.
  destruct dbg; cbn;
    destruct feed as [|[[wid res]|] feed]; cbn;
    unfold with_result_feed, with_out; cbn;
    rewrite <- ?app_assoc; reflexivity.
Qed.

(** X18. A built-in line is answered on the spot.  For a built-in name
    (and, for [help], a topic) the single-command path comes back without
    an exception; it hands no task to the pool, reads no result and leaves
    the result channel as it is. *)
Theorem builtin_line_answered_locally (command command_line : string)
    (parts_all : list string) (w : World P) :
  str_in command BUILTIN_NAMES = true ->
  (command = "help" ->
   PyStr.strip (get_str (_build_args_from_parts parts_all) "str") <> EmptyString) ->
  exists w' evs,
    single_command COMMANDS command command_line parts_all w = (Ret tt, w') /\
    out w' = (out w ++ evs)%list /\ silent evs /\
    result_feed w' = result_feed w.
Proof.
  intros Hb Hhelp.
  destruct (run_builtin_cases COMMANDS command (_build_args_from_parts parts_all) w Hhelp)
    as [(_ & t & w1 & E) | (Hf & _)]; [|congruence].
  destruct (quiet_run_builtin COMMANDS command (_build_args_from_parts parts_all) w)
    as (_ & F1 & e1 & O1 & S1).
  rewrite E in F1, O1. cbn [snd] in F1, O1.
  unfold single_command, bind. rewrite E.
  assert (Hs : shows (if PyStr.is_empty t then ret (P := P) tt
                      else _print_with_label (Some t) "sync" false)).
  { destruct (PyStr.is_empty t); [apply shows_ret | apply shows_print_with_label]. }
  destruct (Hs w1) as ([] & e2 & E2 & D2). rewrite E2.
  destruct (display_silent e2 D2) as [S2 _].
  eexists. exists (e1 ++ e2)%list.
  split; [reflexivity|]. cbn [out with_out result_feed].
  split; [now rewrite O1, app_assoc|].
  split; [now apply silent_app | exact F1].
Qed.

End SingleCommand.

(** ** When [handle_input] waits *)

Section Waits.

Context {P : Platform}.
Variable COMMANDS : dict (Command P).

Lemma waits_once_quiet {A : Type} (m : M P A) : quiet m -> waits_once m.
Proof.
  intros Hq w Hb. destruct (Hq w) as (Hn & _). contradiction.
Qed.

Lemma waits_once_bind {A B : Type} (m : M P A) (k : A -> M P B) :
  quiet m -> (forall a, waits_once (k a)) -> waits_once (bind m k).
Proof.
  intros Hq Hk w Hb.
  destruct (Hq w) as (Hn & _ & e1 & O1 & S1 & R1).
  unfold bind in *.
  destruct (m w) as [[a|e|] w1]; cbn [fst snd] in *;
    [|discriminate Hb|contradiction].
  destruct (Hk a w1 Hb) as (e2 & O2 & L2 & R2).
  exists (e1 ++ e2)%list.
  split; [now rewrite O2, O1, app_assoc|].
  rewrite enqueued_app, result_reads_app, S1, R1. auto.
Qed.

Lemma quiet_module_getattr (module : string) (names : list string) (attr : string) :
  quiet (module_getattr (P := P) module names attr).
Proof. unfold module_getattr. quiet_auto. Qed.

Lemma quiet_alias_notice (line cl : string) : quiet (alias_notice (P := P) line cl).
Proof.
  unfold alias_notice. destruct (negb _); [apply quiet_dbg | apply quiet_ret].
Qed.

Lemma waits_once_batch_mode (command command_line : string) :
  waits_once (batch_mode COMMANDS command command_line).
Proof.
  intros w Hb.
  destruct (batch_mode_reads COMMANDS command command_line w)
    as (evs & _ & [[E _] | (e & E & _)]); congruence.
Qed.

Lemma waits_once_enqueue_and_wait (command command_line : string)
    (args : dict string) :
  waits_once (env <- gets environ ;;
              dbg_enqueue (P := P) command_line ;;;
              add_task command (_expand_env_in_args env args) ;;;
              await_result).
Proof.
  intros w Hb.
  unfold dbg_enqueue, try_except, _dbg, await_result, result_queue_get, add_task,
    bind, is_debug_suppressed, gets, logger_log, print, emit, modify, try_except in *.
  destruct w as [env al dbg o feed ev]. cbn in *.
  destruct dbg; cbn in *;
    destruct feed as [|[[wid res]|] feed]; cbn in *; try discriminate Hb;
    eexists; (split; [rewrite <- ?app_assoc; reflexivity|]); split; reflexivity.
Qed.

Lemma run_builtin_unhandled_unchanged (command : string) (args : dict string)
    (w w1 : World P) (o : option string) :
  _run_builtin COMMANDS command args w = (Ret (false, o), w1) ->
  str_in command BUILTIN_NAMES = false /\ o = None /\ w1 = w.
Proof.
  intros E.
  destruct (String.eqb command "help") eqn:Eh.
  - apply String.eqb_eq in Eh. subst command. exfalso.
    destruct (PyStr.strip (get_str args "str")) as [|c r] eqn:Et.
    + destruct (help_lines COMMANDS (sorted (map fst COMMANDS)) w)
        as [(_ & ts & Hl) | (_ & Hl)];
        unfold _run_builtin in E; cbn [String.eqb Ascii.eqb Bool.eqb] in E;
        unfold builtin_help in E; rewrite Et in E; cbn [PyStr.is_empty] in E;
        change (map_m _ (sorted (map fst COMMANDS)))
          with (map_m (help_line COMMANDS) (sorted (map fst COMMANDS))) in E;
        unfold bind in E; rewrite Hl in E; discriminate E.
    + destruct (run_builtin_cases COMMANDS "help" args w) as [(_ & t & w' & E') | (Hf & _)].
      * intros _. rewrite Et. discriminate.
      * congruence.
      * discriminate Hf.
  - destruct (run_builtin_cases COMMANDS command args w) as [(_ & t & w' & E') | (Hf & E')].
    + intros ->. discriminate Eh.
    + congruence.
    + rewrite E' in E. injection E as <- <-. auto.
Qed.

(** X19. The built-ins catch their own failures.  Called with any name,
    any argument mapping and in any state, [_run_builtin] comes back
    (unless it is asked for the list of all commands, [help] without a
    topic): with [(True, text)] exactly when the name is one of
    [BUILTIN_NAMES], and with [(False, None)] and the state untouched
    otherwise.  The names the function handles and the names in
    [BUILTIN_NAMES] are the same twelve; an answer "not handled" always
    means that nothing has been done. *)
Theorem run_builtin_always_answers (command : string) (args : dict string)
    (w : World P) :
  ((command = "help" -> PyStr.strip (get_str args "str") <> EmptyString) ->
   (str_in command BUILTIN_NAMES = true /\
    exists t w', _run_builtin COMMANDS command args w = (Ret (true, Some t), w')) \/
   (str_in command BUILTIN_NAMES = false /\
    _run_builtin COMMANDS command args w = (Ret (false, None), w))) /\
  (forall (o : option string) (w1 : World P),
     _run_builtin COMMANDS command args w = (Ret (false, o), w1) ->
     str_in command BUILTIN_NAMES = false /\ o = None /\ w1 = w).
Proof.
  split.
  - apply run_builtin_cases.
  - intros o w1. apply run_builtin_unhandled_unchanged.
Qed.

Lemma waits_once_single_command (command command_line : string)
    (parts_all : list string) :
  waits_once (single_command COMMANDS command command_line parts_all).
Proof.
  unfold single_command.
  apply waits_once_bind; [apply quiet_run_builtin|].
  intros [[] o].
  - apply waits_once_quiet.
    destruct o as [t|]; [|apply quiet_ret].
    destruct (PyStr.is_empty t); [apply quiet_ret | apply quiet_print_with_label].
  - apply waits_once_enqueue_and_wait.
Qed.

Lemma waits_once_dispatch_line (cl : string) : waits_once (dispatch_line COMMANDS cl).
Proof.
  unfold dispatch_line. cbv zeta.
  destruct (str_in _ ["!suppressdebug"; "!suppress-debug"]).
  { apply waits_once_quiet. unfold set_debug_suppressed. quiet_auto. }
  destruct (str_in _ ["!resumedebug"; "!enabledebug"; "!unsuppressdebug"]).
  { apply waits_once_quiet. unfold set_debug_suppressed. quiet_auto. }
  destruct (tokens cl) as [|command rest]; [apply waits_once_quiet, quiet_ret|].
  destruct (String.eqb command "!pwsh").
  { apply waits_once_quiet.
    destruct (PyStr.is_empty _); [apply quiet_dbg|].
    apply quiet_bind; [apply quiet_run_pwsh_stream|].
    intros [rc [e|]]; [apply quiet_print_with_label | apply quiet_dbg]. }
  destruct (String.eqb command "!cmd").
  { apply waits_once_quiet.
    destruct (PyStr.is_empty _);
      [apply quiet_print_with_label | apply quiet_module_getattr]. }
  destruct (str_in command ["!multithread"; "!mt"]); [apply waits_once_batch_mode|].
  unfold ordinary_dispatch.
  apply waits_once_bind; [apply quiet_evaluate_composed|].
  intros [[] r]; [apply waits_once_quiet, quiet_print_with_label|].
  apply waits_once_single_command.
Qed.

(** X20. The shell waits only for a task of its own.  Whatever the line
    and the state, when [handle_input] does not come back (it waits for
    ever on the result channel), it has handed exactly one task to the
    pool and made exactly one read, the read without a waiting time of the
    single-command path.  On every other path (debug toggles, shell
    escapes, batch lines, chains, built-ins) it comes back or raises.
    (A process that a shell escape starts is taken to end: [run_process]
    always returns; a command run inside a chain is taken to return.) *)
Theorem handle_input_waits_only_for_its_task (line : string) (w : World P) :
  fst (handle_input COMMANDS line w) = Blocked ->
  exists evs,
    out (snd (handle_input COMMANDS line w)) = (out w ++ evs)%list /\
    length (enqueued evs) = 1 /\ result_reads evs = [None].
Proof.
  revert w. change (waits_once (handle_input COMMANDS line)).
  unfold handle_input.
  destruct (PyStr.is_empty line || PyStr.is_empty (PyStr.strip line));
    [apply waits_once_quiet, quiet_ret|].
  apply waits_once_bind; [apply quiet_gets|].
  intros aliases.
  apply waits_once_bind; [apply quiet_alias_notice|].
  intros _. apply waits_once_dispatch_line.
Qed.

End Waits.

(** ** The worker and the shutdown sentinel *)

Section WorkerSentinel.

Context {P : Platform}.

Lemma worker_turn_sentinel (id : nat) (COMMANDS : dict (Command P))
    (result : option string) (w : World P) :
  worker_turn id COMMANDS None result w
  = (Ret (true, result),
     with_out (out w ++ EvTaskDone ::
               match result with
               | Some r => [EvResultPut id r]
               | None => []
               end)%list w).
Proof.
  unfold worker_turn, bind, try_except, emit, modify, ret, raise.
  destruct result as [r|]; cbn; unfold with_out; cbn;
    rewrite <- ?app_assoc; reflexivity.
Qed.

Lemma last_cons_default {A : Type} (l : list A) (x d : A) :
  List.last (x :: l) d = List.last l x.
Proof.
  revert x d. induction l as [|y l IH]; intros x d; [reflexivity|].
  change (List.last (x :: y :: l) d) with (List.last (y :: l) d).
  now rewrite (IH y d), (IH y x).
Qed.

Lemma Worker_run_until_sentinel (id : nat)
    (tasks : list (dict (Command P) * QueueItem)) :
  Forall (fun it => snd it <> None) tasks ->
  forall (C : dict (Command P)) (later : list (dict (Command P) * QueueItem))
         (result : option string) (w : World P),
  exists texts w',
    Worker_run id (tasks ++ (C, None) :: later) result w = (Ret Exited, w') /\
    length texts = length tasks /\
    published (out w')
    = (published (out w) ++ map (fun t => (id, t)) texts ++
       match List.last (map Some texts) result with
       | Some r => [(id, r)]
       | None => []
       end)%list.
Proof.
  induction 1 as [|[C0 task] tasks Htask _ IH]; intros C later result w.
  - exists []. eexists. rewrite app_nil_l. cbn [Worker_run]. unfold bind.
    rewrite worker_turn_sentinel. split; [reflexivity|]. split; [reflexivity|].
    cbn [out with_out map List.last app]. rewrite published_app.
    destruct result; reflexivity.
  - destruct task as [[command args]|]; [|now contradiction Htask].
    destruct (worker_turn_task id C0 command args result w) as (w1 & Hturn & Hpub).
    destruct (IH C later (Some (task_text C0 command args w)) w1)
      as (texts & w' & Hrun & Hlen & Hout).
    exists (task_text C0 command args w :: texts), w'.
    split; [|split].
    + rewrite <- app_comm_cons. cbn [Worker_run]. unfold bind at 1.
      rewrite Hturn. exact Hrun.
    + cbn. now rewrite Hlen.
    + rewrite Hout, Hpub, <- app_assoc. cbn [map app].
      now rewrite last_cons_default.
Qed.

(** X21. The shutdown sentinel.  When the worker takes [None] from the
    task queue it leaves its loop: the items behind the sentinel are not
    taken.  Before leaving, the [finally] block runs as for a task: the
    sentinel is marked done and the result kept from the last task is put
    on the result channel a second time; when the worker has not run a
    task yet, nothing is put.  So a worker that ran [n] tasks and then got
    the sentinel has published [n + 1] results ([0] when [n = 0]). *)
Theorem worker_sentinel_ends_loop (id : nat) (C : dict (Command P))
    (later : list (dict (Command P) * QueueItem)) :
  (forall (result : option string) (w : World P),
     Worker_run id ((C, None) :: later) result w
     = (Ret Exited,
        with_out (out w ++ EvTaskDone ::
                  match result with
                  | Some r => [EvResultPut id r]
                  | None => []
                  end)%list w)) /\
  (forall (tasks : list (dict (Command P) * QueueItem)) (w : World P),
     Forall (fun it => snd it <> None) tasks ->
     exists texts w',
       Worker_run id (tasks ++ (C, None) :: later) None w = (Ret Exited, w') /\
       length texts = length tasks /\
       published (out w')
       = (published (out w) ++ map (fun t => (id, t)) texts ++
          match List.last (map Some texts) None with
          | Some r => [(id, r)]
          | None => []
          end)%list).
Proof.
  split.
  - intros result w. cbn [Worker_run]. unfold bind.
    now rewrite worker_turn_sentinel.
  - intros tasks w Ht. now apply Worker_run_until_sentinel.
Qed.

End WorkerSentinel.

(** ** Reading a container: which check fails first *)

Section ContainerErrors.

Variable read_refused : N -> option exn.
Variable Json : Type.
Variable json_loads_utf8 : bytes -> Completion Json.
Variable gzip_decompress : bytes -> Completion bytes.
Variable utf8_decode_replace : bytes -> string.

Local Abbreviation load :=
  (load_le read_refused Json json_loads_utf8 gzip_decompress utf8_decode_replace).

(** X22. The steps of the container reader, in their order.  A file of
    fewer than seven bytes (the empty file included), and any file that
    does not begin with the magic, is rejected with the message
    [Not a LUW binary (.le) or unsupported version], whatever follows.
    With the magic in place the manifest is read next: when that read is
    refused (a length field beyond the end of the file for which the
    machine gives no buffer) the exception of the read leaves the reader as
    it is, before any check of the manifest.  A read that is granted gives
    the bytes the length field delimits and the rest of the file; then a
    manifest the JSON reader rejects gives
    [Invalid manifest in <path>: <reason>], whatever the payload is, and
    with a good manifest a payload that [gzip] rejects gives
    [Invalid payload (not gzip?) in <path>: <reason>]. *)
Theorem load_le_checks_in_order (le_path : string) (content : bytes) :
  (length content < 7 \/ le_magic content <> _LE_MAGIC ->
   load le_path content
   = Raises (Exn "ValueError" "Not a LUW binary (.le) or unsupported version")) /\
  (le_magic content = _LE_MAGIC ->
   forall e, le_manifest_read read_refused content = Raises e ->
   load le_path content = Raises e) /\
  (forall x, le_manifest_read read_refused content = Returns x ->
   x = (le_manifest_bytes content, le_payload content)) /\
  (le_magic content = _LE_MAGIC ->
   forall x e, le_manifest_read read_refused content = Returns x ->
   json_loads_utf8 (le_manifest_bytes content) = Raises e ->
   load le_path content
   = Raises (Exn "ValueError"
                 ("Invalid manifest in " ++ le_path ++ ": " ++ exn_str e))) /\
  (le_magic content = _LE_MAGIC ->
   forall x manifest e, le_manifest_read read_refused content = Returns x ->
   json_loads_utf8 (le_manifest_bytes content) = Returns manifest ->
   gzip_decompress (le_payload content) = Raises e ->
   load le_path content
   = Raises (Exn "ValueError"
                 ("Invalid payload (not gzip?) in " ++ le_path ++ ": " ++ exn_str e))).
Proof.
  rewrite load_le_parts. split; [|split; [|split; [|split]]].
  - intros H.
    assert (Hm : le_magic content <> _LE_MAGIC).
    { destruct H as [Hlen | Hm]; [|exact Hm].
      intros E. apply (f_equal (@length byte)) in E.
      unfold le_magic in E.
      rewrite length_firstn in E.
      change (length _LE_MAGIC) with 7 in E. lia. }
    destruct (bytes_eqb (le_magic content) _LE_MAGIC) eqn:B; [|reflexivity].
    apply bytes_eqb_eq in B. contradiction.
  - intros Hm e He.
    rewrite (proj2 (bytes_eqb_eq _ _) Hm). cbn [negb]. now rewrite He.
  - intros x Hx. unfold le_manifest_read in Hx.
    now apply file_read_returns in Hx.
  - intros Hm x e Hx He.
    rewrite (proj2 (bytes_eqb_eq _ _) Hm). cbn [negb]. now rewrite Hx, He.
  - intros Hm x manifest e Hx Hj Hg.
    rewrite (proj2 (bytes_eqb_eq _ _) Hm). cbn [negb]. now rewrite Hx, Hj, Hg.
Qed.

End ContainerErrors.

(** ** Commands of the registry *)

Lemma reversed_snoc (s : string) (c : ascii) :
  PyStr.reversed (s ++ String c EmptyString) = String c (PyStr.reversed s).
Proof.
  induction s as [|x s IH]; [reflexivity|].
  cbn [append]. now rewrite !reversed_cons, IH.
Qed.

Lemma reversed_involutive (s : string) : PyStr.reversed (PyStr.reversed s) = s.
Proof.
  induction s as [|c s IH]; [reflexivity|].
  now rewrite reversed_cons, reversed_snoc, IH.
Qed.

Section RegistryCommands.

Context {P : Platform}.

(** X23. [reverse] never raises and undoes itself.  Whatever its
    arguments, [reverse] comes back with a text and leaves the environment
    and the machine as they are: a file or a URL that cannot be read gives
    a text that says so.  Without [--file] and [--url] the text is the
    argument under [str] read backwards, and [reverse] applied to that
    result gives the argument back. *)
Theorem reverse_returns_and_undoes_itself (args env : dict string) (o : OS P) :
  (exists t, reverse args env o = (Returns t, (env, o))) /\
  (truthy (get_or args "file" "f") = None ->
   truthy (get_or args "url" "u") = None ->
   reverse args env o = (Returns (PyStr.reversed (get_str args "str")), (env, o)) /\
   reverse [("str", PyStr.reversed (get_str args "str"))] env o
   = (Returns (get_str args "str"), (env, o))).
Proof.
  split.
  - unfold reverse.
    destruct (truthy (get_or args "file" "f")) as [file_path|].
    { destruct (read_text P file_path o); eexists; reflexivity. }
    destruct (truthy (get_or args "url" "u")) as [url|].
    { destruct (url_read P url o); eexists; reflexivity. }
    eexists; reflexivity.
  - intros Hf Hu. split.
    + unfold reverse. now rewrite Hf, Hu, str_or_empty.
    + unfold reverse. cbn [get_or dict_get String.eqb Ascii.eqb Bool.eqb truthy get_str].
      now rewrite str_or_empty, reversed_involutive.
Qed.

End RegistryCommands.

(** [uniq --all] *)

Lemma uniq_all_from_spec (lines : list string) :
  forall seen,
    NoDup (uniq_all_from seen lines) /\
    (forall l, In l (uniq_all_from seen lines)
               <-> In l lines /\ str_in l seen = false).
Proof.
  assert (Hin : forall l seen, str_in l seen = true <-> In l seen).
  { intros l seen. unfold str_in. rewrite existsb_exists. split.
    - intros (x & Hx & E). apply String.eqb_eq in E. now subst.
    - intros H. exists l. split; [exact H | apply String.eqb_refl]. }
  induction lines as [|x lines IH]; intros seen; cbn [uniq_all_from].
  - split; [constructor|]. intros l. cbn. tauto.
  - destruct (str_in x seen) eqn:Ex.
    + destruct (IH seen) as [Hn Hl]. split; [exact Hn|].
      intros l. rewrite Hl. cbn [In]. split; [tauto|].
      intros [[<- | H] Hs]; [congruence | tauto].
    + destruct (IH (x :: seen)) as [Hn Hl]. split.
      * constructor; [|exact Hn]. rewrite Hl. intros [_ Hs].
        cbn [str_in existsb] in Hs. now rewrite String.eqb_refl in Hs.
      * intros l. cbn [In]. rewrite Hl. cbn [str_in existsb].
        destruct (String.eqb l x) eqn:E.
        -- apply String.eqb_eq in E. subst l. cbn. split; [tauto|].
           intros _. now left.
        -- apply String.eqb_neq in E. cbn. split.
           ++ intros [H | H]; [congruence | tauto].
           ++ intros [[H | H] Hs]; [congruence | tauto].
Qed.

Lemma uniq_all_from_fixed (lines : list string) :
  forall seen,
    NoDup lines -> (forall l, In l lines -> str_in l seen = false) ->
    uniq_all_from seen lines = lines.
Proof.
  induction lines as [|x lines IH]; intros seen Hn Hs; [reflexivity|].
  cbn [uniq_all_from]. rewrite (Hs x (or_introl eq_refl)).
  inversion Hn as [|? ? Hx Hn']; subst. f_equal. apply IH; [exact Hn'|].
  intros l Hl. pose proof (Hs l (or_intror Hl)) as H.
  unfold str_in in *. cbn [existsb]. rewrite H, orb_false_r.
  apply String.eqb_neq. intros ->. contradiction.
Qed.

(** The default [uniq] *)

Lemma uniq_consecutive_spec (lines : list string) :
  forall prev,
    no_repeat (uniq_consecutive prev lines) = true /\
    (forall p, prev = Some p ->
       match uniq_consecutive prev lines with
       | [] => True
       | a :: _ => a <> p
       end) /\
    (forall l, In l (uniq_consecutive prev lines) -> In l lines) /\
    (forall l, In l lines -> In l (uniq_consecutive prev lines) \/ prev = Some l).
Proof.
  induction lines as [|x lines IH]; intros prev; cbn [uniq_consecutive].
  - repeat split; auto; intros l [].
  - destruct (IH (Some x)) as (Hr & Hh & Hsub & Hsup).
    assert (Hcons : no_repeat (x :: uniq_consecutive (Some x) lines) = true).
    { cbn [no_repeat]. specialize (Hh x eq_refl).
      destruct (uniq_consecutive (Some x) lines) as [|a r]; [reflexivity|].
      apply andb_true_iff. split; [|exact Hr].
      apply negb_true_iff, String.eqb_neq. congruence. }
    assert (Hsup' : forall l, In l (x :: lines) ->
                      In l (x :: uniq_consecutive (Some x) lines)).
    { intros l [<- | Hl]; [now left|].
      destruct (Hsup l Hl) as [H | H]; [now right | left; congruence]. }
    destruct prev as [p|].
    + destruct (String.eqb x p) eqn:E; cbn [negb].
      * apply String.eqb_eq in E. subst p.
        split; [exact Hr|]. split; [|split].
        -- intros p [= <-]. now apply Hh.
        -- intros l Hl. right. now apply Hsub.
        -- intros l [<- | Hl]; [now right|].
           destruct (Hsup l Hl) as [H | H]; [now left | right; exact H].
      * apply String.eqb_neq in E.
        split; [exact Hcons|]. split; [|split].
        -- intros p' [= <-]. exact E.
        -- intros l [<- | Hl]; [now left | right; now apply Hsub].
        -- intros l Hl. left. now apply Hsup'.
    + split; [exact Hcons|]. split; [|split].
      * intros p [=].
      * intros l [<- | Hl]; [now left | right; now apply Hsub].
      * intros l Hl. left. now apply Hsup'.
Qed.

Lemma uniq_consecutive_fixed (lines : list string) :
  forall prev,
    no_repeat lines = true ->
    (forall p, prev = Some p -> match lines with [] => True | a :: _ => a <> p end) ->
    uniq_consecutive prev lines = lines.
Proof.
  induction lines as [|x lines IH]; intros prev Hr Hp; [reflexivity|].
  cbn [uniq_consecutive].
  assert (Hd : match prev with
               | Some p => negb (String.eqb x p)
               | None => true
               end = true).
  { destruct prev as [p|]; [|reflexivity].
    apply negb_true_iff, String.eqb_neq. now apply Hp. }
  rewrite Hd. f_equal. apply IH.
  - destruct lines as [|y lines]; [reflexivity|].
    cbn [no_repeat] in Hr. apply andb_true_iff in Hr. tauto.
  - intros p [= <-]. destruct lines as [|y lines]; [exact I|].
    cbn [no_repeat] in Hr. apply andb_true_iff in Hr. destruct Hr as [Hxy _].
    apply negb_true_iff, String.eqb_neq in Hxy. congruence.
Qed.

Lemma uniq_consecutive_repeat (x : string) (k : nat) (l : list string) :
  uniq_consecutive (Some x) (repeat x k ++ l)%list = uniq_consecutive (Some x) l.
Proof.
  induction k as [|k IH]; [reflexivity|].
  cbn [repeat]. rewrite <- app_comm_cons. cbn [uniq_consecutive].
  rewrite String.eqb_refl. cbn [negb]. exact IH.
Qed.

(** One line for each run. *)
Lemma uniq_consecutive_runs (runs : list (string * nat)) :
  forall prev,
    no_repeat (map fst runs) = true ->
    (forall p, prev = Some p ->
       match runs with [] => True | run :: _ => fst run <> p end) ->
    uniq_consecutive prev (expand_runs runs) = map fst runs.
Proof.
  induction runs as [|[x k] runs IH]; intros prev Hr Hp; [reflexivity|].
  unfold expand_runs. cbn [flat_map fst snd repeat map].
  rewrite <- app_comm_cons. cbn [uniq_consecutive].
  assert (Hd : match prev with
               | Some p => negb (String.eqb x p)
               | None => true
               end = true).
  { destruct prev as [p|]; [|reflexivity].
    apply negb_true_iff, String.eqb_neq. exact (Hp p eq_refl). }
  rewrite Hd, uniq_consecutive_repeat. f_equal.
  apply IH.
  - cbn [map fst] in Hr. destruct (map fst runs) as [|y ys] eqn:E; [reflexivity|].
    cbn [no_repeat] in Hr. apply andb_true_iff in Hr. tauto.
  - intros p [= <-]. destruct runs as [|[y j] runs']; [exact I|].
    cbn [map fst no_repeat] in Hr. apply andb_true_iff in Hr. destruct Hr as [Hxy _].
    apply negb_true_iff, String.eqb_neq in Hxy. cbn [fst]. congruence.
Qed.

(** Every list of lines is made of runs. *)
Lemma runs_exist (lines : list string) :
  exists runs, lines = expand_runs runs /\ no_repeat (map fst runs) = true.
Proof.
  induction lines as [|x lines IH]; [now exists []|].
  destruct IH as (runs & -> & Hr).
  destruct runs as [|[a k] rs].
  - exists [(x, 0)]. split; reflexivity.
  - destruct (String.eqb x a) eqn:E.
    + apply String.eqb_eq in E. subst a.
      exists ((x, S k) :: rs). split; [reflexivity | exact Hr].
    + exists ((x, 0) :: (a, k) :: rs). split; [reflexivity|].
      cbn [map fst no_repeat]. rewrite E. cbn [negb andb]. exact Hr.
Qed.

Section Uniq.

Context {P : Platform}.

(** X24. [uniq --all].  When the flag [all] is [1], [true] or [yes] (in
    any letter case, white space around it ignored), the lines [uniq]
    answers with, joined by line feeds, are the lines of its text without
    any repetition: each line of the text is there once, and nothing else;
    a text without repeated lines comes back line for line.  The command
    always returns and changes nothing. *)
Theorem uniq_all_removes_every_repetition (args env : dict string) (o : OS P) :
  str_in (PyStr.lower (PyStr.strip (get_str args "all"))) ["1"; "true"; "yes"] = true ->
  let lines := PyStr.splitlines (get_str args "str") in
  exists kept,
    uniq args env o = (Returns (PyStr.join LF kept), (env, o)) /\
    NoDup kept /\ (forall l, In l kept <-> In l lines) /\
    (NoDup lines -> kept = lines).
Proof.
  intros Hall lines. exists (uniq_all_from [] lines).
  split; [unfold uniq, uniq_lines; now rewrite Hall|].
  destruct (uniq_all_from_spec lines []) as [Hn Hl].
  split; [exact Hn|]. split.
  - intros l. rewrite Hl. cbn. tauto.
  - intros Hnd. now apply uniq_all_from_fixed.
Qed.

(** X25. [uniq] without [--all].  The lines [uniq] answers with, joined
    by line feeds, are the lines of its text with every run of equal
    neighbours reduced to one line: the lines of the text are runs, each a
    line repeated some number of times with a different line after it, and
    the answer is the list of these lines, one for each run and in their
    order (a line that comes back after another line is kept again).  So
    no two neighbours of the answer are equal, a line is in the answer
    exactly when it is in the text, and a text without equal neighbours
    comes back line for line. *)
Theorem uniq_removes_equal_neighbours (args env : dict string) (o : OS P) :
  str_in (PyStr.lower (PyStr.strip (get_str args "all"))) ["1"; "true"; "yes"] = false ->
  let lines := PyStr.splitlines (get_str args "str") in
  exists kept,
    uniq args env o = (Returns (PyStr.join LF kept), (env, o)) /\
    (exists runs, lines = expand_runs runs /\ no_repeat (map fst runs) = true) /\
    (forall runs,
       lines = expand_runs runs -> no_repeat (map fst runs) = true ->
       kept = map fst runs) /\
    no_repeat kept = true /\ (forall l, In l kept <-> In l lines) /\
    (no_repeat lines = true -> kept = lines).
Proof.
  intros Hall lines. exists (uniq_consecutive None lines).
  split; [unfold uniq, uniq_lines; now rewrite Hall|].
  split; [apply runs_exist|].
  split.
  { intros runs -> Hr. apply uniq_consecutive_runs; [exact Hr|]. intros p [=]. }
  destruct (uniq_consecutive_spec lines None) as (Hr & _ & Hsub & Hsup).
  split; [exact Hr|]. split.
  - intros l. split; [apply Hsub|].
    intros Hl. destruct (Hsup l Hl) as [H | H]; [exact H | discriminate H].
  - intros Hnr. apply uniq_consecutive_fixed; [exact Hnr|]. intros p [=].
Qed.

End Uniq.

(** ** [_wrap_text] *)

Lemma join_cons (sep x : string) (y : string) (r : list string) :
  PyStr.join sep (x :: y :: r) = x ++ sep ++ PyStr.join sep (y :: r).
Proof. reflexivity. Qed.

Lemma join_snoc2 (sep a b : string) (lines : list string) :
  PyStr.join sep (lines ++ [a; b])%list
  = PyStr.join sep (lines ++ [(a ++ sep ++ b)%string])%list.
Proof.
  induction lines as [|x lines IH]; [reflexivity|].
  destruct lines as [|y lines].
  - reflexivity.
  - change ((x :: y :: lines) ++ [a; b])%list
      with (x :: y :: (lines ++ [a; b]))%list.
    change ((x :: y :: lines) ++ [(a ++ sep ++ b)%string])%list
      with (x :: y :: (lines ++ [(a ++ sep ++ b)%string]))%list.
    rewrite !join_cons. f_equal. f_equal. exact IH.
Qed.

Lemma string_length_append (a b : string) :
  String.length (a ++ b) = String.length a + String.length b.
Proof.
  induction a as [|c a IH]; [reflexivity|]. cbn. now rewrite IH.
Qed.

Lemma wrap_loop_join (width : nat) (words : list string) :
  forall cur lines,
    PyStr.join " " (wrap_loop width cur words lines)
    = PyStr.join " " (lines ++ [PyStr.join " " (cur :: words)])%list.
Proof.
  induction words as [|w words IH]; intros cur lines; cbn [wrap_loop].
  - reflexivity.
  - destruct (Nat.leb _ width).
    + rewrite IH. f_equal. f_equal. f_equal.
      destruct words as [|v words].
      * reflexivity.
      * rewrite !join_cons. now rewrite !append_assoc.
    + rewrite IH, <- app_assoc.
      change ([cur] ++ [PyStr.join " " (w :: words)])%list
        with [cur; PyStr.join " " (w :: words)].
      rewrite join_snoc2. reflexivity.
Qed.

Lemma wrap_loop_width (width : nat) (all_words words : list string) :
  forall cur lines,
    (forall w, In w words -> In w all_words) ->
    (String.length cur <= width \/ In cur all_words) ->
    Forall (fun line => String.length line <= width \/ In line all_words) lines ->
    Forall (fun line => String.length line <= width \/ In line all_words)
           (wrap_loop width cur words lines).
Proof.
  induction words as [|w words IH]; intros cur lines Hw Hc Hl; cbn [wrap_loop].
  - apply Forall_app. split; [exact Hl | now constructor].
  - destruct (Nat.leb (String.length cur + 1 + String.length w) width) eqn:E.
    + apply IH; [intros v Hv; apply Hw; now right | | exact Hl].
      left. apply Nat.leb_le in E.
      rewrite !string_length_append. cbn [String.length]. lia.
    + apply IH; [intros v Hv; apply Hw; now right | | ].
      * right. apply Hw. now left.
      * apply Forall_app. split; [exact Hl | now constructor].
Qed.

(** X26. Wrapping loses no word.  The lines [_wrap_text] gives, joined
    by single spaces, are the words of the message joined by single
    spaces, whatever the width: every word is kept, in order, and no word
    is cut.  A message without a word gives one empty line. *)
Theorem wrap_text_keeps_the_words (msg : string) (width : nat) :
  PyStr.join " " (_wrap_text msg width) = PyStr.join " " (PyStr.split_ws msg) /\
  (PyStr.split_ws msg = [] -> _wrap_text msg width = [EmptyString]).
Proof.
  unfold _wrap_text. destruct (PyStr.split_ws msg) as [|first rest].
  - split; reflexivity.
  - split; [|discriminate]. now rewrite wrap_loop_join.
Qed.

(** X27. Wrapping keeps to the width where it can.  Every line
    [_wrap_text] gives is at most [width] characters long, or is a single
    word of the message (a word longer than the width is put on a line of
    its own and not cut). *)
Theorem wrap_text_lines_fit (msg : string) (width : nat) :
  Forall (fun line => String.length line <= width \/ In line (PyStr.split_ws msg))
         (_wrap_text msg width) /\
  _wrap_text msg width <> [].
Proof.
  unfold _wrap_text. destruct (PyStr.split_ws msg) as [|first rest] eqn:E.
  - split; [|discriminate]. constructor; [|constructor]. left. cbn. lia.
  - split.
    + apply wrap_loop_width.
      * intros w Hw. now right.
      * right. now left.
      * constructor.
    + clear E.
      assert (H : forall cur lines, wrap_loop width cur rest lines <> []).
      { induction rest as [|w rest IH]; intros cur lines; cbn [wrap_loop].
        - intros H. apply app_eq_nil in H. destruct H as [_ H]. discriminate H.
        - destruct (Nat.leb _ width); apply IH. }
      apply H.
Qed.

(** ** The script loop *)

Section ScriptLoopFacts.

Context {P : Platform}.
Variable COMMANDS : dict (Command P).

Lemma script_step_inert (raw : string) (w : World P) :
  inert_line raw = true -> script_step COMMANDS raw w = (Ret tt, w).
Proof.
  unfold inert_line, script_step, script_line_skipped. cbv zeta.
  set (line := PyStr.rstrip_by _ raw). intros H.
  destruct (PyStr.startswith "#" (PyStr.strip line)) eqn:Ec.
  - now rewrite orb_true_r.
  - rewrite orb_false_r in *. unfold handle_input. rewrite H, orb_true_r.
    now destruct (PyStr.is_empty line).
Qed.

Lemma for_each_inert (lines : list string) (w : World P) :
  forallb inert_line lines = true ->
  for_each lines (script_step COMMANDS) w = (Ret tt, w).
Proof.
  induction lines as [|raw lines IH]; intros H; [reflexivity|].
  cbn [forallb] in H. apply andb_true_iff in H. destruct H as [Hr Hl].
  cbn [for_each]. unfold bind. rewrite (script_step_inert raw w Hr). now apply IH.
Qed.

Lemma for_each_skips_inert (lines : list string) (w : World P) :
  for_each lines (script_step COMMANDS) w
  = for_each (filter (fun raw => negb (inert_line raw)) lines) (script_step COMMANDS) w.
Proof.
  revert w. induction lines as [|raw lines IH]; intros w; [reflexivity|].
  cbn [filter]. destruct (inert_line raw) eqn:E; cbn [negb].
  - cbn [for_each]. unfold bind. rewrite (script_step_inert raw w E).
    apply IH.
  - cbn [for_each]. unfold bind.
    destruct (script_step COMMANDS raw w) as [[[]|e|] w1]; [apply IH | reflexivity..].
Qed.

Lemma for_each_stops (before after : list string) (raw : string) (e : exn) :
  forall w w1 w2 : World P,
    for_each before (script_step COMMANDS) w = (Ret tt, w1) ->
    script_step COMMANDS raw w1 = (Raise e, w2) ->
    for_each (before ++ raw :: after) (script_step COMMANDS) w = (Raise e, w2).
Proof.
  induction before as [|b before IH]; intros w w1 w2 Hb Hr.
  - cbn [for_each] in Hb. injection Hb as <-.
    rewrite app_nil_l. cbn [for_each]. unfold bind. now rewrite Hr.
  - rewrite <- app_comm_cons. cbn [for_each] in *. unfold bind in *.
    destruct (script_step COMMANDS b w) as [[[]|e0|] w0]; try discriminate Hb.
    now apply (IH w0 w1 w2).
Qed.

(** X28. The script loop of the container runner.  Lines that are
    empty, hold white space only or begin (after white space) with [#] have
    no effect at all: a script of such lines leaves the state as it is, and
    any script does what its other lines do, in their order.  The loop has
    no handler of its own: when the dispatch of a line raises, whatever the
    lines before it have done, the exception leaves the loop there, in the
    state that line has left, and the lines after it are not run. *)
Theorem script_loop_skips_and_stops (script_text : string) (w : World P) :
  (forallb inert_line (PyStr.splitlines script_text) = true ->
   run_script_lines COMMANDS script_text w = (Ret tt, w)) /\
  run_script_lines COMMANDS script_text w
    = for_each (filter (fun raw => negb (inert_line raw))
                       (PyStr.splitlines script_text))
               (script_step COMMANDS) w /\
  (forall (before after : list string) (raw : string) (e : exn) (w1 w2 : World P),
     PyStr.splitlines script_text = (before ++ raw :: after)%list ->
     for_each before (script_step COMMANDS) w = (Ret tt, w1) ->
     script_step COMMANDS raw w1 = (Raise e, w2) ->
     run_script_lines COMMANDS script_text w = (Raise e, w2)).
Proof.
  unfold run_script_lines. split; [apply for_each_inert|].
  split; [apply for_each_skips_inert|].
  intros before after raw e w1 w2 -> Hb Hr.
  now apply (for_each_stops before after raw e w w1 w2).
Qed.

End ScriptLoopFacts.

(** ** Batch lines: which subcommands hand over a task *)

Section BatchClasses.

Context {P : Platform}.
Variable COMMANDS : dict (Command P).

(** Chain resolution inside a subcommand always returns, and touches
    neither the pool nor the result channel. *)
Lemma inner_chain_returns (parts : list string) (text : option string) (w : World P) :
  exists r w1 evs,
    _evaluate_inner_chain_if_any COMMANDS parts text w = (Ret r, w1) /\
    out w1 = (out w ++ evs)%list /\ silent evs.
Proof.
  destruct (quiet_evaluate_inner COMMANDS parts text w) as (_ & _ & evs & Ho & Hs).
  assert (H : exists r w1,
            _evaluate_inner_chain_if_any COMMANDS parts text w = (Ret r, w1)).
  { unfold _evaluate_inner_chain_if_any.
    assert (Hna : forall w0 : World P, exists r w',
              not_applicable w0 = (Ret r, w')).
    { intros w0. now exists (false, None), w0. }
    destruct (_extract_positional parts) as [|p0 ps]; [apply Hna|].
    destruct (take_chain (recognized COMMANDS text) (p0 :: ps)) as [|c0 cs] eqn:Ec;
      [apply Hna|].
    unfold py_last.
    destruct (nth_error (c0 :: cs) (length (c0 :: cs) - 1)) as [innermost|] eqn:Elast.
    2:{ apply nth_error_None in Elast. simpl in Elast. lia. }
    unfold py_index at 1. rewrite Elast.
    unfold bind at 1. cbn [ret].
    set (parts_for_inner := match index_from innermost 0 parts 1 with
                            | Some i => skipn i parts
                            | None => _ end).
    unfold bind at 1.
    destruct (try_except_default
                (inn_cmd <- py_index parts_for_inner 0 ;;
                 run_chain_element COMMANDS inn_cmd
                   (_build_args_from_parts parts_for_inner)) None w)
      as (r1 & w1 & -> & _).
    { repeat first [ apply quiet_run_chain_element | quiet_step ]. }
    destruct r1 as [value|]; [|apply Hna].
    unfold bind at 1.
    destruct (apply_chain_returns COMMANDS (List.rev (removelast (c0 :: cs))) value w1)
      as (r2 & w2 & ->).
    destruct r2 as [value2|]; [|apply Hna].
    do 2 eexists. reflexivity. }
  destruct H as (r & w1 & E). exists r, w1, evs.
  rewrite E in Ho. cbn [snd] in Ho. auto.
Qed.

(** A subcommand that begins with a shell marker of its own. *)
Lemma batch_subcommand_marked (n : nat) (sub first : string) (rest : list string)
    (w : World P) :
  tokens sub = first :: rest ->
  str_in first ["!pwsh"; "!cmd"] = true ->
  batch_subcommand COMMANDS None n sub w
  = (shell_subcommand first (PyStr.strip (PyStr.join " " rest)) ;;; ret n) w.
Proof.
  intros Ht Hm. unfold batch_subcommand, shell_subcommand. cbv zeta.
  rewrite Ht, Hm. cbn [skipn].
  destruct (PyStr.is_empty _); [reflexivity|].
  unfold bind.
  destruct ((if String.eqb first "!pwsh" then run_pwsh_stream _ else run_cmd_stream _) w)
    as [[[rc err]|e|] w1]; reflexivity.
Qed.

(** A subcommand that is given to a shell hands over no task. *)
Lemma batch_subcommand_to_shell (global_shell : option string) (n : nat)
    (sub first : string) (rest : list string) (w : World P) :
  tokens sub = first :: rest ->
  global_shell <> None \/ str_in first ["!pwsh"; "!cmd"] = true ->
  exists w' evs,
    batch_subcommand COMMANDS global_shell n sub w = (Ret n, w') /\
    out w' = (out w ++ evs)%list /\ silent evs.
Proof.
  intros Ht Hs.
  destruct global_shell as [g|].
  - destruct (batch_subcommand_shell COMMANDS g n sub w) as (w' & evs & E & O & S & _).
    eauto.
  - destruct Hs as [Hs | Hs]; [congruence|].
    rewrite (batch_subcommand_marked n sub first rest w Ht Hs).
    destruct (then_ret (shell_subcommand first (PyStr.strip (PyStr.join " " rest)))
                n w (completes_shell_subcommand _ _))
      as (w' & evs & E & O & S & _).
    eauto.
Qed.

(** The three ways of a subcommand that is not given to a shell. *)
Lemma batch_subcommand_classes (n : nat) (sub first : string) (rest : list string)
    (w : World P) :
  tokens sub = first :: rest ->
  str_in first ["!pwsh"; "!cmd"] = false ->
  exists r w1,
    _evaluate_inner_chain_if_any COMMANDS (first :: rest) (Some sub) w = (Ret r, w1) /\
    exists evs,
      out (snd (batch_subcommand COMMANDS None n sub w)) = (out w ++ evs)%list /\
      if fst r then
        fst (batch_subcommand COMMANDS None n sub w) = Ret (n + 1) /\
        enqueued evs = [(first, [("str", py_str (snd r))])]
      else if str_in first BUILTIN_NAMES then
        enqueued evs = [] /\
        (fst (batch_subcommand COMMANDS None n sub w) = Ret n \/
         exists e, fst (batch_subcommand COMMANDS None n sub w) = Raise e)
      else
        fst (batch_subcommand COMMANDS None n sub w) = Ret (n + 1) /\
        enqueued evs
        = [(first, _expand_env_in_args (environ w1)
                     (_build_args_from_parts (first :: rest)))].
Proof.
  intros Ht Hs.
  destruct (inner_chain_returns (first :: rest) (Some sub) w)
    as ([ok value] & w1 & evs0 & E & O0 & [S0 _]).
  exists (ok, value), w1. split; [exact E|]. cbn [fst snd].
  destruct ok.
  - destruct (proj2 (proj2 (enqueue_paths COMMANDS)) n sub first rest w w1 value
                Ht Hs E) as (w' & evs & Eb & Ob & Hb).
    exists (evs0 ++ evs)%list. rewrite Eb. cbn [fst snd].
    split; [now rewrite Ob, O0, app_assoc|].
    split; [reflexivity|]. now rewrite enqueued_app, S0, Hb.
  - destruct (str_in first BUILTIN_NAMES) eqn:Hb.
    + assert (Hrun : batch_subcommand COMMANDS None n sub w
                     = match _run_builtin COMMANDS first
                               (_build_args_from_parts (first :: rest)) w1 with
                       | (Ret (handled, out), w2) =>
                           (if handled then
                              match out with
                              | Some o =>
                                  if PyStr.is_empty o then ret tt
                                  else _print_with_label (Some o) "sync" false
                              | None => ret tt
                              end ;;;
                              ret n
                            else
                              env <- gets environ ;;
                              dbg_enqueue sub ;;;
                              add_task first
                                (_expand_env_in_args env
                                   (_build_args_from_parts (first :: rest))) ;;;
                              ret (n + 1)) w2
                       | (Raise e, w2) => (Raise e, w2)
                       | (Blocked, w2) => (Blocked, w2)
                       end).
      { unfold batch_subcommand. rewrite Ht, Hs.
        unfold bind at 1. rewrite E. cbv iota beta.
        unfold bind at 1.
        destruct (_run_builtin COMMANDS first
                    (_build_args_from_parts (first :: rest)) w1)
          as [[[handled o]|e|] w2]; reflexivity. }
      rewrite Hrun. clear Hrun.
      destruct (quiet_run_builtin COMMANDS first
                  (_build_args_from_parts (first :: rest)) w1)
        as (Hnb & _ & evs1 & O1 & [S1 _]).
      destruct (_run_builtin COMMANDS first
                  (_build_args_from_parts (first :: rest)) w1)
        as [[[handled o]|e|] w2] eqn:Er; cbn [fst snd] in *.
      * destruct handled.
        -- assert (Hshow : completes (match o with
                              | Some o0 =>
                                  if PyStr.is_empty o0 then ret (P := P) tt
                                  else _print_with_label (Some o0) "sync" false
                              | None => ret tt
                              end)).
           { destruct o as [o0|]; [|apply completes_ret].
             destruct (PyStr.is_empty o0);
               [apply completes_ret | apply completes_print_with_label]. }
           destruct (then_ret _ n w2 Hshow) as (w3 & evs2 & E2 & O2 & [S2 _] & _).
           rewrite E2.
           exists (evs0 ++ evs1 ++ evs2)%list. cbn [fst snd].
           split; [now rewrite O2, O1, O0, !app_assoc|].
           split; [now rewrite !enqueued_app, S0, S1, S2 | now left].
        -- exfalso.
           destruct (run_builtin_unhandled_unchanged COMMANDS first _ w1 w2 o Er)
             as (Hf & _). congruence.
      * exists (evs0 ++ evs1)%list.
        split; [now rewrite O1, O0, app_assoc|].
        split; [now rewrite enqueued_app, S0, S1 | right; now exists e].
      * contradiction.
    + destruct (proj1 (proj2 (enqueue_paths COMMANDS)) n sub first rest w w1 value
                  Ht Hs E Hb) as (w' & evs & Eb & Ob & He).
      exists (evs0 ++ evs)%list. rewrite Eb. cbn [fst snd].
      split; [now rewrite Ob, O0, app_assoc|].
      split; [reflexivity|]. now rewrite enqueued_app, S0, He.
Qed.

(** C2, as amended.  After the subcommands of a batch line have been
    dispatched, the caller reads the result channel once for each task that
    was handed to the pool, each read with the waiting time 10 (when the
    dispatch loop raises there is no read): the number of reads is the
    number of tasks, not the number of subcommands.  Which subcommands hand
    over a task: none that has no token; none that is given to a shell (a
    marker [!pwsh] or [!cmd] after [!mt], or as its own first token); of
    the others, one that is resolved as a chain hands over one task, the
    chained value for its first token, whether that token is a built-in or
    not; one that is no chain and whose first token is a built-in hands
    over none, the built-in answers on the spot (or raises); one that is no
    chain and whose first token is no built-in hands over one task.  So for
    the line [!mt echo a & echo b] (with [a] and [b] no command names and
    [!mt] no alias) no task is enqueued and no read is made. *)
Theorem batch_reads_one_per_enqueued_task :
  (forall (command command_line : string) (w : World P),
   exists evs,
     out (snd (batch_mode COMMANDS command command_line w)) = (out w ++ evs)%list /\
     ((fst (batch_mode COMMANDS command command_line w) = Ret tt /\
       result_reads evs = repeat (Some 10) (length (enqueued evs))) \/
      (exists e, fst (batch_mode COMMANDS command command_line w) = Raise e /\
                 result_reads evs = []))) /\
  (forall (global_shell : option string) (n : nat) (sub : string) (w : World P),
     tokens sub = [] ->
     batch_subcommand COMMANDS global_shell n sub w = (Ret n, w)) /\
  (forall (global_shell : option string) (n : nat) (sub first : string)
          (rest : list string) (w : World P),
     tokens sub = first :: rest ->
     global_shell <> None \/ str_in first ["!pwsh"; "!cmd"] = true ->
     exists w' evs,
       batch_subcommand COMMANDS global_shell n sub w = (Ret n, w') /\
       out w' = (out w ++ evs)%list /\ enqueued evs = []) /\
  (forall (n : nat) (sub first : string) (rest : list string) (w : World P),
     tokens sub = first :: rest ->
     str_in first ["!pwsh"; "!cmd"] = false ->
     exists r w1,
       _evaluate_inner_chain_if_any COMMANDS (first :: rest) (Some sub) w
         = (Ret r, w1) /\
       exists evs,
         out (snd (batch_subcommand COMMANDS None n sub w)) = (out w ++ evs)%list /\
         if fst r then
           fst (batch_subcommand COMMANDS None n sub w) = Ret (n + 1) /\
           enqueued evs = [(first, [("str", py_str (snd r))])]
         else if str_in first BUILTIN_NAMES then
           enqueued evs = [] /\
           (fst (batch_subcommand COMMANDS None n sub w) = Ret n \/
            exists e, fst (batch_subcommand COMMANDS None n sub w) = Raise e)
         else
           fst (batch_subcommand COMMANDS None n sub w) = Ret (n + 1) /\
           enqueued evs
           = [(first, _expand_env_in_args (environ w1)
                        (_build_args_from_parts (first :: rest)))]) /\
  (forall w : World P,
     dict_get COMMANDS "a" = None -> dict_get COMMANDS "b" = None ->
     dict_get (ALIASES w) "!mt" = None ->
     handle_input COMMANDS "!mt echo a & echo b" w
       = (Ret tt,
          with_out (out w ++ (if DEBUG_SUPPRESSED w then [EvPrint "a"; EvPrint "b"]
                              else [EvLog "[Worker sync] a"; EvLog "[Worker sync] b";
                                    EvLog "Added 0 tasks (multithread)"]))%list w)).
Proof.
  split; [apply batch_mode_reads|].
  split.
  { intros global_shell n sub w Ht. unfold batch_subcommand. now rewrite Ht. }
  split.
  { intros global_shell n sub first rest w Ht Hs.
    destruct (batch_subcommand_to_shell global_shell n sub first rest w Ht Hs)
      as (w' & evs & E & O & [S _]).
    eauto. }
  split; [apply batch_subcommand_classes|].
  apply batch_echo_line.
Qed.

End BatchClasses.

(** ** Variable expansion: every reference is replaced *)

Lemma take_word_inv (s : string) :
  forall w rest, take_word s = (w, rest) ->
    s = w ++ rest /\ all_chars PyStr.is_word w = true /\ ends_name rest = true.
Proof.
  induction s as [|c s IH]; intros w rest H; cbn in H.
  - injection H as <- <-. repeat split.
  - destruct (PyStr.is_word c) eqn:Ec.
    + destruct (take_word s) as [w' rest'] eqn:E.
      injection H as <- <-.
      destruct (IH w' rest' eq_refl) as (Hs & Hw & Hr).
      cbn. rewrite Ec, Hw. subst s. repeat split. exact Hr.
    + injection H as <- <-. cbn. rewrite Ec. repeat split.
Qed.

Lemma take_name_inv (s n rest : string) :
  take_name s = Some (n, rest) ->
  s = n ++ rest /\ is_identifier n = true /\ ends_name rest = true.
Proof.
  destruct s as [|c s]; cbn; [discriminate|].
  destruct (PyStr.is_name_start c) eqn:Ec; [|discriminate].
  destruct (take_word s) as [w rest'] eqn:E.
  intros [= <- <-].
  destruct (take_word_inv s w rest' E) as (Hs & Hw & Hr).
  cbn. rewrite Ec, Hw. subst s. repeat split. exact Hr.
Qed.

Lemma take_name_none (s : string) :
  take_name s = None ->
  match s with String c _ => PyStr.is_name_start c = false | EmptyString => True end.
Proof.
  destruct s as [|c s]; cbn; [trivial|].
  destruct (PyStr.is_name_start c); [|reflexivity].
  destruct (take_word s). discriminate.
Qed.

Lemma startswith_split (p s : string) :
  PyStr.startswith p s = true -> s = p ++ PyStr.drop (String.length p) s.
Proof.
  revert s. induction p as [|a p IH]; intros s H; [reflexivity|].
  destruct s as [|b s]; [discriminate|].
  cbn in H. apply andb_true_iff in H. destruct H as [Hab Hp].
  apply Ascii.eqb_eq in Hab. subst b. cbn. f_equal. now apply IH.
Qed.

(** The bare form, under the exact condition of the pattern. *)
Lemma match_env_bare_exact (n rest : string) :
  is_identifier n = true -> ends_name rest = true ->
  reads_env_prefix (n ++ rest) = false ->
  match_env_pattern ("$" ++ n ++ rest) = Some (n, 1 + String.length n).
Proof.
  intros Hn Hr He.
  destruct (PyStr.startswith "env:" (n ++ rest)) eqn:Es;
    [|now apply match_env_bare].
  unfold reads_env_prefix in He. rewrite Es in He. cbn [andb] in He.
  change ("$" ++ n ++ rest) with (String "$" (n ++ rest)).
  unfold match_env_pattern. rewrite Es.
  assert (Ht : take_name (PyStr.drop 4 (n ++ rest)) = None).
  { destruct (PyStr.drop 4 (n ++ rest)) as [|c r]; [reflexivity|].
    cbn. now rewrite He. }
  rewrite Ht.
  rewrite (take_name_identifier n rest Hn Hr).
  destruct n as [|c n]; [discriminate|].
  cbn in Hn. apply andb_true_iff in Hn. destruct Hn as [Hc _].
  apply name_start_not_brace in Hc.
  cbn [append].
  destruct c as [[] [] [] [] [] [] [] []]; try reflexivity; discriminate Hc.
Qed.

Lemma expand_env_bare_exact (env : dict string) (n rest : string) :
  is_identifier n = true -> ends_name rest = true ->
  reads_env_prefix (n ++ rest) = false ->
  _expand_env_in_str env ("$" ++ n ++ rest)
  = get_str env n ++ _expand_env_in_str env rest.
Proof.
  intros Hn Hr He. rewrite !expand_is_env_sub.
  pose proof (match_env_bare_exact n rest Hn Hr He) as Hm.
  change ("$" ++ n ++ rest) with (String "$" (n ++ rest)) in *.
  cbn [env_sub]. rewrite Hm. f_equal.
  replace (1 + String.length n - 1) with (String.length n + 0) by lia.
  apply env_sub_skip.
Qed.

(** A reference at the head of a text is a match of the pattern there. *)
Lemma reference_at_match (s n rest : string) :
  reference_at s n rest -> exists len, match_env_pattern s = Some (n, len).
Proof.
  intros [n0 r0 Hn Hr | n0 r0 Hn | n0 r0 Hn Hr He]; eexists.
  - now apply match_env_prefixed.
  - now apply match_env_braces.
  - now apply match_env_bare_exact.
Qed.

Lemma reference_at_expand (env : dict string) (s n rest : string) :
  reference_at s n rest ->
  _expand_env_in_str env s = value_or_empty env n ++ _expand_env_in_str env rest.
Proof.
  intros [n0 r0 Hn Hr | n0 r0 Hn | n0 r0 Hn Hr He].
  - now apply expand_env_prefixed.
  - now apply expand_env_braces.
  - now apply expand_env_bare_exact.
Qed.

Lemma reference_at_shorter (s n rest : string) :
  reference_at s n rest -> String.length rest < String.length s.
Proof.
  intros [n0 r0 Hn Hr | n0 r0 Hn | n0 r0 Hn Hr He];
    rewrite ?string_length_append; cbn [String.length]; lia.
Qed.

(** A match of the pattern at the head of a text is a reference there. *)
Lemma match_reference_at (s n : string) (len : nat) :
  match_env_pattern s = Some (n, len) -> exists rest, reference_at s n rest.
Proof.
  destruct s as [|c r]; [discriminate|].
  destruct (Ascii.eqb c "$"%char) eqn:Ec;
    [|now rewrite (match_env_pattern_other c r Ec)].
  apply Ascii.eqb_eq in Ec. subst c.
  assert (Halt3 : forall m l,
            match take_name r with
            | Some (n', _) => Some (n', 1 + String.length n')
            | None => None
            end = Some (m, l) ->
            reads_env_prefix r = false ->
            exists rest, reference_at (String "$" r) m rest).
  { intros m l H He. destruct (take_name r) as [[n' rest']|] eqn:Et; [|discriminate].
    injection H as <- _.
    destruct (take_name_inv r n' rest' Et) as (-> & Hn & Hr).
    exists rest'. now apply (ref_bare n' rest'). }
  assert (Halt2 : forall m l,
            match r with
            | String "{"%char r2 =>
                match take_name r2 with
                | Some (n', String "}"%char _) => Some (n', 3 + String.length n')
                | _ => match take_name r with
                       | Some (n', _) => Some (n', 1 + String.length n')
                       | None => None
                       end
                end
            | _ => match take_name r with
                   | Some (n', _) => Some (n', 1 + String.length n')
                   | None => None
                   end
            end = Some (m, l) ->
            reads_env_prefix r = false ->
            exists rest, reference_at (String "$" r) m rest).
  { intros m l H He.
    destruct r as [|c2 r2]; [discriminate H|].
    destruct (Ascii.eqb c2 "{"%char) eqn:E2.
    - apply Ascii.eqb_eq in E2. subst c2.
      destruct (take_name r2) as [[n' rest']|] eqn:Et.
      + destruct (take_name_inv r2 n' rest' Et) as (-> & Hn & Hr).
        destruct rest' as [|c3 r3]; [discriminate H|].
        destruct (Ascii.eqb c3 "}"%char) eqn:E3.
        * apply Ascii.eqb_eq in E3. subst c3.
          injection H as <- _. exists r3.
          exact (ref_braces n' r3 Hn).
        * exfalso.
          destruct c3 as [[] [] [] [] [] [] [] []]; try discriminate H;
            discriminate E3.
      + discriminate H.
    - apply (Halt3 m l); [|exact He].
      destruct c2 as [[] [] [] [] [] [] [] []]; try exact H; discriminate E2. }
  unfold match_env_pattern.
  destruct (PyStr.startswith "env:" r) eqn:Es.
  - destruct (take_name (PyStr.drop 4 r)) as [[n' rest']|] eqn:Et.
    + intros [= <- _].
      destruct (take_name_inv _ n' rest' Et) as (Hd & Hn & Hr).
      apply startswith_split in Es. cbn [String.length] in Es.
      rewrite Hd in Es. exists rest'. rewrite Es.
      exact (ref_env_prefixed n' rest' Hn Hr).
    + intros H. apply (Halt2 n len H).
      unfold reads_env_prefix. rewrite Es. cbn [andb].
      apply take_name_none in Et.
      destruct (PyStr.drop 4 r); [reflexivity | exact Et].
  - intros H. apply (Halt2 n len H).
    unfold reads_env_prefix. now rewrite Es.
Qed.

Lemma expand_no_reference (env : dict string) (c : ascii) (r : string) :
  (forall n rest, ~ reference_at (String c r) n rest) ->
  _expand_env_in_str env (String c r) = String c (_expand_env_in_str env r).
Proof.
  intros H. rewrite !expand_is_env_sub. cbn [env_sub].
  destruct (match_env_pattern (String c r)) as [[n len]|] eqn:E; [|reflexivity].
  destruct (match_reference_at _ _ _ E) as [rest Hr].
  exfalso. exact (H n rest Hr).
Qed.

(** Expansion replaces every reference and keeps every other character. *)
Lemma expand_replaces_references (env : dict string) (s : string) :
  references_replaced env s (_expand_env_in_str env s).
Proof.
  remember (String.length s) as k eqn:Hk.
  revert s Hk. induction k as [k IH] using lt_wf_ind. intros s Hk.
  destruct s as [|c r]; [constructor|].
  destruct (match_env_pattern (String c r)) as [[n len]|] eqn:E.
  - destruct (match_reference_at _ _ _ E) as [rest Hr].
    rewrite (reference_at_expand env _ _ _ Hr).
    apply (replaced_reference env _ n rest); [exact Hr|].
    apply (IH (String.length rest)); [|reflexivity].
    subst k. now apply (reference_at_shorter _ n).
  - assert (Hn : forall n rest, ~ reference_at (String c r) n rest).
    { intros n rest Hr. destruct (reference_at_match _ _ _ Hr) as [len Hl].
      congruence. }
    rewrite (expand_no_reference env c r Hn).
    apply replaced_char; [exact Hn|].
    apply (IH (String.length r)); [|reflexivity].
    subst k. cbn. lia.
Qed.

(** ... and nothing else does. *)
Lemma references_replaced_expand (env : dict string) (s t : string) :
  references_replaced env s t -> t = _expand_env_in_str env s.
Proof.
  induction 1 as [| s n rest t Hr _ IH | c r t Hn _ IH].
  - reflexivity.
  - now rewrite (reference_at_expand env _ _ _ Hr), IH.
  - now rewrite (expand_no_reference env c r Hn), IH.
Qed.

Section HandedToThePool.

Context {P : Platform}.
Variable COMMANDS : dict (Command P).

(** C9, as amended.  On the single-command path and for a plain
    subcommand of a batch line (no chain, no built-in), the mapping handed
    to the pool is the argument mapping of the line with variable expansion
    applied to each of its values, under the environment of that moment:
    the keys and their order are kept, and in each value, read from left to
    right, every reference [$env:NAME], [${NAME}] or [$NAME] is replaced by
    the value of [NAME] in the environment, or by the empty text when
    [NAME] is not set; every other character is kept.  For a subcommand of
    a batch line that is resolved as a chain, the mapping handed over is
    the chained value under the default key, as it is: no expansion is
    applied to it. *)
Theorem enqueued_arguments_expansion :
  (forall (command command_line : string) (parts_all : list string) (w : World P),
     str_in command BUILTIN_NAMES = false ->
     exists evs,
       out (snd (single_command COMMANDS command command_line parts_all w))
         = (out w ++ evs)%list /\
       enqueued evs
         = [(command, _expand_env_in_args (environ w)
                        (_build_args_from_parts parts_all))]) /\
  (forall (n : nat) (sub first : string) (rest : list string)
          (w w1 : World P) (r : option string),
     tokens sub = first :: rest ->
     str_in first ["!pwsh"; "!cmd"] = false ->
     _evaluate_inner_chain_if_any COMMANDS (first :: rest) (Some sub) w
       = (Ret (false, r), w1) ->
     str_in first BUILTIN_NAMES = false ->
     exists w' evs,
       batch_subcommand COMMANDS None n sub w = (Ret (n + 1), w') /\
       out w' = (out w1 ++ evs)%list /\
       enqueued evs
         = [(first, _expand_env_in_args (environ w1)
                      (_build_args_from_parts (first :: rest)))]) /\
  (forall (n : nat) (sub first : string) (rest : list string)
          (w w1 : World P) (value : option string),
     tokens sub = first :: rest ->
     str_in first ["!pwsh"; "!cmd"] = false ->
     _evaluate_inner_chain_if_any COMMANDS (first :: rest) (Some sub) w
       = (Ret (true, value), w1) ->
     exists w' evs,
       batch_subcommand COMMANDS None n sub w = (Ret (n + 1), w') /\
       out w' = (out w1 ++ evs)%list /\
       enqueued evs = [(first, [("str", py_str value)])]) /\
  (forall (env : dict string) (parts : list string),
     _expand_env_in_args env (_build_args_from_parts parts)
     = map (fun kv => (fst kv, _expand_env_in_str env (snd kv)))
           (_build_args_from_parts parts)) /\
  (forall (env : dict string) (s t : string),
     references_replaced env s t <-> t = _expand_env_in_str env s).
Proof.
  destruct (enqueue_paths COMMANDS) as (H1 & H2 & H3).
  split; [exact H1|]. split; [exact H2|]. split; [exact H3|].
  split.
  - intros env parts. unfold _expand_env_in_args.
    now rewrite (expand_args_from env _ [] (build_args_unique parts)).
  - intros env s t. split.
    + apply references_replaced_expand.
    + intros ->. apply expand_replaces_references.
Qed.

End HandedToThePool.

(** ** The further statements at concrete inputs *)

Lemma batch_reads_one_per_enqueued_task_witness :
  (dict_get example_registry "a" = None /\
   dict_get example_registry "b" = None /\
   dict_get (ALIASES example_world) "!mt" = None /\
   handle_input example_registry "!mt echo a & echo b" example_world
     = (Ret tt,
        with_out [EvLog "[Worker sync] a"; EvLog "[Worker sync] b";
                  EvLog "Added 0 tasks (multithread)"] example_world)) /\
  (tokens "echo upper x" = ["echo"; "upper"; "x"] /\
   str_in "echo" BUILTIN_NAMES = true /\
   exists evs,
     out (snd (batch_subcommand example_registry None 0 "echo upper x" example_world))
       = (out example_world ++ evs)%list /\
     fst (batch_subcommand example_registry None 0 "echo upper x" example_world)
       = Ret 1 /\
     enqueued evs = [("echo", [("str", "X")])]).
Proof.
  split.
  - repeat (split; [reflexivity|]).
    exact (proj2 (proj2 (proj2 (proj2
             (batch_reads_one_per_enqueued_task example_registry))))
             example_world eq_refl eq_refl eq_refl).
  - split; [reflexivity|]. split; [reflexivity|].
    destruct (proj1 (proj2 (proj2 (proj2
                (batch_reads_one_per_enqueued_task example_registry))))
                0 "echo upper x" "echo" ["upper"; "x"] example_world eq_refl eq_refl)
      as (r & w1 & E & evs & O & H).
    assert (Hr : r = (true, Some "X")).
    { vm_compute in E. congruence. }
    subst r. cbn [fst snd] in H.
    exists evs. split; [exact O | exact H].
Defined.

Lemma enqueued_arguments_expansion_witness :
  (str_in "upper" BUILTIN_NAMES = false /\
   exists evs,
     out (snd (single_command example_registry "upper" "upper $HOME"
                 ["upper"; "$HOME"] example_world))
       = (out example_world ++ evs)%list /\
     enqueued evs = [("upper", [("str", "/root")])]) /\
  (_evaluate_inner_chain_if_any example_registry ["upper"; "$HOME"]
       (Some "upper $HOME") example_world
     = (Ret (false, None), example_world) /\
   exists w' evs,
     batch_subcommand example_registry None 0 "upper $HOME" example_world
       = (Ret 1, w') /\
     out w' = (out example_world ++ evs)%list /\
     enqueued evs = [("upper", [("str", "/root")])]) /\
  (_evaluate_inner_chain_if_any example_registry ["upper"; "reverse"; "EMOH$"]
       (Some "upper reverse EMOH$") example_world
     = (Ret (true, Some "$HOME"), example_world) /\
   exists w' evs,
     batch_subcommand example_registry None 0 "upper reverse EMOH$" example_world
       = (Ret 1, w') /\
     out w' = (out example_world ++ evs)%list /\
     enqueued evs = [("upper", [("str", "$HOME")])]) /\
  references_replaced [("HOME", "/root")] "$HOME/bin:${HOME}:$env:USER."
                      "/root/bin:/root:.".
Proof.
  split; [|split; [|split]].
  - split; [reflexivity|].
    exact (proj1 (enqueued_arguments_expansion example_registry)
             "upper" "upper $HOME" ["upper"; "$HOME"] example_world eq_refl).
  - split; [reflexivity|].
    exact (proj1 (proj2 (enqueued_arguments_expansion example_registry))
             0 "upper $HOME" "upper" ["$HOME"] example_world example_world None
             eq_refl eq_refl eq_refl eq_refl).
  - split; [reflexivity|].
    exact (proj1 (proj2 (proj2 (enqueued_arguments_expansion example_registry)))
             0 "upper reverse EMOH$" "upper" ["reverse"; "EMOH$"]
             example_world example_world (Some "$HOME")
             eq_refl eq_refl eq_refl).
  - exact (proj2 (proj2 (proj2 (proj2 (proj2
             (enqueued_arguments_expansion example_registry))))
             [("HOME", "/root")] "$HOME/bin:${HOME}:$env:USER." "/root/bin:/root:.")
             eq_refl).
Defined.

Lemma chain_needs_a_command_token_witness :
  _evaluate_composed_chain_if_any example_registry "echo" ["echo"; "hello"]
      (Some "echo hello") example_world
    = (Ret (false, None), example_world) /\
  ordinary_dispatch example_registry "echo" "echo hello" ["echo"; "hello"] example_world
    = single_command example_registry "echo" "echo hello" ["echo"; "hello"] example_world.
Proof.
  destruct (chain_needs_a_command_token example_registry "echo" ["echo"; "hello"]
              (Some "echo hello") example_world eq_refl) as (H1 & _ & H3).
  split; [exact H1 | exact (H3 "echo hello" eq_refl)].
Defined.

Lemma chain_of_two_composes_witness :
  _evaluate_composed_chain_if_any example_registry "upper"
      ["upper"; "reverse"; "hello"; "world"] (Some "upper reverse hello world")
      example_world
    = (Ret (true, Some "DLROW OLLEH"), example_world).
Proof.
  exact (chain_of_two_composes example_registry "upper" "reverse" ["hello"; "world"]
           (Some "upper reverse hello world") reverse_cmd upper_cmd example_world
           eq_refl eq_refl eq_refl eq_refl eq_refl eq_refl eq_refl).
Defined.

Lemma alias_definition_round_trip_witness :
  _run_builtin example_registry "alias" [("str", "ll=ls -la")] example_world
    = (Ret (true, Some EmptyString),
       with_ALIASES [("ll", "ls -la")] example_world) /\
  _expand_aliases_line [("ll", "ls -la")] "ll /tmp" = "ls -la /tmp".
Proof.
  assert (Hn : PyStr.strip "ll" <> EmptyString) by discriminate.
  assert (He : PyStr.strip_by is_quote_char (PyStr.strip "ls -la") <> EmptyString)
    by discriminate.
  destruct (alias_definition_round_trip example_registry [("str", "ll=ls -la")]
              "ll" "ls -la" example_world eq_refl Hn He) as (H1 & _ & _ & H4).
  split; [exact H1|].
  refine (H4 "ll /tmp" ["/tmp"] _ eq_refl _).
  - discriminate.
  - intros t r H. injection H as <- _. reflexivity.
Defined.

Lemma unalias_removes_witness :
  _run_builtin example_registry "unalias" [("str", "ll")]
      (with_ALIASES [("ll", "ls -la")] example_world)
    = (Ret (true, Some EmptyString), example_world) /\
  _expand_aliases_line [] "ll /tmp" = "ll /tmp".
Proof.
  assert (Hn : PyStr.strip (get_str [("str", "ll")] "str") <> EmptyString)
    by discriminate.
  assert (Hu : unique_keys (ALIASES (with_ALIASES [("ll", "ls -la")] example_world))).
  { repeat constructor. intros []. }
  destruct (unalias_removes example_registry [("str", "ll")]
              (with_ALIASES [("ll", "ls -la")] example_world) Hn Hu)
    as (H1 & _ & _ & _ & _ & H6).
  split; [exact H1 | exact (H6 "ll /tmp" ["/tmp"] eq_refl)].
Defined.

Lemma set_then_get_witness :
  _run_builtin example_registry "set" [("str", "EDITOR = 'vi'")] example_world
    = (Ret (true, Some EmptyString),
       with_environ [("HOME", "/root"); ("EDITOR", "vi")] example_world) /\
  _run_builtin example_registry "get" [("str", "$env:EDITOR")]
      (with_environ [("HOME", "/root"); ("EDITOR", "vi")] example_world)
    = (Ret (true, Some "vi"),
       with_environ [("HOME", "/root"); ("EDITOR", "vi")] example_world).
Proof.
  assert (Hn : strip_var_prefix (PyStr.strip "EDITOR ") <> EmptyString) by discriminate.
  destruct (set_then_get example_registry [("str", "EDITOR = 'vi'")]
              "EDITOR " " 'vi'" example_world eq_refl Hn eq_refl eq_refl)
    as (H1 & H2 & _).
  split; [exact H1|].
  refine (H2 "$env:EDITOR" _ eq_refl). discriminate.
Defined.

Lemma run_builtin_always_answers_witness :
  (str_in "pwd" BUILTIN_NAMES = true /\
   exists t w', _run_builtin example_registry "pwd" [] example_world
                = (Ret (true, Some t), w')) \/
  (str_in "pwd" BUILTIN_NAMES = false /\
   _run_builtin example_registry "pwd" [] example_world
   = (Ret (false, None), example_world)).
Proof.
  refine (proj1 (run_builtin_always_answers example_registry "pwd" [] example_world) _).
  intros H. discriminate H.
Defined.


Lemma pwsh_escape_runs_locally_witness :
  exists w' evs,
    handle_input example_registry "!pwsh ls" example_world = (Ret tt, w') /\
    out w' = (out example_world ++ evs)%list /\ silent evs /\ spawned evs = [].
Proof.
  assert (Hl : PyStr.strip "!pwsh ls" <> EmptyString) by discriminate.
  destruct (pwsh_escape_runs_locally example_registry "!pwsh ls" example_world ["ls"]
              Hl eq_refl) as (w' & evs & E & O & S & H).
  exists w', evs. split; [exact E|]. split; [exact O|]. split; [exact S|].
  refine (proj1 (H _ eq_refl eq_refl)). discriminate.
Defined.

Lemma batch_with_shell_marker_uses_no_worker_witness :
  exists w' evs,
    batch_mode example_registry "!mt" "!mt !cmd dir & ver" example_world = (Ret tt, w') /\
    out w' = (out example_world ++ evs)%list /\ silent evs /\
    result_feed w' = result_feed example_world.
Proof.
  exact (batch_with_shell_marker_uses_no_worker example_registry "!mt"
           "!mt !cmd dir & ver" "!cmd" ["dir"; "&"; "ver"] example_world
           eq_refl eq_refl).
Defined.

Lemma batch_cmd_subcommand_spawns_witness :
  exists w' evs,
    batch_subcommand example_registry (Some "!cmd") 0 "dir /b" example_world
      = (Ret 0, w') /\
    out w' = (out example_world ++ evs)%list /\ silent evs /\
    spawned evs = [["dir"; "/b"]].
Proof.
  refine (batch_cmd_subcommand_spawns example_registry 0 "dir /b" example_world _).
  discriminate.
Defined.

Lemma single_command_one_task_one_read_witness :
  single_command example_registry "foo" "foo bar" ["foo"; "bar"] example_world
  = (Blocked,
     with_result_feed []
       (with_out [EvLog "Enqueue: foo bar"; EvEnqueue "foo" [("str", "bar")];
                  EvResultGet None] example_world)).
Proof.
  exact (single_command_one_task_one_read example_registry "foo" "foo bar"
           ["foo"; "bar"] example_world eq_refl).
Defined.

Lemma builtin_line_answered_locally_witness :
  exists w' evs,
    single_command example_registry "pwd" "pwd" ["pwd"] example_world = (Ret tt, w') /\
    out w' = (out example_world ++ evs)%list /\ silent evs /\
    result_feed w' = result_feed example_world.
Proof.
  refine (builtin_line_answered_locally example_registry "pwd" "pwd" ["pwd"]
            example_world eq_refl _).
  intros H. discriminate H.
Defined.

Lemma handle_input_waits_only_for_its_task_witness :
  fst (handle_input example_registry "foo bar" example_world) = Blocked /\
  exists evs,
    out (snd (handle_input example_registry "foo bar" example_world))
      = (out example_world ++ evs)%list /\
    length (enqueued evs) = 1 /\ result_reads evs = [None].
Proof.
  split; [reflexivity|].
  exact (handle_input_waits_only_for_its_task example_registry "foo bar"
           example_world eq_refl).
Defined.

Lemma worker_sentinel_ends_loop_witness :
  exists texts w',
    Worker_run 3 ([(example_registry, Some ("upper", [("str", "a")]))]
                  ++ (example_registry, None)
                  :: [(example_registry, Some ("upper", [("str", "b")]))])%list
               None example_world
      = (Ret Exited, w') /\
    length texts = 1 /\
    published (out w')
    = (published (out example_world) ++ map (fun t => (3, t)) texts ++
       match List.last (map Some texts) None with
       | Some r => [(3, r)]
       | None => []
       end)%list.
Proof.
  refine (proj2 (worker_sentinel_ends_loop 3 example_registry
                   [(example_registry, Some ("upper", [("str", "b")]))])
            [(example_registry, Some ("upper", [("str", "a")]))] example_world _).
  repeat constructor. discriminate.
Defined.

Lemma load_le_checks_in_order_witness :
  load_le example_read_refused unit (fun _ => Returns tt) (fun b => Returns b)
          (fun _ => "hi") "demo.le" [x4c; x55; x57]
  = Raises (Exn "ValueError" "Not a LUW binary (.le) or unsupported version") /\
  load_le example_read_refused unit (fun _ => Returns tt) (fun b => Returns b)
          (fun _ => "hi") "demo.le" (_LE_MAGIC ++ repeat xff 8 ++ [x7b; x7d])%list
  = Raises (Exn "OverflowError" "cannot fit 'int' into an index-sized integer").
Proof.
  split.
  - refine (proj1 (load_le_checks_in_order example_read_refused unit
                     (fun _ => Returns tt) (fun b => Returns b) (fun _ => "hi")
                     "demo.le" [x4c; x55; x57]) _).
    left. cbn. lia.
  - refine (proj1 (proj2 (load_le_checks_in_order example_read_refused unit
                            (fun _ => Returns tt) (fun b => Returns b) (fun _ => "hi")
                            "demo.le" (_LE_MAGIC ++ repeat xff 8 ++ [x7b; x7d])%list))
              _ _ _).
    + vm_compute. reflexivity.
    + vm_compute. reflexivity.
Defined.

Lemma reverse_returns_and_undoes_itself_witness :
  reverse (P := example_platform) [("str", "hello")] [] tt
    = (Returns "olleh", ([], tt)) /\
  reverse (P := example_platform) [("str", "olleh")] [] tt
    = (Returns "hello", ([], tt)).
Proof.
  exact (proj2 (reverse_returns_and_undoes_itself (P := example_platform)
                  [("str", "hello")] [] tt) eq_refl eq_refl).
Defined.

Lemma uniq_all_removes_every_repetition_witness :
  exists kept,
    uniq (P := example_platform)
         [("str", "a" ++ LF ++ "b" ++ LF ++ "a"); ("all", "True")] [] tt
      = (Returns (PyStr.join LF kept), ([], tt)) /\
    NoDup kept /\
    (forall l, In l kept <-> In l ["a"; "b"; "a"]) /\
    (NoDup ["a"; "b"; "a"] -> kept = ["a"; "b"; "a"]).
Proof.
  exact (uniq_all_removes_every_repetition (P := example_platform)
           [("str", "a" ++ LF ++ "b" ++ LF ++ "a"); ("all", "True")] [] tt eq_refl).
Defined.

Lemma uniq_removes_equal_neighbours_witness :
  exists kept,
    uniq (P := example_platform)
         [("str", "a" ++ LF ++ "a" ++ LF ++ "b" ++ LF ++ "a")] [] tt
      = (Returns (PyStr.join LF kept), ([], tt)) /\
    kept = ["a"; "b"; "a"].
Proof.
  destruct (uniq_removes_equal_neighbours (P := example_platform)
              [("str", "a" ++ LF ++ "a" ++ LF ++ "b" ++ LF ++ "a")] [] tt eq_refl)
    as (kept & E & _ & Hruns & _).
  exists kept. split; [exact E|].
  exact (Hruns [("a", 1); ("b", 0); ("a", 0)] eq_refl eq_refl).
Defined.

Lemma wrap_text_keeps_the_words_witness :
  PyStr.join " " (_wrap_text "the quick  brown fox" 9) = "the quick brown fox" /\
  _wrap_text "   " 9 = [EmptyString].
Proof.
  split.
  - exact (proj1 (wrap_text_keeps_the_words "the quick  brown fox" 9)).
  - exact (proj2 (wrap_text_keeps_the_words "   " 9) eq_refl).
Defined.

Lemma script_loop_skips_and_stops_witness :
  run_script_lines example_registry ("# note" ++ LF ++ "   " ++ LF) example_world
    = (Ret tt, example_world) /\
  run_script_lines example_registry
      ("echo hi" ++ LF ++ "# note" ++ LF ++ "!cmd dir" ++ LF ++ "echo x") example_world
    = (Raise (Exn "AttributeError"
                  "module 'modules.shell_executor' has no attribute 'run_cmd'"),
       with_out [EvLog "[Worker sync] hi"] example_world).
Proof.
  split.
  - exact (proj1 (script_loop_skips_and_stops example_registry
                    ("# note" ++ LF ++ "   " ++ LF) example_world) eq_refl).
  - exact (proj2 (proj2 (script_loop_skips_and_stops example_registry
                    ("echo hi" ++ LF ++ "# note" ++ LF ++ "!cmd dir" ++ LF ++ "echo x")
                    example_world))
             ["echo hi"; "# note"] ["echo x"] "!cmd dir" _ _ _
             eq_refl eq_refl eq_refl).
Defined.
